(** * get-token-price: a shallow embedding of [src/index.js]

    The development follows the second program of [src/index.js] (the one
    that reads PancakeSwap V3 pool state directly): address normalisation
    through [ethers.getAddress], token metadata, the V2 path probe, the V3
    fee-tier probe, the DexScreener client and the orchestrating
    [getTokenPrice].

    Remote reads (JSON-RPC contract calls and the HTTPS request) are
    modelled by an oracle that is consulted with the history of the calls
    issued so far, and every call is appended to that history.  A JavaScript
    [throw] is the left summand of the result; [try]/[catch] is a
    combinator of the monad. *)

From Stdlib Require Import ZArith String Ascii Bool Lia List.
From Stdlib Require Import QArith Permutation Sorted.
From Stdlib Require Import Floats.
Import ListNotations.
Close Scope Q_scope.
Open Scope string_scope.
Open Scope list_scope.
Open Scope Z_scope.

(** JavaScript's strict equality, on strings. *)
Notation "a === b" := (String.eqb a b) (at level 70, no associativity).

(* ================================================================== *)
(** * JavaScript strings (the ASCII fragment)                          *)
(* ================================================================== *)

(** A Rocq [string] is a sequence of bytes; [toLowerCase] and
    [toUpperCase] act on the ASCII letters and leave every other byte
    alone.  On the strings compared in this program (["usdt"], ["bnb"],
    hexadecimal digits) no character outside ASCII case-folds to one of
    the letters involved, so the ASCII rule decides the same tests. *)
Module JS.

Definition code (c : ascii) : Z := Z.of_N (N_of_ascii c).

Definition between (lo hi c : ascii) : bool :=
  (code lo <=? code c) && (code c <=? code hi).

Definition char_toLowerCase (c : ascii) : ascii :=
  if between "A" "Z" c then ascii_of_N (N_of_ascii c + 32) else c.

Definition char_toUpperCase (c : ascii) : ascii :=
  if between "a" "z" c then ascii_of_N (N_of_ascii c - 32) else c.

Definition chars (s : string) : list ascii := list_ascii_of_string s.
Definition join (cs : list ascii) : string := string_of_list_ascii cs.

Definition toLowerCase (s : string) : string :=
  join (map char_toLowerCase (chars s)).

Definition toUpperCase (s : string) : string :=
  join (map char_toUpperCase (chars s)).

(** [s.startsWith(p)] *)
Fixpoint startsWith (p s : string) : bool :=
  match p, s with
  | EmptyString, _ => true
  | String a p', String b s' => Ascii.eqb a b && startsWith p' s'
  | String _ _, EmptyString => false
  end.

(** JavaScript truthiness of a string: only the empty string is falsy. *)
Definition truthy (s : string) : bool := negb (s === "").

(** [parseInt(s, 10)] on a string of decimal digits. *)
Definition digit_value (c : ascii) : Z := code c - code "0".

Definition parseInt10 (s : string) : Z :=
  fold_left (fun acc c => 10 * acc + digit_value c) (chars s) 0.

(** [String(n)] for a non-negative integer, in decimal. *)
Fixpoint decimal_digits (fuel : nat) (n : Z) (acc : list ascii) : list ascii :=
  match fuel with
  | O => acc
  | S fuel' =>
      let d := ascii_of_N (Z.to_N (code "0" + n mod 10)) in
      if n <? 10 then d :: acc else decimal_digits fuel' (n / 10) (d :: acc)
  end.

Definition String_of_int (n : Z) : string :=
  join (decimal_digits (S (Z.to_nat (Z.log2 n))) n []).

(** [n.toString(16)] for a non-negative bigint. *)
Definition hex_digit (d : Z) : ascii :=
  nth (Z.to_nat d) (chars "0123456789abcdef") "0"%char.

Fixpoint hex_digits (fuel : nat) (n : Z) (acc : list ascii) : list ascii :=
  match fuel with
  | O => acc
  | S fuel' =>
      let d := hex_digit (n mod 16) in
      if n <? 16 then d :: acc else hex_digits fuel' (n / 16) (d :: acc)
  end.

Definition toString16 (n : Z) : string :=
  join (hex_digits (S (Z.to_nat (Z.log2 n))) n []).

End JS.

(* ================================================================== *)
(** * Keccak-256                                                       *)
(* ================================================================== *)

(** [ethers.getAddress] capitalises an address by the Keccak-256 digest
    of its lower-case hexadecimal text.  The permutation works on 25
    lanes of 64 bits, kept as [Z] with the wrap-around written out. *)
Module Keccak.

Definition mask64 : Z := 18446744073709551615.

Definition rotl64 (x n : Z) : Z :=
  Z.land (Z.lor (Z.shiftl x n) (Z.shiftr x (64 - n))) mask64.

Definition not64 (x : Z) : Z := Z.lxor x mask64.

Definition lane (st : list Z) (x y : nat) : Z :=
  nth ((x mod 5) + 5 * (y mod 5))%nat st 0.

Definition indices : list nat := seq 0 25.

Definition rotation_offsets : list Z :=
  [ 0;  1; 62; 28; 27;
   36; 44;  6; 55; 20;
    3; 10; 43; 25; 39;
   41; 45; 15; 21;  8;
   18;  2; 61; 56; 14].

Definition round_constants : list Z :=
  [0x0000000000000001; 0x0000000000008082; 0x800000000000808A;
   0x8000000080008000; 0x000000000000808B; 0x0000000080000001;
   0x8000000080008081; 0x8000000000008009; 0x000000000000008A;
   0x0000000000000088; 0x0000000080008009; 0x000000008000000A;
   0x000000008000808B; 0x800000000000008B; 0x8000000000008089;
   0x8000000000008003; 0x8000000000008002; 0x8000000000000080;
   0x000000000000800A; 0x800000008000000A; 0x8000000080008081;
   0x8000000000008080; 0x0000000080000001; 0x8000000080008008].

Definition theta (st : list Z) : list Z :=
  let C x := fold_left Z.lxor (map (lane st x) (seq 0 5)) 0 in
  let D x := Z.lxor (C (x + 4)%nat) (rotl64 (C (x + 1)%nat) 1) in
  map (fun i => Z.lxor (nth i st 0) (D (i mod 5)%nat)) indices.

Definition rho_pi (st : list Z) : list Z :=
  map (fun i =>
         let X := (i mod 5)%nat in
         let Y := (i / 5)%nat in
         let x := ((X + 3 * Y) mod 5)%nat in
         rotl64 (lane st x X) (nth (x + 5 * X)%nat rotation_offsets 0))
      indices.

Definition chi (st : list Z) : list Z :=
  map (fun i =>
         let x := (i mod 5)%nat in
         let y := (i / 5)%nat in
         Z.lxor (lane st x y)
                (Z.land (not64 (lane st (x + 1) y)) (lane st (x + 2) y)))
      indices.

Definition iota (rc : Z) (st : list Z) : list Z :=
  match st with
  | [] => []
  | a :: rest => Z.lxor a rc :: rest
  end.

Definition round (st : list Z) (rc : Z) : list Z :=
  iota rc (chi (rho_pi (theta st))).

Definition keccak_f (st : list Z) : list Z :=
  fold_left round round_constants st.

Fixpoint le_lane (bs : list Z) : Z :=
  match bs with
  | [] => 0
  | b :: rest => b + 256 * le_lane rest
  end.

Fixpoint lanes_of_bytes (n : nat) (bs : list Z) : list Z :=
  match n with
  | O => []
  | S n' => le_lane (firstn 8 bs) :: lanes_of_bytes n' (skipn 8 bs)
  end.

Fixpoint bytes_of_lane (n : nat) (w : Z) : list Z :=
  match n with
  | O => []
  | S n' => (w mod 256) :: bytes_of_lane n' (w / 256)
  end.

(** Rate of Keccak-256: 1088 bits. *)
Definition rate_bytes : nat := 136.

Definition absorb (st block : list Z) : list Z :=
  let ls := (lanes_of_bytes 17 block ++ repeat 0 8)%list in
  keccak_f (map (fun p => Z.lxor (fst p) (snd p)) (combine st ls)).

(** Multi-rate padding with the original Keccak domain byte [0x01]. *)
Definition pad (tail : list Z) : list Z :=
  match (rate_bytes - List.length tail)%nat with
  | 1%nat => (tail ++ [0x81])%list
  | k => (tail ++ [0x01] ++ repeat 0 (k - 2) ++ [0x80])%list
  end.

Fixpoint sponge (fuel : nat) (st msg : list Z) : list Z :=
  match fuel with
  | O => absorb st (pad msg)
  | S fuel' =>
      if (List.length msg <? rate_bytes)%nat then absorb st (pad msg)
      else sponge fuel' (absorb st (firstn rate_bytes msg))
                  (skipn rate_bytes msg)
  end.

Definition keccak256 (msg : list Z) : list Z :=
  let st := sponge (List.length msg / rate_bytes) (repeat 0 25) msg in
  firstn 32 (flat_map (bytes_of_lane 8) st).

End Keccak.

(* ================================================================== *)
(** * [ethers.getAddress]                                              *)
(* ================================================================== *)

(** [formatAddress] of [src/index.js] is [ethers.getAddress] and nothing
    else, so the normalisation the program performs is the library's
    (ethers v6, [address/address.ts]): the hexadecimal branch with its
    checksum test, and the ICAP branch.  It throws an [INVALID_ARGUMENT]
    error on a rejected input; a throw is [None] here.  The source writes
    its seven address constants with their checksum capitals, and the
    model leaves each of them as it is (lemma [constants_load]). *)
Module Ethers.

Import JS.

Definition is_digit (c : ascii) : bool := between "0" "9" c.
Definition is_lower_hex (c : ascii) : bool := between "a" "f" c.
Definition is_upper_hex (c : ascii) : bool := between "A" "F" c.
Definition is_hex (c : ascii) : bool :=
  is_digit c || is_lower_hex c || is_upper_hex c.
Definition is_alnum (c : ascii) : bool :=
  is_digit c || between "a" "z" c || between "A" "Z" c.

(** The 40 characters after an optional ["0x"], when the whole string has
    the shape [/^(0x)?[0-9a-fA-F]{40}$/]. *)
Definition hex_body (address : string) : option (list ascii) :=
  let cs := chars address in
  let body := if startsWith "0x" address then skipn 2 cs else cs in
  if (List.length body =? 40)%nat && forallb is_hex body
  then Some body else None.

Definition match_hex_address (address : string) : bool :=
  match hex_body address with Some _ => true | None => false end.

(** [/([A-F].*[a-f])|([a-f].*[A-F])/]: the text holds a capital and a
    small hexadecimal letter (on one line, which an address is). *)
Definition mixed_case (address : string) : bool :=
  existsb is_upper_hex (chars address) && existsb is_lower_hex (chars address).

(** The capitalisation loop of [getChecksumAddress]: nibble [i] of the
    digest decides character [i], for the first 40 characters. *)
Fixpoint checksum_case (hashed : list Z) (cs : list ascii) : list ascii :=
  match hashed, cs with
  | h :: hashed', c0 :: c1 :: cs' =>
      (if 8 <=? Z.shiftr h 4 then char_toUpperCase c0 else c0)
        :: (if 8 <=? Z.land h 15 then char_toUpperCase c1 else c1)
        :: checksum_case hashed' cs'
  | _, _ => cs
  end.

(** [getChecksumAddress(address)]: reading [chars[i]] for [i < 40] throws
    a [TypeError] when the text after the prefix is shorter. *)
Definition getChecksumAddress (address : string) : option string :=
  let cs := skipn 2 (chars (toLowerCase address)) in
  if (List.length cs <? 40)%nat then None
  else
    let expanded := map code (firstn 40 cs) in
    let hashed := Keccak.keccak256 expanded in
    Some (join ("0"%char :: "x"%char :: checksum_case (firstn 20 hashed) cs)).

(** [/^XE[0-9]{2}[0-9A-Za-z]{30,31}$/] *)
Definition match_icap (address : string) : bool :=
  match chars address with
  | "X"%char :: "E"%char :: d0 :: d1 :: rest =>
      is_digit d0 && is_digit d1 && forallb is_alnum rest
      && ((List.length rest =? 30)%nat || (List.length rest =? 31)%nat)
  | _ => false
  end.

(** [ibanLookup[c]], joined: a digit stands for itself, a capital letter
    for 10..35; any other character has no entry and joins as nothing. *)
Definition ibanLookup (c : ascii) : list ascii :=
  if is_digit c then [c]
  else if between "A" "Z" c then chars (String_of_int (code c - 55))
  else [].

Definition safeDigits : nat := 15.

(** The [while (expanded.length >= safeDigits)] loop of [ibanChecksum];
    each turn shortens the text, so its length bounds the turns. *)
Fixpoint iban_reduce (fuel : nat) (expanded : list ascii) : list ascii :=
  match fuel with
  | O => expanded
  | S fuel' =>
      if (safeDigits <=? List.length expanded)%nat then
        let block := firstn safeDigits expanded in
        iban_reduce fuel'
          (chars (String_of_int (parseInt10 (join block) mod 97))
             ++ skipn safeDigits expanded)%list
      else expanded
  end.

Definition ibanChecksum (address : string) : string :=
  let up := chars (toUpperCase address) in
  let moved := (skipn 4 up ++ firstn 2 up ++ chars "00")%list in
  let expanded := flat_map ibanLookup moved in
  let expanded := iban_reduce (List.length expanded) expanded in
  let checksum := String_of_int (98 - parseInt10 (join expanded) mod 97) in
  if (String.length checksum <? 2)%nat then ("0" ++ checksum)%string
  else checksum.

Definition base36_value (c : ascii) : Z :=
  if is_digit c then code c - code "0" else code c - code "a" + 10.

Definition fromBase36 (value : string) : Z :=
  fold_left (fun result c => result * 36 + base36_value c)
            (chars (toLowerCase value)) 0.

(** [while (result.length < 40) result = "0" + result] *)
Definition pad40 (result : string) : string :=
  join (repeat "0"%char (40 - String.length result) ++ chars result)%list.

(** [if (!address.startsWith("0x")) { address = "0x" + address; }] *)
Definition with0x (address : string) : string :=
  if startsWith "0x" address then address else ("0x" ++ address)%string.

Definition getAddress (address : string) : option string :=
  if match_hex_address address then
    let address := with0x address in
    match getChecksumAddress address with
    | None => None
    | Some result =>
        (* a checksummed address with a bad checksum is refused *)
        if negb (mixed_case address) || (result === address)
        then Some result else None
    end
  else if match_icap address then
    if substring 2 2 address === ibanChecksum address then
      getChecksumAddress
        ("0x" ++ pad40 (toString16 (fromBase36
                 (substring 4 (String.length address - 4) address))))%string
    else None
  else None.

(** The checksummed text over the 40 characters [body]: what
    [getChecksumAddress] makes of ["0x" + body]. *)
Definition canonical (body : list ascii) : string :=
  let lower := map char_toLowerCase body in
  String "0" (String "x"
    (join (checksum_case
             (firstn 20 (Keccak.keccak256 (map code (firstn 40 lower))))
             lower))).

(** The two single-case spellings of 40 characters. *)
Definition lower_spelling (body : list ascii) : string :=
  String "0" (String "x" (join (map char_toLowerCase body))).

Definition upper_spelling (body : list ascii) : string :=
  String "0" (String "x" (join (map char_toUpperCase body))).

End Ethers.

(** [function formatAddress(address) { return ethers.getAddress(address); }] *)
Definition formatAddress (address : string) : option string :=
  Ethers.getAddress address.

(** The address constants of the program.  Each is written in the source
    as [formatAddress("0x...")] over a literal that already carries its
    checksum, so loading the module leaves the literal as it is (lemma
    [constants_load] below). *)
Definition PANCAKE_ROUTER_V2 : string := "0x10ED43C718714eb63d5aA57B78B54704E256024E".
Definition PANCAKE_V3_FACTORY : string := "0x0BFbCF9fa4f9C56B0F40a671Ad40E0805A091865".
Definition WBNB : string := "0xbb4CdB9CBd36B01bD1cBaEBF2De08d9173bc095c".
Definition USDT : string := "0x55d398326f99059fF775485246999027B3197955".
Definition BUSD : string := "0xe9e7CEA3DedcA5984780Bafc599bD69ADd087D56".
Definition USDC : string := "0x8AC76a51cc950d9822D68b83fE1Ad97B32Cd580d".
Definition UGO : string := "0x66a2ed2F04BC7D2a03785DD04261A2FA595a5839".
Definition CAKE : string := "0x0e09fabb73bd3ade0a17ecc321fd13a19e81ce82".

(** [ethers.ZeroAddress] *)
Definition ZeroAddress : string := "0x0000000000000000000000000000000000000000".

(** [const KNOWN_V3_POOLS = { }]: its one entry is commented out. *)
Definition KNOWN_V3_POOLS : list (string * string) := [].

Fixpoint lookup (key : string) (table : list (string * string)) : option string :=
  match table with
  | [] => None
  | (k, v) :: rest => if k === key then Some v else lookup key rest
  end.

(** [const feeTiers = [100, 500, 2500, 10000]] in [tryGetPriceV3]
    (0.01%, 0.05%, 0.25%, 1%: the unit is a hundredth of a basis point). *)
Definition feeTiers : list Z := [100; 500; 2500; 10000].

(* ================================================================== *)
(** * Numbers                                                          *)
(* ================================================================== *)

(** A JavaScript number is an IEEE 754 binary64, the kernel's [float]. *)
Definition number : Type := float.

(** [Number(tick)] of a bigint within the 63-bit range. *)
Definition Number_of_bigint (z : Z) : number :=
  if z <? 0 then PrimFloat.opp (PrimFloat.of_uint63 (Uint63.of_Z (- z)))
  else PrimFloat.of_uint63 (Uint63.of_Z z).

(** The literal [1.0001]. *)
Definition tick_base : number := 0x1.00068db8bac71p+0%float.

(* ================================================================== *)
(** * Data                                                             *)
(* ================================================================== *)

(** [{ price, version, path }] with [null] as [None]. *)
Record PriceQuote : Type := mkQuote {
  q_price : option string;
  q_version : option string;
  q_path : option (list string)
}.

Definition Unresolved : PriceQuote := mkQuote None None None.

(** [{ symbol, name, decimals }] *)
Record TokenInfo : Type := mkInfo {
  t_symbol : string;
  t_name : string;
  t_decimals : Z
}.

Definition UNKNOWN_TOKEN : TokenInfo := mkInfo "UNKNOWN" "Unknown Token" 18.

(** The part of a DexScreener answer the program reads.  A field that may
    be missing is an [option]; [liquidity.usd] is a JSON number, kept as
    the rational it denotes. *)
Record Liquidity : Type := mkLiquidity { usd : option Q }.

Record QuoteTokenInfo : Type := mkQuoteToken {
  qt_symbol : option string;
  qt_name : option string
}.

Record Pair : Type := mkPair {
  liquidity : option Liquidity;
  priceNative : option string;
  priceUsd : option string;
  quoteToken : option QuoteTokenInfo;
  dexId : option string
}.

(** The parsed body: [null], or an object whose [pairs] may be missing,
    [null] or an array. *)
Record Body : Type := mkBody { pairs : option (list Pair) }.

Definition Json : Type := option Body.

(** What the HTTPS request comes to. *)
Inductive HttpOutcome : Type :=
| HttpError
| HttpTimeout
| HttpResponse (statusCode : Z) (body : string).

(* ================================================================== *)
(** * Remote calls, exceptions and the monad                           *)
(* ================================================================== *)

Inductive Call : Type :=
| RouterGetAmountsOut (amountIn : Z) (path : list string)
| FactoryGetPool (tokenA tokenB : string) (fee : Z)
| PoolToken0 (pool : string)
| PoolToken1 (pool : string)
| PoolSlot0 (pool : string)
| TokenSymbol (token : string)
| TokenName (token : string)
| TokenDecimals (token : string)
| HttpsGet (url : string) (timeout_ms : Z).

Definition History : Type := list Call.

(** The world outside: every answer may depend on the calls issued before
    it.  [None] is a rejected promise (a revert, a missing method, an RPC
    error). *)
Record Remote : Type := mkRemote {
  router_getAmountsOut : History -> Z -> list string -> option (list Z);
  factory_getPool : History -> string -> string -> Z -> option string;
  pool_token0 : History -> string -> option string;
  pool_token1 : History -> string -> option string;
  pool_slot0_tick : History -> string -> option Z;
  erc20_symbol : History -> string -> option string;
  erc20_name : History -> string -> option string;
  erc20_decimals : History -> string -> option Z;
  https_get : History -> string -> HttpOutcome
}.

(** Library and host functions the program calls and does not define. *)
Record Runtime : Type := mkRuntime {
  (** [ethers.parseUnits(value, decimals)]; throws on a bad scale *)
  parseUnits : string -> Z -> option Z;
  (** [ethers.formatUnits(value, decimals)] *)
  formatUnits : Z -> Z -> string;
  Math_pow : number -> number -> number;
  Number_toString : number -> string;
  parseFloat : string -> number;
  (** [JSON.parse]; [None] is a [SyntaxError] *)
  JSON_parse : string -> option Json
}.

Inductive exn : Type :=
| InvalidAddress    (* ethers.getAddress refused its argument *)
| InvalidArgument   (* another ethers argument check *)
| CallException     (* a contract read was rejected *)
| TypeError
| RequestFailed.    (* fetchAPI rejected *)

Definition M (A : Type) : Type := History -> (exn + A) * History.

Definition ret {A : Type} (a : A) : M A := fun h => (inr a, h).

Definition throw {A : Type} (e : exn) : M A := fun h => (inl e, h).

Definition bind {A B : Type} (m : M A) (k : A -> M B) : M B :=
  fun h =>
    match m h with
    | (inr a, h') => k a h'
    | (inl e, h') => (inl e, h')
    end.

(** [try { m } catch (error) { handler }] *)
Definition try_catch {A : Type} (m : M A) (handler : exn -> M A) : M A :=
  fun h =>
    match m h with
    | (inl e, h') => handler e h'
    | (inr a, h') => (inr a, h')
    end.

(** A library call that returns or throws. *)
Definition orThrow {A : Type} (e : exn) (o : option A) : M A :=
  match o with
  | Some a => ret a
  | None => throw e
  end.

(** One awaited remote read: the call joins the history whatever its
    answer. *)
Definition await {A : Type} (c : Call) (answer : History -> option A) : M A :=
  fun h =>
    match answer h with
    | Some a => (inr a, h ++ [c])
    | None => (inl CallException, h ++ [c])
    end.

(** [await Promise.all([a, b, c])]: the three calls are issued in order
    before anything is awaited, and one rejection rejects the whole. *)
Definition Promise_all3 {A B C : Type} (a : M A) (b : M B) (c : M C)
  : M (A * B * C) :=
  fun h =>
    let (ra, h1) := a h in
    let (rb, h2) := b h1 in
    let (rc, h3) := c h2 in
    match ra, rb, rc with
    | inr x, inr y, inr z => (inr (x, y, z), h3)
    | inl e, _, _ => (inl e, h3)
    | _, inl e, _ => (inl e, h3)
    | _, _, inl e => (inl e, h3)
    end.

Declare Scope js_scope.
Delimit Scope js_scope with js.
Notation "x <- m ;; k" := (bind m (fun x => k))
  (at level 100, m at next level, right associativity) : js_scope.
Notation "' pat <- m ;; k" := (bind m (fun x => match x with pat => k end))
  (at level 100, pat pattern, m at next level, right associativity) : js_scope.
Open Scope js_scope.

Fixpoint mapM {A B : Type} (f : A -> M B) (l : list A) : M (list B) :=
  match l with
  | [] => ret []
  | a :: rest => b <- f a ;; bs <- mapM f rest ;; ret (b :: bs)
  end.

(** Truthiness of a [string | null | undefined] value. *)
Definition truthy (v : option string) : bool :=
  match v with
  | Some s => JS.truthy s
  | None => false
  end.

(* ================================================================== *)
(** * The program                                                      *)
(* ================================================================== *)

Section Program.

Variable rt : Runtime.
Variable net : Remote.

(** ** Contract bindings *)

(** [routerContract.getAmountsOut(amountIn, path)] *)
Definition getAmountsOut (amountIn : Z) (path : list string) : M (list Z) :=
  await (RouterGetAmountsOut amountIn path)
        (fun h => router_getAmountsOut net h amountIn path).

(** [factoryV3Contract.getPool(tokenA, tokenB, fee)] *)
Definition getPool (tokenA tokenB : string) (fee : Z) : M string :=
  await (FactoryGetPool tokenA tokenB fee)
        (fun h => factory_getPool net h tokenA tokenB fee).

Definition token0 (pool : string) : M string :=
  await (PoolToken0 pool) (fun h => pool_token0 net h pool).

Definition token1 (pool : string) : M string :=
  await (PoolToken1 pool) (fun h => pool_token1 net h pool).

(** [poolContract.slot0()], of which the program reads [tick]. *)
Definition slot0 (pool : string) : M Z :=
  await (PoolSlot0 pool) (fun h => pool_slot0_tick net h pool).

Definition symbol (token : string) : M string :=
  await (TokenSymbol token) (fun h => erc20_symbol net h token).

Definition name (token : string) : M string :=
  await (TokenName token) (fun h => erc20_name net h token).

Definition decimals (token : string) : M Z :=
  await (TokenDecimals token) (fun h => erc20_decimals net h token).

(** ** [fetchAPI] (lines 484-523) *)

Definition REQUEST_TIMEOUT_MS : Z := 5000.

Definition fetchAPI (url : string) : M Json :=
  fun h =>
    let h' := h ++ [HttpsGet url REQUEST_TIMEOUT_MS] in
    match https_get net h url with
    | HttpResponse statusCode body =>
        if negb (statusCode =? 200) then (inl RequestFailed, h')
        else
          match JSON_parse rt body with
          | Some jsonData => (inr jsonData, h')
          | None => (inl RequestFailed, h')
          end
    | HttpError => (inl RequestFailed, h')
    | HttpTimeout => (inl RequestFailed, h')
    end.

(** ** [priceFromTick] (lines 531-535) *)

Definition priceFromTick (tick : Z) (invert : bool) : number :=
  let price := Math_pow rt tick_base (Number_of_bigint tick) in
  if invert then PrimFloat.div PrimFloat.one price else price.

(** ** [getKnownPoolAddress] (lines 543-555) *)

Definition getKnownPoolAddress (tokenA tokenB : string) : M (option string) :=
  formattedTokenA <- orThrow InvalidAddress (formatAddress tokenA) ;;
  formattedTokenB <- orThrow InvalidAddress (formatAddress tokenB) ;;
  if ((formattedTokenA === UGO) && (formattedTokenB === WBNB))
     || ((formattedTokenA === WBNB) && (formattedTokenB === UGO))
  then ret (lookup "UGO-BNB" KNOWN_V3_POOLS)
  else ret None.

(** ** [tryGetPriceV3] (lines 563-644) *)

(** The block both branches of [tryGetPriceV3] run on a pool: read
    [token0], [token1] and [slot0] together, invert when the input token
    is [token1], and print the price. *)
Definition readPoolPrice (formattedTokenIn pool : string) : M string :=
  ' (_, tok1, tick) <- Promise_all3 (token0 pool) (token1 pool) (slot0 pool) ;;
  let invert := formattedTokenIn === tok1 in
  let price := priceFromTick tick invert in
  ret (Number_toString rt price).

(** One turn of [for (const fee of feeTiers)]: [Some price] is the
    [return], [None] falls to the next fee ([continue], or the [catch]
    that only logs). *)
Definition probeFeeTier (formattedTokenIn formattedTokenOut : string) (fee : Z)
  : M (option string) :=
  try_catch
    (poolAddress <- getPool formattedTokenIn formattedTokenOut fee ;;
     if poolAddress === ZeroAddress then ret None
     else
       pool <- orThrow InvalidAddress (formatAddress poolAddress) ;;
       price <- readPoolPrice formattedTokenIn pool ;;
       ret (Some price))
    (fun _ => ret None).

Fixpoint probeFeeTiers (formattedTokenIn formattedTokenOut : string)
  (fees : list Z) : M (option string) :=
  match fees with
  | [] => ret None
  | fee :: rest =>
      r <- probeFeeTier formattedTokenIn formattedTokenOut fee ;;
      match r with
      | Some price => ret (Some price)
      | None => probeFeeTiers formattedTokenIn formattedTokenOut rest
      end
  end.

Definition tryGetPriceV3 (tokenIn tokenOut : string) : M (option string) :=
  try_catch
    (formattedTokenIn <- orThrow InvalidAddress (formatAddress tokenIn) ;;
     formattedTokenOut <- orThrow InvalidAddress (formatAddress tokenOut) ;;
     knownPoolAddress <- getKnownPoolAddress formattedTokenIn formattedTokenOut ;;
     known <-
       match knownPoolAddress with
       | Some pool =>
           if JS.truthy pool then
             try_catch
               (price <- readPoolPrice formattedTokenIn pool ;; ret (Some price))
               (fun _ => ret None)
           else ret None
       | None => ret None
       end ;;
     match known with
     | Some price => ret (Some price)
     | None => probeFeeTiers formattedTokenIn formattedTokenOut feeTiers
     end)
    (fun _ => ret None).

(** ** [getPriceDexScreener] (lines 653-690) *)

(** [parseFloat(p.liquidity?.usd || 0)] *)
Definition liquidityUsd (p : Pair) : Q :=
  match liquidity p with
  | Some l => match usd l with Some v => v | None => 0%Q end
  | None => 0%Q
  end.

(** The comparator handed to [sort].  The difference of two finite
    doubles has the sign of the exact difference, so the rationals order
    the pairs as the floating-point subtraction does. *)
Definition compareLiquidity (a b : Pair) : Q :=
  (liquidityUsd b - liquidityUsd a)%Q.

(** [Array.prototype.sort(comparefn)]: the stable sort that puts [a]
    before [b] when [comparefn(a, b) <= 0] for [a] the earlier of the
    two. *)
Section ArraySort.

Variable A : Type.
Variable comparefn : A -> A -> Q.

Fixpoint sort_insert (a : A) (sorted : list A) : list A :=
  match sorted with
  | [] => [a]
  | b :: rest =>
      if Qle_bool (comparefn a b) 0 then a :: sorted
      else b :: sort_insert a rest
  end.

Definition Array_sort (l : list A) : list A :=
  fold_right sort_insert [] l.

End ArraySort.

Arguments sort_insert {A} comparefn a sorted.
Arguments Array_sort {A} comparefn l.

Definition DEXSCREENER_URL : string :=
  "https://api.dexscreener.com/latest/dex/tokens/".

Definition getPriceDexScreener (tokenAddress sym mode : string)
  : M (option string) :=
  try_catch
    (formattedTokenAddress <- orThrow InvalidAddress (formatAddress tokenAddress) ;;
     let url := (DEXSCREENER_URL ++ formattedTokenAddress)%string in
     data <- fetchAPI url ;;
     match data with
     | Some (mkBody (Some (first :: others))) =>
         let sortedPairs := Array_sort compareLiquidity (first :: others) in
         match sortedPairs with
         | [] => throw TypeError
         | bestPair :: _ =>
             if JS.toLowerCase mode === "bnb" then
               if truthy (priceNative bestPair) then
                 (* the log line reads bestPair.quoteToken.symbol and .name *)
                 _ <- orThrow TypeError (quoteToken bestPair) ;;
                 ret (priceNative bestPair)
               else ret None
             else if JS.toLowerCase mode === "usdt" then
               if truthy (priceUsd bestPair) then ret (priceUsd bestPair)
               else ret None
             else ret None
         end
     | _ => ret None
     end)
    (fun _ => ret None).

(** ** [getTokenInfo] (lines 697-718) *)

Definition getTokenInfo (tokenAddress : string) : M TokenInfo :=
  try_catch
    (formattedAddress <- orThrow InvalidAddress (formatAddress tokenAddress) ;;
     ' (sym, nm, dec) <- Promise_all3 (symbol formattedAddress)
                                      (name formattedAddress)
                                      (decimals formattedAddress) ;;
     ret (mkInfo sym nm dec))
    (fun _ => ret UNKNOWN_TOKEN).

(** ** [checkPathLiquidityV2] (lines 726-734) *)

Definition checkPathLiquidityV2 (path : list string) (dec : Z) : M bool :=
  try_catch
    (amountIn <- orThrow InvalidArgument (parseUnits rt "1" dec) ;;
     _ <- getAmountsOut amountIn path ;;
     ret true)
    (fun _ => ret false).

(** ** [getTokenPrice] (lines 743-903) *)

(** The two special cases quote one unit over a direct V2 pair
    (lines 752-757 and 765-770). *)
Definition quoteDirectPair (tokenA tokenB symA symB : string) : M PriceQuote :=
  amountIn <- orThrow InvalidArgument (parseUnits rt "1" 18) ;;
  amounts <- getAmountsOut amountIn [tokenA; tokenB] ;;
  amount <- orThrow InvalidArgument (nth_error amounts 1) ;;
  let price := formatUnits rt amount 18 in
  ret (mkQuote (Some price) (Some "v2") (Some [symA; symB])).

(** Lines 780-786: the label and the address of the quote token. *)
Definition selectQuote (mode : string) : string * string :=
  if JS.toLowerCase mode === "usdt" then ("USDT", USDT) else ("BNB", WBNB).

(** Lines 789-794.  The [if (mode.toLowerCase() === "usdt")] that follows
    has an empty body, so the list is used as it is. *)
Definition pathsV2 (formattedTokenAddress quoteTok : string) : list (list string) :=
  [ [formattedTokenAddress; quoteTok];
    [formattedTokenAddress; WBNB; quoteTok];
    [formattedTokenAddress; BUSD; quoteTok];
    [formattedTokenAddress; USDC; quoteTok] ].

(** Lines 816-829: the symbol reported for one address of the path. *)
Definition pathSymbol (formattedTokenAddress sym addr : string) : M string :=
  if addr === WBNB then ret "WBNB"
  else if addr === USDT then ret "USDT"
  else if addr === BUSD then ret "BUSD"
  else if addr === USDC then ret "USDC"
  else if addr === formattedTokenAddress then ret sym
  else
    try_catch
      (tokenInfo <- getTokenInfo addr ;; ret (t_symbol tokenInfo))
      (fun _ => ret (substring 0 6 addr ++ "...")%string).

(** Lines 807-834: what runs once a path has passed the liquidity check. *)
Definition quotePathV2 (formattedTokenAddress sym : string) (dec : Z)
  (path : list string) : M PriceQuote :=
  amountIn <- orThrow InvalidArgument (parseUnits rt "1" dec) ;;
  amounts <- getAmountsOut amountIn path ;;
  let quoteIndex := (List.length path - 1)%nat in
  amount <- orThrow InvalidArgument (nth_error amounts quoteIndex) ;;
  let price := formatUnits rt amount 18 in
  pathSymbols <- mapM (pathSymbol formattedTokenAddress sym) path ;;
  ret (mkQuote (Some price) (Some "v2") (Some pathSymbols)).

(** Lines 804-836: [for (const path of pathsV2)].  [Some quote] is the
    [return] inside the loop; [None] is the loop running out. *)
Fixpoint probePathsV2 (formattedTokenAddress sym : string) (dec : Z)
  (paths : list (list string)) : M (option PriceQuote) :=
  match paths with
  | [] => ret None
  | path :: rest =>
      hasLiquidity <- checkPathLiquidityV2 path dec ;;
      if hasLiquidity : bool then
        quote <- quotePathV2 formattedTokenAddress sym dec path ;;
        ret (Some quote)
      else probePathsV2 formattedTokenAddress sym dec rest
  end.

(** Lines 843-868: the V3 price, direct or through WBNB. *)
Definition resolvePriceV3 (formattedTokenAddress mode : string)
  : M (option string) :=
  if JS.toLowerCase mode === "usdt" then
    priceV3 <- tryGetPriceV3 formattedTokenAddress USDT ;;
    if negb (truthy priceV3) then
      priceInBNB <- tryGetPriceV3 formattedTokenAddress WBNB ;;
      match priceInBNB with
      | Some inBNB =>
          if JS.truthy inBNB then
            bnbPriceInUSDT <- tryGetPriceV3 WBNB USDT ;;
            match bnbPriceInUSDT with
            | Some inUSDT =>
                if JS.truthy inUSDT then
                  ret (Some (Number_toString rt
                               (PrimFloat.mul (parseFloat rt inBNB)
                                              (parseFloat rt inUSDT))))
                else ret priceV3
            | None => ret priceV3
            end
          else ret priceV3
      | None => ret priceV3
      end
    else ret priceV3
  else tryGetPriceV3 formattedTokenAddress WBNB.

(** Lines 839-881: [Some quote] is the [return] of the V3 stage. *)
Definition stageV3 (formattedTokenAddress sym mode : string) (tryV3 : bool)
  : M (option PriceQuote) :=
  if tryV3 then
    try_catch
      (priceV3 <- resolvePriceV3 formattedTokenAddress mode ;;
       if truthy priceV3 then
         ret (Some (mkQuote priceV3 (Some "v3")
                      (Some (if JS.toLowerCase mode === "usdt"
                             then [sym; "USDT"] else [sym; "WBNB"]))))
       else ret None)
      (fun _ => ret None)
  else ret None.

(** Lines 884-897: the DexScreener stage and the final record. *)
Definition stageDexScreener (formattedTokenAddress sym mode : string)
  : M PriceQuote :=
  priceDexScreener <- getPriceDexScreener formattedTokenAddress sym mode ;;
  if truthy priceDexScreener then
    ret (mkQuote priceDexScreener (Some "dexscreener")
           (Some [sym; if JS.toLowerCase mode === "usdt" then "USDT" else "WBNB"]))
  else ret Unresolved.

(** Lines 776-897: what follows the metadata read. *)
Definition resolveWithInfo (formattedTokenAddress mode : string) (tryV3 : bool)
  (info : TokenInfo) : M PriceQuote :=
  let sym := t_symbol info in
  let dec := t_decimals info in
  let quoteTok := snd (selectQuote mode) in
  v2 <- probePathsV2 formattedTokenAddress sym dec
          (pathsV2 formattedTokenAddress quoteTok) ;;
  match v2 with
  | Some quote => ret quote
  | None =>
      v3 <- stageV3 formattedTokenAddress sym mode tryV3 ;;
      match v3 with
      | Some quote => ret quote
      | None => stageDexScreener formattedTokenAddress sym mode
      end
  end.

(** Lines 773-897: the resolution of a token that is not a special case. *)
Definition resolveToken (formattedTokenAddress mode : string) (tryV3 : bool)
  : M PriceQuote :=
  info <- getTokenInfo formattedTokenAddress ;;
  resolveWithInfo formattedTokenAddress mode tryV3 info.

Definition getTokenPrice (tokenAddress mode : string) (tryV3 : bool)
  : M PriceQuote :=
  try_catch
    (formattedTokenAddress <- orThrow InvalidAddress (formatAddress tokenAddress) ;;
     if formattedTokenAddress === WBNB then
       if JS.toLowerCase mode === "usdt" then
         quoteDirectPair WBNB USDT "WBNB" "USDT"
       else
         ret (mkQuote (Some "1") (Some "n/a") (Some ["WBNB"]))
     else if (formattedTokenAddress === USDT) && (JS.toLowerCase mode === "bnb") then
       quoteDirectPair USDT WBNB "USDT" "WBNB"
     else resolveToken formattedTokenAddress mode tryV3)
    (fun _ => ret Unresolved).

End Program.

Arguments sort_insert {A} comparefn a sorted.
Arguments Array_sort {A} comparefn l.

(** ** Words for the statements *)

(** The symbol [pathSymbol] reports for the input token and for the four
    tokens the program knows by name. *)
Definition reportedSymbol (sym addr : string) : string :=
  if addr === WBNB then "WBNB"
  else if addr === USDT then "USDT"
  else if addr === BUSD then "BUSD"
  else if addr === USDC then "USDC"
  else sym.

(** The router calls of a run of candidate paths. *)
Definition v2calls (amountIn : Z) (paths : list (list string)) : History :=
  map (RouterGetAmountsOut amountIn) paths.

(** An address [pathSymbol] names without a remote read. *)
Definition known_address (fa addr : string) : bool :=
  (addr === WBNB) || (addr === USDT) || (addr === BUSD) || (addr === USDC)
  || (addr === fa).

(** What the quote of a path that passed the liquidity check comes to,
    from the router's answer to the second [getAmountsOut]. *)
Definition v2Outcome (rt : Runtime) (sym : string) (path : list string)
  (answer : option (list Z)) (h : History)
  : (exn + option PriceQuote) * History :=
  match answer with
  | Some amounts =>
      match nth_error amounts (List.length path - 1) with
      | Some amount =>
          (inr (Some (mkQuote (Some (formatUnits rt amount 18)) (Some "v2")
                        (Some (map (reportedSymbol sym) path)))), h)
      | None => (inl InvalidArgument, h)
      end
  | None => (inl CallException, h)
  end.

(** The three reads of [getTokenInfo]. *)
Definition metadataCalls (fa : string) : History :=
  [TokenSymbol fa; TokenName fa; TokenDecimals fa].

(** The order [sort] leaves the pairs in: liquidity, descending. *)
Definition byLiquidity (a b : Pair) : Prop :=
  (liquidityUsd b <= liquidityUsd a)%Q.

(** What [getPriceDexScreener] makes of the pair it picked. *)
Definition dexOutcome (mode : string) (bestPair : Pair) : option string :=
  if JS.toLowerCase mode === "bnb" then
    if truthy (priceNative bestPair) then
      match quoteToken bestPair with
      | Some _ => priceNative bestPair
      | None => None
      end
    else None
  else if JS.toLowerCase mode === "usdt" then
    if truthy (priceUsd bestPair) then priceUsd bestPair else None
  else None.

(** A computation only ever appends to the history. *)
Definition Grows {A : Type} (m : M A) : Prop :=
  forall h, exists t, snd (m h) = h ++ t.

(** [Post m P]: whenever [m] returns, the value satisfies [P]. *)
Definition Post {A : Type} (m : M A) (P : A -> Prop) : Prop :=
  forall h, match fst (m h) with inr a => P a | inl _ => True end.

(* ================================================================== *)
(** * A stand-in host and sample networks for closed examples          *)
(* ================================================================== *)

(** The theorems below hold for every [Runtime] and every [Remote].  The
    closed examples need one of each; this module supplies plain ones. *)
Module Sample.

Definition pow10 (d : Z) : Z := 10 ^ d.

(** [parseUnits("1", d)] is [10^d]; other texts are not used. *)
Definition parseUnits (value : string) (d : Z) : option Z :=
  if (value === "1") && (0 <=? d) then Some (pow10 d) else None.

Definition pad_left (n : nat) (cs : list ascii) : list ascii :=
  repeat "0"%char (n - List.length cs) ++ cs.

Fixpoint strip_zeros (rev_digits : list ascii) : list ascii :=
  match rev_digits with
  | c :: rest => if Ascii.eqb c "0" then strip_zeros rest else rev_digits
  | [] => []
  end.

(** A decimal fraction [n / 10^d] written out, with at least one digit
    after the point. *)
Definition decimal (n d : Z) : string :=
  let whole := JS.chars (JS.String_of_int (n / pow10 d)) in
  let frac := pad_left (Z.to_nat d) (JS.chars (JS.String_of_int (n mod pow10 d))) in
  let frac := rev (strip_zeros (rev frac)) in
  JS.join (whole ++ "."%char :: (match frac with [] => ["0"%char] | _ => frac end)).

Definition formatUnits (value d : Z) : string := decimal value d.

(** The integer a number stands for, when it is one. *)
Definition integer_of (f : number) : option Z :=
  match Prim2SF f with
  | S754_zero _ => Some 0
  | S754_finite s m e =>
      let signed (z : Z) := if s then - z else z in
      if 0 <=? e then Some (signed (Zpos m * 2 ^ e))
      else if Zpos m mod 2 ^ (- e) =? 0 then Some (signed (Zpos m / 2 ^ (- e)))
      else None
  | _ => None
  end.

(** Powers by repeated multiplication, for integer exponents. *)
Definition Math_pow (x y : number) : number :=
  match integer_of y with
  | Some 0 => PrimFloat.one
  | Some (Zpos n) => Pos.iter (PrimFloat.mul x) PrimFloat.one n
  | Some (Zneg n) =>
      PrimFloat.div PrimFloat.one (Pos.iter (PrimFloat.mul x) PrimFloat.one n)
  | None => PrimFloat.nan
  end.

(** The exact decimal expansion of a finite number. *)
Definition Number_toString (f : number) : string :=
  match Prim2SF f with
  | S754_zero _ => "0"
  | S754_infinity s => if s then "-Infinity" else "Infinity"
  | S754_nan => "NaN"
  | S754_finite s m e =>
      let body :=
        if 0 <=? e then JS.String_of_int (Zpos m * 2 ^ e)
        else
          let text := decimal (Zpos m * 5 ^ (- e)) (- e) in
          match rev (JS.chars text) with
          | "0"%char :: "."%char :: whole => JS.join (rev whole)
          | _ => text
          end in
      if s then ("-" ++ body)%string else body
  end.

(** Digits, an optional point, digits. *)
Fixpoint scan_decimal (cs : list ascii) (seen_point : bool) (n k : Z) : Z * Z :=
  match cs with
  | [] => (n, k)
  | c :: rest =>
      if Ethers.is_digit c then
        scan_decimal rest seen_point (10 * n + JS.digit_value c)
                     (if seen_point then k + 1 else k)
      else if Ascii.eqb c "." && negb seen_point then scan_decimal rest true n k
      else (n, k)
  end.

Definition parseFloat (s : string) : number :=
  let (n, k) := scan_decimal (JS.chars s) false 0 0 in
  PrimFloat.div (PrimFloat.of_uint63 (Uint63.of_Z n))
                (PrimFloat.of_uint63 (Uint63.of_Z (pow10 k))).

(** A host whose [JSON.parse] yields [parsed] for every body. *)
Definition runtime (parsed : option Json) : Runtime :=
  mkRuntime parseUnits formatUnits Math_pow Number_toString parseFloat
            (fun _ => parsed).

(** A network on which every read is rejected. *)
Definition silent : Remote :=
  mkRemote (fun _ _ _ => None) (fun _ _ _ _ => None)
           (fun _ _ => None) (fun _ _ => None) (fun _ _ => None)
           (fun _ _ => None) (fun _ _ => None) (fun _ _ => None)
           (fun _ _ => HttpError).

Definition CAKE_TOKEN : string := "0x0E09FaBB73Bd3Ade0a17ECC321fD13a19e81cE82".

Definition cake_metadata (r : Remote) : Remote :=
  mkRemote (router_getAmountsOut r) (factory_getPool r)
           (pool_token0 r) (pool_token1 r) (pool_slot0_tick r)
           (fun _ _ => Some "Cake") (fun _ _ => Some "PancakeSwap Token")
           (fun _ _ => Some 18)
           (https_get r).

Definition with_router (answer : Z -> list string -> option (list Z))
  (r : Remote) : Remote :=
  mkRemote (fun _ => answer) (factory_getPool r)
           (pool_token0 r) (pool_token1 r) (pool_slot0_tick r)
           (erc20_symbol r) (erc20_name r) (erc20_decimals r) (https_get r).

(** Liquidity on the direct pair and through BUSD. *)
Definition direct_and_busd_market : Remote :=
  cake_metadata (with_router
    (fun amountIn path =>
       match path with
       | [_; _] => Some [amountIn; 2 * amountIn]
       | [_; hop; _] =>
           if hop === BUSD then Some [amountIn; 3 * amountIn; 7 * amountIn]
           else None
       | _ => None
       end) silent).

(** Liquidity through BUSD and through USDC only. *)
Definition stable_hops_market : Remote :=
  cake_metadata (with_router
    (fun amountIn path =>
       match path with
       | [_; hop; _] =>
           if hop === BUSD then Some [amountIn; 3 * amountIn; 7 * amountIn]
           else if hop === USDC then Some [amountIn; 4 * amountIn; 9 * amountIn]
           else None
       | _ => None
       end) silent).

Definition POOL_500_RAW : string := "0x36696169c63e42cd08ce11f5deebbcebae652050".
Definition POOL_500 : string := "0x36696169C63e42cd08ce11f5deeBbCeBae652050".
Definition POOL_2500 : string := "0x172fcD41E0913e95784454622d1c3724f546f849".

(** V3 pools for every pair at the fees 500 and 2500, none elsewhere;
    [token0] is USDT and [token1] is WBNB in both. *)
Definition v3_market : Remote :=
  mkRemote (fun _ _ _ => None)
           (fun _ _ _ fee =>
              if fee =? 500 then Some POOL_500_RAW
              else if fee =? 2500 then Some POOL_2500
              else Some ZeroAddress)
           (fun _ _ => Some USDT) (fun _ _ => Some WBNB)
           (fun _ pool => if pool === POOL_500 then Some (-63770) else Some (-63000))
           (fun _ _ => Some "Cake") (fun _ _ => Some "PancakeSwap Token")
           (fun _ _ => Some 18)
           (fun _ _ => HttpError).

(** A pool at fee 100 whose [slot0()] is rejected, a sound one at 500. *)
Definition broken_pool_market : Remote :=
  mkRemote (fun _ _ _ => None)
           (fun _ _ _ fee =>
              if fee =? 100 then Some POOL_2500
              else if fee =? 500 then Some POOL_500_RAW
              else Some ZeroAddress)
           (fun _ _ => Some USDT) (fun _ _ => Some WBNB)
           (fun _ pool => if pool === POOL_500 then Some (-63770) else None)
           (fun _ _ => Some "Cake") (fun _ _ => Some "PancakeSwap Token")
           (fun _ _ => Some 18)
           (fun _ _ => HttpError).

(** Pools registered under the fee values 5 and 25. *)
Definition small_fee_market : Remote :=
  mkRemote (fun _ _ _ => None)
           (fun _ _ _ fee =>
              if fee =? 5 then Some POOL_500
              else if fee =? 25 then Some POOL_2500
              else Some ZeroAddress)
           (fun _ _ => Some USDT) (fun _ _ => Some WBNB)
           (fun _ _ => Some (-63770))
           (fun _ _ => Some "Cake") (fun _ _ => Some "PancakeSwap Token")
           (fun _ _ => Some 18)
           (fun _ _ => HttpError).

(** Nothing on chain; the aggregator answers with status 200. *)
Definition aggregator_only : Remote :=
  mkRemote (fun _ _ _ => None) (fun _ _ _ _ => Some ZeroAddress)
           (fun _ _ => None) (fun _ _ => None) (fun _ _ => None)
           (fun _ _ => Some "Cake") (fun _ _ => Some "PancakeSwap Token")
           (fun _ _ => Some 18)
           (fun _ _ => HttpResponse 200 "(body)").

(** A token whose contract has no [decimals()]. *)
Definition no_decimals_market : Remote :=
  mkRemote (fun _ amountIn path =>
              match path with
              | [_; _] => Some [amountIn; 2 * amountIn]
              | _ => None
              end)
           (fun _ _ _ _ => None)
           (fun _ _ => None) (fun _ _ => None) (fun _ _ => None)
           (fun _ _ => Some "TKN") (fun _ _ => Some "Token")
           (fun _ _ => None)
           (fun _ _ => HttpError).

(** Two pair records: the one of greater liquidity lacks [quoteToken]. *)
Definition deep_pair : Pair :=
  mkPair (Some (mkLiquidity (Some (1000 # 1)%Q))) (Some "0.5") (Some "300")
         None (Some "pancakeswap").

Definition shallow_pair : Pair :=
  mkPair (Some (mkLiquidity (Some (10 # 1)%Q))) (Some "0.4") (Some "290")
         (Some (mkQuoteToken (Some "WBNB") (Some "Wrapped BNB")))
         (Some "biswap").

Definition answer_of (pairs : list Pair) : option Json :=
  Some (Some (mkBody (Some pairs))).

End Sample.

(* ================================================================== *)
(** * The drivers (lines 905-937)                                      *)
(* ================================================================== *)

(** [{ price, version }] *)
Record PriceSummary : Type := mkSummary {
  s_price : option string;
  s_version : option string
}.

(** [{ symbol, bnb, usdt }], the value of [checkPrices]. *)
Record PriceReport : Type := mkReport {
  r_symbol : string;
  r_bnb : PriceSummary;
  r_usdt : PriceSummary
}.

Section Drivers.

Variable rt : Runtime.
Variable net : Remote.

(** [checkPrices] (lines 910-926) *)
Definition checkPrices (tokenAddress : string) : M PriceReport :=
  info <- getTokenInfo net tokenAddress ;;
  bnbResult <- getTokenPrice rt net tokenAddress "bnb" true ;;
  usdtResult <- getTokenPrice rt net tokenAddress "usdt" true ;;
  ret (mkReport (t_symbol info)
                (mkSummary (q_price bnbResult) (q_version bnbResult))
                (mkSummary (q_price usdtResult) (q_version usdtResult))).

(** [runTests] (lines 929-935), called when the module loads. *)
Definition runTests : M unit :=
  _ <- checkPrices CAKE ;;
  _ <- checkPrices UGO ;;
  ret tt.

End Drivers.

(* ================================================================== *)
(** * The first program (lines 1-418)                                  *)
(* ================================================================== *)

(** [src/index.js] holds two programs.  The first one asks the V3 quoter
    contract for a quote where the second reads pool state, and its
    [getPriceDexScreener] logs the native price without reading
    [quoteToken]; [fetchAPI], [getTokenInfo] and [checkPathLiquidityV2]
    are the same text in both.  The two functions that differ are modelled
    here. *)
Module FirstProgram.

(** [quoterContract.quoteExactInputSingle(tokenIn, tokenOut, fee, amountIn,
    sqrtPriceLimitX96)] *)
Inductive QuoterCall : Type :=
| QuoteExactInputSingle (tokenIn tokenOut : string)
                        (fee amountIn sqrtPriceLimitX96 : Z).

(** The quoter's answer, which may depend on the quotes asked before;
    [None] is a rejected call. *)
Definition Quoter : Type :=
  list QuoterCall -> string -> string -> Z -> Z -> Z -> option Z.

Definition feeTiers : list Z := [100; 500; 2500; 10000].

Section Quoted.

Variable rt : Runtime.
Variable quoter : Quoter.

(** [for (const fee of feeTiers)] of [tryGetPriceV3] (lines 191-216).
    The whole turn stands in a [try] whose [catch] logs and continues, so
    a refusal of [parseUnits] and a rejected quote both move to the next
    fee; the first answered quote is returned, printed with 18
    decimals. *)
Fixpoint quoteFeeTiers (tokenIn tokenOut : string) (decimalsIn : Z)
  (fees : list Z) (h : list QuoterCall) : option string * list QuoterCall :=
  match fees with
  | [] => (None, h)
  | fee :: rest =>
      match parseUnits rt "1" decimalsIn with
      | None => quoteFeeTiers tokenIn tokenOut decimalsIn rest h
      | Some amountIn =>
          let sqrtPriceLimitX96 := 0 in
          let h' := h ++ [QuoteExactInputSingle tokenIn tokenOut fee amountIn
                                                sqrtPriceLimitX96] in
          match quoter h tokenIn tokenOut fee amountIn sqrtPriceLimitX96 with
          | Some amountOut => (Some (formatUnits rt amountOut 18), h')
          | None => quoteFeeTiers tokenIn tokenOut decimalsIn rest h'
          end
      end
  end.

Definition tryGetPriceV3 (tokenIn tokenOut : string) (decimalsIn : Z)
  (h : list QuoterCall) : option string * list QuoterCall :=
  quoteFeeTiers tokenIn tokenOut decimalsIn feeTiers h.

End Quoted.

Section Aggregator.

Variable rt : Runtime.
Variable net : Remote.

(** [getPriceDexScreener] of the first program (lines 99-137). *)
Definition getPriceDexScreener (tokenAddress sym mode : string)
  : M (option string) :=
  try_catch
    (formattedTokenAddress <- orThrow InvalidAddress (formatAddress tokenAddress) ;;
     let url := (DEXSCREENER_URL ++ formattedTokenAddress)%string in
     data <- fetchAPI rt net url ;;
     match data with
     | Some (mkBody (Some (first :: others))) =>
         let sortedPairs := Array_sort compareLiquidity (first :: others) in
         match sortedPairs with
         | [] => throw TypeError
         | bestPair :: _ =>
             if JS.toLowerCase mode === "bnb" then
               if truthy (priceNative bestPair) then ret (priceNative bestPair)
               else ret None
             else if JS.toLowerCase mode === "usdt" then
               if truthy (priceUsd bestPair) then ret (priceUsd bestPair)
               else ret None
             else ret None
         end
     | _ => ret None
     end)
    (fun _ => ret None).

End Aggregator.

End FirstProgram.

(* ================================================================== *)
(** * More words for the statements                                    *)
(* ================================================================== *)

(** The kinds of remote call. *)
Definition is_router_call (c : Call) : bool :=
  match c with RouterGetAmountsOut _ _ => true | _ => false end.

Definition is_v3_call (c : Call) : bool :=
  match c with
  | FactoryGetPool _ _ _ | PoolToken0 _ | PoolToken1 _ | PoolSlot0 _ => true
  | _ => false
  end.

Definition is_token_call (c : Call) : bool :=
  match c with
  | TokenSymbol _ | TokenName _ | TokenDecimals _ => true
  | _ => false
  end.

Definition is_http_call (c : Call) : bool :=
  match c with HttpsGet _ _ => true | _ => false end.

(** [Emits allowed n m]: a run of [m] appends at most [n] calls to the
    history, all of them [allowed]. *)
Definition Emits {A : Type} (allowed : Call -> bool) (n : nat) (m : M A) : Prop :=
  forall h, exists t,
    snd (m h) = h ++ t /\ forallb allowed t = true /\ (List.length t <= n)%nat.

(** The pair [sort] puts first: the earliest of those of greatest
    liquidity. *)
Definition deepest_first (pairs : list Pair) (bestPair : Pair) : Prop :=
  exists before after,
    pairs = before ++ bestPair :: after
    /\ (forall p, In p before -> (liquidityUsd p < liquidityUsd bestPair)%Q)
    /\ (forall p, In p after -> (liquidityUsd p <= liquidityUsd bestPair)%Q).

(** The label of the quote token in the reported path. *)
Definition quoteLabel (mode : string) : string :=
  if JS.toLowerCase mode === "usdt" then "USDT" else "WBNB".

(** A read of a contract, as against a request to the aggregator. *)
Definition on_chain (c : Call) : bool := negb (is_http_call c).

(** [ChainThen tails m]: a run of [m] appends on-chain reads and then
    nothing more, or one of [tails]. *)
Definition ChainThen {A : Type} (tails : History -> Prop) (m : M A) : Prop :=
  forall h, exists chain tail,
    snd (m h) = h ++ chain ++ tail
    /\ forallb on_chain chain = true
    /\ (tail = [] \/ tails tail).

(** The one request [getPriceDexScreener] sends for [tokenAddress]: the
    address has been normalised by [getTokenPrice] and is normalised again
    on the way. *)
Definition aggregator_request (tokenAddress : string) (tail : History) : Prop :=
  exists fa0 fa,
    formatAddress tokenAddress = Some fa0
    /\ formatAddress fa0 = Some fa
    /\ tail = [HttpsGet (DEXSCREENER_URL ++ fa)%string REQUEST_TIMEOUT_MS].

(** The quotes [tryGetPriceV3] of the first program asks for a run of
    fees. *)
Definition quotes (tokenIn tokenOut : string) (amountIn : Z) (fees : list Z)
  : list FirstProgram.QuoterCall :=
  map (fun fee => FirstProgram.QuoteExactInputSingle tokenIn tokenOut fee amountIn 0)
      fees.

(* ================================================================== *)
(** * More sample networks                                             *)
(* ================================================================== *)

Module Scenario.

(** A router that answers its first call and rejects every later one. *)
Definition flaky_router : Remote :=
  Sample.cake_metadata
    (mkRemote (fun h amountIn _ =>
                 if existsb is_router_call h then None
                 else Some [amountIn; 2 * amountIn])
              (fun _ _ _ _ => None)
              (fun _ _ => None) (fun _ _ => None) (fun _ _ => None)
              (fun _ _ => None) (fun _ _ => None) (fun _ _ => None)
              (fun _ _ => HttpError)).

(** No V2 liquidity and no direct V3 pool against USDT; V3 pools against
    WBNB, and for WBNB against USDT, at the fee 500. *)
Definition hop_market : Remote :=
  mkRemote (fun _ _ _ => None)
           (fun _ tokenA tokenB fee =>
              if (tokenA === Sample.CAKE_TOKEN) && (tokenB === USDT)
              then Some ZeroAddress
              else if fee =? 500 then Some Sample.POOL_500_RAW
              else Some ZeroAddress)
           (fun _ _ => Some USDT) (fun _ _ => Some WBNB)
           (fun _ _ => Some 0)
           (fun _ _ => Some "Cake") (fun _ _ => Some "PancakeSwap Token")
           (fun _ _ => Some 18)
           (fun _ _ => HttpError).

(** A pool at every fee tier of every pair; [slot0()] is rejected on all
    of them but the pool of the input token against WBNB at the last
    fee.  Nothing on V2, and the aggregator does not answer. *)
Definition busy_market : Remote :=
  mkRemote (fun _ _ _ => None)
           (fun _ tokenA tokenB fee =>
              if (tokenA === Sample.CAKE_TOKEN) && (tokenB === WBNB) && (fee =? 10000)
              then Some Sample.POOL_500
              else Some Sample.POOL_2500)
           (fun _ _ => Some USDT) (fun _ _ => Some WBNB)
           (fun _ pool => if pool === Sample.POOL_500 then Some 0 else None)
           (fun _ _ => Some "Cake") (fun _ _ => Some "PancakeSwap Token")
           (fun _ _ => Some 18)
           (fun _ _ => HttpError).

(** The aggregator's answer depends on nothing; the chain is silent but
    for the metadata. *)
Definition aggregator (status : Z) : Remote :=
  Sample.cake_metadata
    (mkRemote (fun _ _ _ => None) (fun _ _ _ _ => Some ZeroAddress)
              (fun _ _ => None) (fun _ _ => None) (fun _ _ => None)
              (fun _ _ => None) (fun _ _ => None) (fun _ _ => None)
              (fun _ _ => HttpResponse status "(body)")).

(** Three pair records, two of them of the same, greatest liquidity. *)
Definition pair_of (liq : Z) (native usdPrice : string) : Pair :=
  mkPair (Some (mkLiquidity (Some (inject_Z liq))))
         (Some native) (Some usdPrice)
         (Some (mkQuoteToken (Some "WBNB") (Some "Wrapped BNB")))
         (Some "pancakeswap").

Definition thin : Pair := pair_of 10 "0.1" "100".
Definition deep_early : Pair := pair_of 1000 "0.2" "200".
Definition deep_late : Pair := pair_of 1000 "0.3" "300".

(** A quoter that answers at the fee 2500 only. *)
Definition quoter_2500 : FirstProgram.Quoter :=
  fun _ _ _ fee amountIn _ =>
    if fee =? 2500 then Some (3 * amountIn) else None.

End Scenario.

(** A record with a price: none of its three fields is [null], and the
    version is one of [versions]. *)
Definition filled (versions : list string) (q : PriceQuote) : Prop :=
  exists price version path,
    q = mkQuote (Some price) (Some version) (Some path)
    /\ In version versions.

(** The versions a record can carry under [mode]. *)
Definition versions_of (mode : string) : list string :=
  if (JS.toLowerCase mode === "bnb") || (JS.toLowerCase mode === "usdt")
  then ["n/a"; "v2"; "v3"; "dexscreener"]
  else ["n/a"; "v2"; "v3"].

(** What [getTokenPrice] returns under [mode]. *)
Definition empty_or_filled (mode : string) (q : PriceQuote) : Prop :=
  q = Unresolved \/ filled (versions_of mode) q.

(** What [getPriceDexScreener] of the first program makes of the pair it
    picked. *)
Definition firstOutcome (mode : string) (bestPair : Pair) : option string :=
  if JS.toLowerCase mode === "bnb" then
    if truthy (priceNative bestPair) then priceNative bestPair else None
  else if JS.toLowerCase mode === "usdt" then
    if truthy (priceUsd bestPair) then priceUsd bestPair else None
  else None.

(** The reads of one pool. *)
Definition poolCalls (pool : string) : History :=
  [PoolToken0 pool; PoolToken1 pool; PoolSlot0 pool].
(* ================================================================== *)
(** * Address normalisation                                            *)
(* ================================================================== *)

Module AddressFacts.
Import JS Ethers.

Ltac by_cases_on_char c :=
  destruct c as [[] [] [] [] [] [] [] []]; reflexivity.

Lemma char_lower_upper (c : ascii) :
  char_toLowerCase (char_toUpperCase c) = char_toLowerCase c.
Proof. by_cases_on_char c. Qed.

Lemma char_lower_idem (c : ascii) :
  char_toLowerCase (char_toLowerCase c) = char_toLowerCase c.
Proof. by_cases_on_char c. Qed.

Lemma is_hex_upper (c : ascii) : is_hex (char_toUpperCase c) = is_hex c.
Proof. by_cases_on_char c. Qed.

Lemma is_hex_lower (c : ascii) : is_hex (char_toLowerCase c) = is_hex c.
Proof. by_cases_on_char c. Qed.

Lemma chars_join (cs : list ascii) : chars (join cs) = cs.
Proof. apply list_ascii_of_string_of_list_ascii. Qed.

Lemma join_chars (s : string) : join (chars s) = s.
Proof. apply string_of_list_ascii_of_string. Qed.

Lemma chars_toLowerCase (s : string) :
  chars (toLowerCase s) = map char_toLowerCase (chars s).
Proof. unfold toLowerCase. apply chars_join. Qed.

Lemma map_lower_idem (cs : list ascii) :
  map char_toLowerCase (map char_toLowerCase cs) = map char_toLowerCase cs.
Proof.
  rewrite map_map. apply map_ext. intro c. apply char_lower_idem.
Qed.

Lemma checksum_case_lower (hs : list Z) :
  forall cs, map char_toLowerCase (checksum_case hs cs) = map char_toLowerCase cs.
Proof.
  induction hs as [|h hs IH]; intros cs; [destruct cs; reflexivity|].
  destruct cs as [|c0 [|c1 cs]]; try reflexivity.
  cbn [checksum_case map]. rewrite IH.
  destruct (8 <=? Z.shiftr h 4), (8 <=? Z.land h 15);
    rewrite ?char_lower_upper; reflexivity.
Qed.

Lemma checksum_case_length (hs : list Z) :
  forall cs, List.length (checksum_case hs cs) = List.length cs.
Proof.
  induction hs as [|h hs IH]; intros cs; [destruct cs; reflexivity|].
  destruct cs as [|c0 [|c1 cs]]; try reflexivity.
  cbn [checksum_case List.length]. now rewrite IH.
Qed.

Lemma checksum_case_hex (hs : list Z) :
  forall cs, forallb is_hex (checksum_case hs cs) = forallb is_hex cs.
Proof.
  induction hs as [|h hs IH]; intros cs; [destruct cs; reflexivity|].
  destruct cs as [|c0 [|c1 cs]]; try reflexivity.
  cbn [checksum_case forallb]. rewrite IH.
  destruct (8 <=? Z.shiftr h 4), (8 <=? Z.land h 15);
    rewrite ?is_hex_upper; reflexivity.
Qed.

Lemma startsWith_0x (s : string) :
  startsWith "0x" s = true ->
  exists rest, s = String "0" (String "x" rest).
Proof.
  destruct s as [|a [|b rest]]; cbn [startsWith]; try discriminate.
  - rewrite andb_false_r. discriminate.
  - rewrite andb_true_r. intros H. apply andb_prop in H as [Ha Hb].
    apply Ascii.eqb_eq in Ha, Hb. subst. now exists rest.
Qed.

Lemma getChecksumAddress_0x (body : list ascii) :
  List.length body = 40%nat ->
  getChecksumAddress (String "0" (String "x" (join body))) = Some (canonical body).
Proof.
  intros Hlen. unfold getChecksumAddress, canonical.
  rewrite chars_toLowerCase. cbn [chars list_ascii_of_string map skipn].
  fold (chars (join body)). rewrite chars_join.
  rewrite length_map, Hlen. reflexivity.
Qed.

Lemma hex_body_spec (x : string) (body : list ascii) :
  hex_body x = Some body ->
  with0x x = String "0" (String "x" (join body))
  /\ List.length body = 40%nat /\ forallb is_hex body = true.
Proof.
  unfold hex_body, with0x.
  destruct (startsWith "0x" x) eqn:Hp.
  - destruct (startsWith_0x _ Hp) as [rest ->].
    cbn [chars list_ascii_of_string skipn].
    destruct (_ && _) eqn:Hc; [|discriminate].
    intros [= <-]. apply andb_prop in Hc as [Hl Hh].
    apply Nat.eqb_eq in Hl.
    rewrite string_of_list_ascii_of_string. auto.
  - destruct (_ && _) eqn:Hc; [|discriminate].
    intros [= <-]. apply andb_prop in Hc as [Hl Hh].
    apply Nat.eqb_eq in Hl. fold (chars x). rewrite join_chars. auto.
Qed.

Lemma forallb_map {A B} (f : A -> B) (p : B -> bool) (l : list A) :
  forallb p (map f l) = forallb (fun a => p (f a)) l.
Proof. induction l; cbn; congruence. Qed.

Lemma forallb_ext {A} (p q : A -> bool) (l : list A) :
  (forall a, p a = q a) -> forallb p l = forallb q l.
Proof. intros H. induction l; cbn; congruence. Qed.

Lemma canonical_lower (body : list ascii) :
  canonical (map char_toLowerCase body) = canonical body.
Proof. unfold canonical. now rewrite map_lower_idem. Qed.

Lemma canonical_fix (body : list ascii) :
  List.length body = 40%nat ->
  exists cc, canonical body = String "0" (String "x" (join cc))
             /\ List.length cc = 40%nat
             /\ forallb is_hex cc = forallb is_hex body
             /\ canonical cc = canonical body.
Proof.
  intros Hlen. unfold canonical at 1.
  set (hs := firstn 20 _).
  exists (checksum_case hs (map char_toLowerCase body)).
  split; [reflexivity|]. split; [|split].
  - now rewrite checksum_case_length, length_map.
  - rewrite checksum_case_hex, forallb_map.
    apply forallb_ext; intro c; apply is_hex_lower.
  - unfold canonical. now rewrite checksum_case_lower, map_lower_idem.
Qed.

Lemma getAddress_hex (x : string) (body : list ascii) :
  hex_body x = Some body ->
  getAddress x =
    if negb (mixed_case (with0x x)) || (canonical body === with0x x)
    then Some (canonical body) else None.
Proof.
  intros Hb. unfold getAddress, match_hex_address. rewrite Hb.
  destruct (hex_body_spec _ _ Hb) as (Hw & Hlen & _).
  rewrite Hw at 1. rewrite (getChecksumAddress_0x _ Hlen). reflexivity.
Qed.

Lemma hex_body_0x (cc : list ascii) :
  List.length cc = 40%nat -> forallb is_hex cc = true ->
  hex_body (String "0" (String "x" (join cc))) = Some cc.
Proof.
  intros Hl Hh. unfold hex_body.
  cbn [startsWith Ascii.eqb Bool.eqb andb chars list_ascii_of_string skipn].
  fold (chars (join cc)). rewrite chars_join, Hl, Hh. reflexivity.
Qed.

Lemma getAddress_canonical (body : list ascii) :
  List.length body = 40%nat -> forallb is_hex body = true ->
  getAddress (canonical body) = Some (canonical body).
Proof.
  intros Hl Hh.
  destruct (canonical_fix _ Hl) as (cc & Hc & Hlc & Hhc & Hcc).
  rewrite Hc at 1.
  rewrite (getAddress_hex _ _ (hex_body_0x _ Hlc (eq_trans Hhc Hh))).
  rewrite Hcc. unfold with0x. cbn [startsWith Ascii.eqb Bool.eqb andb].
  rewrite <- Hc, String.eqb_refl, orb_true_r. reflexivity.
Qed.

Lemma canonical_same (b b' : list ascii) :
  map char_toLowerCase b' = map char_toLowerCase b -> canonical b' = canonical b.
Proof. intros H. unfold canonical. now rewrite H. Qed.

Lemma char_lower_not_upper_hex (c : ascii) : is_upper_hex (char_toLowerCase c) = false.
Proof. by_cases_on_char c. Qed.

Lemma char_upper_not_lower_hex (c : ascii) : is_lower_hex (char_toUpperCase c) = false.
Proof. by_cases_on_char c. Qed.

Lemma existsb_map_false {A B} (f : A -> B) (p : B -> bool) (l : list A) :
  (forall a, p (f a) = false) -> existsb p (map f l) = false.
Proof. intros H. induction l; cbn; [reflexivity|]. now rewrite H, IHl. Qed.

Lemma getAddress_lower_spelling (body : list ascii) :
  List.length body = 40%nat -> forallb is_hex body = true ->
  getAddress (lower_spelling body) = Some (canonical body).
Proof.
  intros Hl Hh. unfold lower_spelling.
  assert (Hb : hex_body (String "0" (String "x" (join (map char_toLowerCase body))))
               = Some (map char_toLowerCase body)).
  { apply hex_body_0x; [now rewrite length_map|].
    rewrite forallb_map, <- Hh. apply forallb_ext, is_hex_lower. }
  rewrite (getAddress_hex _ _ Hb), canonical_lower.
  unfold with0x, mixed_case.
  cbn [startsWith Ascii.eqb Bool.eqb andb chars list_ascii_of_string existsb].
  fold (chars (join (map char_toLowerCase body))). rewrite chars_join.
  rewrite (existsb_map_false _ _ _ char_lower_not_upper_hex). reflexivity.
Qed.

Lemma getAddress_upper_spelling (body : list ascii) :
  List.length body = 40%nat -> forallb is_hex body = true ->
  getAddress (upper_spelling body) = Some (canonical body).
Proof.
  intros Hl Hh. unfold upper_spelling.
  assert (Hb : hex_body (String "0" (String "x" (join (map char_toUpperCase body))))
               = Some (map char_toUpperCase body)).
  { apply hex_body_0x; [now rewrite length_map|].
    rewrite forallb_map, <- Hh. apply forallb_ext, is_hex_upper. }
  rewrite (getAddress_hex _ _ Hb).
  assert (Hc : canonical (map char_toUpperCase body) = canonical body).
  { apply canonical_same. rewrite map_map. apply map_ext, char_lower_upper. }
  rewrite Hc.
  unfold with0x, mixed_case.
  cbn [startsWith Ascii.eqb Bool.eqb andb chars list_ascii_of_string existsb].
  fold (chars (join (map char_toUpperCase body))). rewrite chars_join.
  rewrite (existsb_map_false _ _ _ char_upper_not_lower_hex).
  cbn. rewrite andb_false_r. reflexivity.
Qed.

Lemma getAddress_not_hex_not_icap (x : string) :
  match_hex_address x = false -> match_icap x = false -> getAddress x = None.
Proof. intros H1 H2. unfold getAddress. now rewrite H1, H2. Qed.




(** The cases the library's documentation gives for [getAddress]: a
    lower-case address, the same with a wrong capital, and its ICAP form
    with its checksum digits and with others. *)
Example getAddress_documented_cases :
  map formatAddress
      [ "0x8ba1f109551bd432803012645ac136ddd64dba72";
        "0x8Ba1f109551bD432803012645Ac136ddd64DBA72";
        "XE65GB6LDNXYOFTX0NSV3FUWKOWIXAMJK36";
        "XE66GB6LDNXYOFTX0NSV3FUWKOWIXAMJK36" ]
  = [ Some "0x8ba1f109551bD432803012645Ac136ddd64DBA72";
      None;
      Some "0x8ba1f109551bD432803012645Ac136ddd64DBA72";
      None ].
Proof. vm_compute. reflexivity. Qed.

End AddressFacts.

(* ================================================================== *)
(** * The resolution                                                   *)
(* ================================================================== *)

Arguments formatAddress : simpl never.
Opaque formatAddress.

(** ** Running the monad *)

Lemma bind_ok {A B} (m : M A) (k : A -> M B) h a h' :
  m h = (inr a, h') -> bind m k h = k a h'.
Proof. intros H. unfold bind. now rewrite H. Qed.

Lemma try_catch_ok {A} (m : M A) handler h a h' :
  m h = (inr a, h') -> try_catch m handler h = (inr a, h').
Proof. intros H. unfold try_catch. now rewrite H. Qed.

(** A computation that never throws when its handler does not. *)
Lemma try_catch_total {A} (m : M A) (handler : exn -> M A) h :
  (forall e h0, exists a h1, handler e h0 = (inr a, h1)) ->
  exists a h1, try_catch m handler h = (inr a, h1).
Proof.
  intros Hh. unfold try_catch. destruct (m h) as [[e|a] h']; eauto.
Qed.

Lemma grows_ret {A} (a : A) : Grows (ret a).
Proof. intros h. exists []. cbn. now rewrite app_nil_r. Qed.

Lemma grows_throw {A} (e : exn) : Grows (@throw A e).
Proof. intros h. exists []. cbn. now rewrite app_nil_r. Qed.

Lemma grows_orThrow {A} (e : exn) (o : option A) : Grows (orThrow e o).
Proof. destruct o; [apply grows_ret|apply grows_throw]. Qed.

Lemma grows_bind {A B} (m : M A) (k : A -> M B) :
  Grows m -> (forall a, Grows (k a)) -> Grows (bind m k).
Proof.
  intros Hm Hk h. unfold bind. destruct (Hm h) as [t Ht].
  destruct (m h) as [[e|a] h1]; cbn in Ht; subst h1.
  - now exists t.
  - destruct (Hk a (h ++ t)) as [t' Ht']. exists (t ++ t').
    now rewrite Ht', app_assoc.
Qed.

Lemma grows_try_catch {A} (m : M A) (handler : exn -> M A) :
  Grows m -> (forall e, Grows (handler e)) -> Grows (try_catch m handler).
Proof.
  intros Hm Hk h. unfold try_catch. destruct (Hm h) as [t Ht].
  destruct (m h) as [[e|a] h1]; cbn in Ht; subst h1.
  - destruct (Hk e (h ++ t)) as [t' Ht']. exists (t ++ t').
    now rewrite Ht', app_assoc.
  - now exists t.
Qed.

Lemma grows_await {A} c (answer : History -> option A) : Grows (await c answer).
Proof. intros h. exists [c]. unfold await. now destruct (answer h). Qed.

Lemma grows_Promise_all3 {A B C} (a : M A) (b : M B) (c : M C) :
  Grows a -> Grows b -> Grows c -> Grows (Promise_all3 a b c).
Proof.
  intros Ha Hb Hc h. unfold Promise_all3.
  destruct (Ha h) as [ta Hta]. destruct (a h) as [ra h1]. cbn in Hta. subst h1.
  destruct (Hb (h ++ ta)) as [tb Htb]. destruct (b (h ++ ta)) as [rb h2].
  cbn in Htb. subst h2.
  destruct (Hc ((h ++ ta) ++ tb)) as [tc Htc].
  destruct (c ((h ++ ta) ++ tb)) as [rc h3]. cbn in Htc. subst h3.
  exists (ta ++ tb ++ tc).
  destruct ra, rb, rc; cbn; now rewrite !app_assoc.
Qed.

Lemma grows_mapM {A B} (f : A -> M B) (l : list A) :
  (forall a, Grows (f a)) -> Grows (mapM f l).
Proof.
  intros Hf. induction l as [|a rest IH]; cbn [mapM]; [apply grows_ret|].
  apply grows_bind; [apply Hf|]. intros b.
  apply grows_bind; [apply IH|]. intros bs. apply grows_ret.
Qed.

Ltac grows_step :=
  lazymatch goal with
  | |- Grows (ret _) => apply grows_ret
  | |- Grows (throw _) => apply grows_throw
  | |- Grows (orThrow _ _) => apply grows_orThrow
  | |- Grows (await _ _) => apply grows_await
  | |- Grows (bind _ _) => apply grows_bind; [|intros ?]
  | |- Grows (try_catch _ _) => apply grows_try_catch; [|intros ?]
  | |- Grows (Promise_all3 _ _ _) => apply grows_Promise_all3
  | |- Grows (mapM _ _) => apply grows_mapM; intros ?
  | |- Grows (match ?x with _ => _ end) => destruct x
  | |- Grows _ =>
      match goal with H : context [Grows _] |- _ => solve [apply H] end
  end.

Ltac grows := repeat grows_step.

Lemma Promise_all3_await {A B C} ca cb cc
  (fa : History -> option A) (fb : History -> option B) (fc : History -> option C) h :
  Promise_all3 (await ca fa) (await cb fb) (await cc fc) h
  = (match fa h, fb (h ++ [ca]), fc (h ++ [ca; cb]) with
     | Some x, Some y, Some z => inr (x, y, z)
     | _, _, _ => inl CallException
     end, h ++ [ca; cb; cc]).
Proof.
  unfold Promise_all3, await.
  replace (h ++ [ca; cb; cc]) with (((h ++ [ca]) ++ [cb]) ++ [cc])
    by now rewrite <- !app_assoc.
  replace (h ++ [ca; cb]) with ((h ++ [ca]) ++ [cb])
    by now rewrite <- !app_assoc.
  destruct (fa h), (fb (h ++ [ca])), (fc ((h ++ [ca]) ++ [cb])); reflexivity.
Qed.

(** ** Postconditions *)

Lemma post_ret {A} (a : A) (P : A -> Prop) : P a -> Post (ret a) P.
Proof. intros H h. exact H. Qed.

Lemma post_throw {A} (e : exn) (P : A -> Prop) : Post (throw e) P.
Proof. intros h. exact I. Qed.

Lemma post_orThrow {A} (e : exn) (o : option A) (P : A -> Prop) :
  (forall a, o = Some a -> P a) -> Post (orThrow e o) P.
Proof. intros H h. destruct o; cbn; auto. Qed.

Lemma post_bind {A B} (m : M A) (k : A -> M B) (Q : B -> Prop) :
  Post m (fun a => Post (k a) Q) -> Post (bind m k) Q.
Proof.
  intros H h. unfold bind. specialize (H h).
  destruct (m h) as [[e|a] h1]; cbn in *; [exact I|]. apply H.
Qed.

Lemma post_try_catch {A} (m : M A) (handler : exn -> M A) (Q : A -> Prop) :
  Post m Q -> (forall e, Post (handler e) Q) -> Post (try_catch m handler) Q.
Proof.
  intros Hm Hh h. unfold try_catch. specialize (Hm h).
  destruct (m h) as [[e|a] h1]; cbn in *; [apply Hh|exact Hm].
Qed.

Lemma post_await {A} c (answer : History -> option A) (P : A -> Prop) :
  (forall h a, answer h = Some a -> P a) -> Post (await c answer) P.
Proof.
  intros H h. unfold await. destruct (answer h) eqn:E; cbn; eauto.
Qed.

Lemma post_weaken {A} (m : M A) (P Q : A -> Prop) :
  Post m P -> (forall a, P a -> Q a) -> Post m Q.
Proof.
  intros H HPQ h. specialize (H h). destruct (fst (m h)); auto.
Qed.

(** A total computation with a postcondition returns a value that meets it. *)
Lemma post_total {A} (m : M A) (P : A -> Prop) h :
  Post m P -> (exists a h', m h = (inr a, h')) ->
  exists a h', m h = (inr a, h') /\ P a.
Proof.
  intros HP (a & h' & E). exists a, h'. split; [exact E|].
  specialize (HP h). now rewrite E in HP.
Qed.

Lemma try_catch_bind_ok {A B} (m : M A) (k : A -> M B) handler h a h1 :
  m h = (inr a, h1) ->
  try_catch (bind m k) handler h = try_catch (k a) handler h1.
Proof. intros H. unfold try_catch, bind. now rewrite H. Qed.

Lemma try_catch_bind_assoc {A B C} (m : M A) (f : A -> M B) (g : B -> M C)
  handler h :
  try_catch (bind (bind m f) g) handler h
  = try_catch (bind m (fun a => bind (f a) g)) handler h.
Proof.
  unfold try_catch, bind. destruct (m h) as [[e|a] h1]; reflexivity.
Qed.

Ltac post_step :=
  lazymatch goal with
  | |- Post (ret _) _ => apply post_ret
  | |- Post (throw _) _ => apply post_throw
  | |- Post (orThrow _ _) _ => apply post_orThrow; intros ? ?
  | |- Post (bind _ _) _ => apply post_bind
  | |- Post (try_catch _ _) _ => apply post_try_catch; [|intros ?]
  | |- Post (match ?x with _ => _ end) _ => destruct x
  end.

Section Facts.

Variable rt : Runtime.
Variable net : Remote.

Lemma getTokenPrice_total tokenAddress mode tryV3 h :
  exists q h', getTokenPrice rt net tokenAddress mode tryV3 h = (inr q, h').
Proof.
  unfold getTokenPrice. apply try_catch_total.
  intros e h0. now exists Unresolved, h0.
Qed.

(** The identity case: WBNB priced in WBNB, with no remote call. *)
Lemma getTokenPrice_identity tokenAddress mode tryV3 h :
  formatAddress tokenAddress = Some WBNB ->
  (JS.toLowerCase mode === "usdt") = false ->
  getTokenPrice rt net tokenAddress mode tryV3 h
  = (inr (mkQuote (Some "1") (Some "n/a") (Some ["WBNB"])), h).
Proof.
  intros Ha Hm. unfold getTokenPrice.
  rewrite (try_catch_bind_ok _ _ _ h WBNB h) by (now rewrite Ha).
  cbn [String.eqb Ascii.eqb Bool.eqb WBNB]. now rewrite Hm.
Qed.

(** C1 (amended).  [getTokenPrice] absorbs the failure of the address
    normalisation: on an input [ethers.getAddress] refuses it returns the
    record [{price: null, version: null, path: null}] and issues no remote
    call.  No failure at all escapes it: it returns a record on every
    input, and never throws [InvalidAddress]. *)
Theorem getTokenPrice_absorbs_invalid_address tokenAddress mode tryV3 h :
  formatAddress tokenAddress = None ->
  getTokenPrice rt net tokenAddress mode tryV3 h = (inr Unresolved, h)
  /\ (forall a m v h0, fst (getTokenPrice rt net a m v h0) <> inl InvalidAddress)
  /\ (forall a m v h0, exists q h1, getTokenPrice rt net a m v h0 = (inr q, h1)).
Proof.
  intros H. split; [|split].
  - unfold getTokenPrice, try_catch, bind, orThrow. rewrite H. reflexivity.
  - intros a m v h0. destruct (getTokenPrice_total a m v h0) as (q & h1 & E).
    rewrite E. discriminate.
  - intros. apply getTokenPrice_total.
Qed.

(** C4.  When the input normalises to the wrapped native token and the
    mode selects the native quote (its lower case is not ["usdt"]),
    [getTokenPrice] returns [("1", "n/a", ["WBNB"])] and the call history
    is unchanged: no remote call is issued. *)
Theorem native_in_native_is_identity tokenAddress mode tryV3 h :
  formatAddress tokenAddress = Some WBNB ->
  snd (selectQuote mode) = WBNB ->
  getTokenPrice rt net tokenAddress mode tryV3 h
  = (inr (mkQuote (Some "1") (Some "n/a") (Some ["WBNB"])), h).
Proof.
  intros Ha Hq. apply getTokenPrice_identity; [exact Ha|].
  unfold selectQuote in Hq.
  destruct (JS.toLowerCase mode === "usdt"); [discriminate Hq|reflexivity].
Qed.

(** ** The V2 probe *)

Lemma checkPathLiquidityV2_run path dec amountIn h :
  parseUnits rt "1" dec = Some amountIn ->
  checkPathLiquidityV2 rt net path dec h
  = (inr (match router_getAmountsOut net h amountIn path with
          | Some _ => true | None => false end),
     h ++ [RouterGetAmountsOut amountIn path]).
Proof.
  intros Hp.
  unfold checkPathLiquidityV2, try_catch, bind, orThrow, getAmountsOut, await.
  rewrite Hp. cbn. destruct (router_getAmountsOut net h amountIn path); reflexivity.
Qed.

Lemma probePathsV2_first_match fa sym dec amountIn paths :
  parseUnits rt "1" dec = Some amountIn ->
  forall h i path,
  nth_error paths i = Some path ->
  (forall j p, (j < i)%nat -> nth_error paths j = Some p ->
     router_getAmountsOut net (h ++ v2calls amountIn (firstn j paths)) amountIn p = None) ->
  router_getAmountsOut net (h ++ v2calls amountIn (firstn i paths)) amountIn path <> None ->
  probePathsV2 rt net fa sym dec paths h
  = bind (quotePathV2 rt net fa sym dec path) (fun quote => ret (Some quote))
         (h ++ v2calls amountIn (firstn (S i) paths)).
Proof.
  intros Hp. induction paths as [|p0 rest IH]; intros h i path Hnth Hbefore Hhere.
  - destruct i; discriminate.
  - cbn [probePathsV2].
    rewrite (bind_ok _ _ _ _ _ (checkPathLiquidityV2_run p0 dec amountIn h Hp)).
    destruct i as [|i].
    + cbn in Hnth. injection Hnth as ->.
      cbn [firstn v2calls map] in Hhere. rewrite app_nil_r in Hhere.
      destruct (router_getAmountsOut net h amountIn path); [|congruence].
      reflexivity.
    + cbn in Hnth.
      assert (H0 := Hbefore 0%nat p0 (Nat.lt_0_succ i) eq_refl).
      cbn [firstn v2calls map] in H0. rewrite app_nil_r in H0. rewrite H0.
      rewrite (IH (h ++ [RouterGetAmountsOut amountIn p0]) i path Hnth).
      * cbn [firstn v2calls map]. now rewrite <- app_assoc.
      * intros j p Hj Hn. rewrite <- app_assoc.
        apply (Hbefore (S j) p); [lia|exact Hn].
      * rewrite <- app_assoc. exact Hhere.
Qed.

Lemma quotePathV2_not_none fa sym dec path h h' :
  bind (quotePathV2 rt net fa sym dec path) (fun quote => ret (Some quote)) h
  <> (inr None, h').
Proof.
  unfold bind at 1. destruct (quotePathV2 rt net fa sym dec path h) as [[e|q] h1];
    discriminate.
Qed.

Lemma probePathsV2_not_found fa sym dec amountIn paths :
  parseUnits rt "1" dec = Some amountIn ->
  forall h h',
  probePathsV2 rt net fa sym dec paths h = (inr None, h')
  <-> ((forall j p, nth_error paths j = Some p ->
          router_getAmountsOut net (h ++ v2calls amountIn (firstn j paths)) amountIn p = None)
       /\ h' = h ++ v2calls amountIn paths).
Proof.
  intros Hp. induction paths as [|p0 rest IH]; intros h h'.
  - cbn. rewrite app_nil_r. split.
    + intros [= <-]. split; [|reflexivity]. intros [|j] p; discriminate.
    + intros [_ ->]. reflexivity.
  - cbn [probePathsV2].
    rewrite (bind_ok _ _ _ _ _ (checkPathLiquidityV2_run p0 dec amountIn h Hp)).
    destruct (router_getAmountsOut net h amountIn p0) as [amounts|] eqn:E0.
    + split.
      * intros H. now apply quotePathV2_not_none in H.
      * intros [Hall _]. specialize (Hall 0%nat p0 eq_refl).
        cbn [firstn v2calls map] in Hall. rewrite app_nil_r in Hall. congruence.
    + rewrite IH. cbn [v2calls map]. rewrite <- app_assoc. cbn [app].
      split; intros [Hall ->]; (split; [|reflexivity]).
      * intros [|j] p Hn.
        -- cbn in Hn. injection Hn as <-. cbn. now rewrite app_nil_r.
        -- cbn [firstn v2calls map]. specialize (Hall j p Hn).
           now rewrite <- app_assoc in Hall.
      * intros j p Hn. specialize (Hall (S j) p Hn).
        cbn [firstn v2calls map] in Hall. rewrite <- app_assoc. exact Hall.
Qed.

Lemma probePathsV2_no_scale fa sym dec paths h :
  parseUnits rt "1" dec = None ->
  probePathsV2 rt net fa sym dec paths h = (inr None, h).
Proof.
  intros Hp. induction paths as [|p0 rest IH]; [reflexivity|].
  cbn [probePathsV2]. unfold bind at 1.
  unfold checkPathLiquidityV2, try_catch, bind, orThrow. rewrite Hp. exact IH.
Qed.

Lemma pathSymbol_known fa sym addr :
  (addr === WBNB) || (addr === USDT) || (addr === BUSD) || (addr === USDC)
  || (addr === fa) = true ->
  pathSymbol net fa sym addr = ret (reportedSymbol sym addr).
Proof.
  unfold pathSymbol, reportedSymbol.
  destruct (addr === WBNB), (addr === USDT), (addr === BUSD), (addr === USDC),
    (addr === fa); cbn; intros H; try reflexivity; discriminate.
Qed.

Lemma pathSymbols_known fa sym path h :
  forallb (known_address fa) path = true ->
  mapM (pathSymbol net fa sym) path h
  = (inr (map (reportedSymbol sym) path), h).
Proof.
  revert h. induction path as [|a rest IH]; intros h Hk; [reflexivity|].
  cbn in Hk. apply andb_prop in Hk as [Ha Hr].
  cbn [mapM map]. rewrite (pathSymbol_known fa sym a Ha).
  unfold bind at 1. cbn [ret]. unfold bind at 1. now rewrite (IH h Hr).
Qed.

Lemma pathsV2_known fa mode path :
  In path (pathsV2 fa (snd (selectQuote mode))) ->
  forallb (known_address fa) path = true.
Proof.
  unfold pathsV2, selectQuote, known_address.
  destruct (JS.toLowerCase mode === "usdt"); cbn [snd In];
    intros [<-|[<-|[<-|[<-|[]]]]]; cbn [forallb];
    rewrite ?String.eqb_refl, ?orb_true_r; reflexivity.
Qed.

Lemma quotePathV2_run fa sym dec amountIn path h :
  parseUnits rt "1" dec = Some amountIn ->
  forallb (known_address fa) path = true ->
  bind (quotePathV2 rt net fa sym dec path) (fun quote => ret (Some quote)) h
  = v2Outcome rt sym path (router_getAmountsOut net h amountIn path)
              (h ++ [RouterGetAmountsOut amountIn path]).
Proof.
  intros Hp Hk. unfold quotePathV2, v2Outcome, bind, orThrow, getAmountsOut, await.
  rewrite Hp. cbn [ret].
  destruct (router_getAmountsOut net h amountIn path) as [amounts|]; [|reflexivity].
  destruct (nth_error amounts (List.length path - 1)) as [amount|]; [|reflexivity].
  cbn [ret]. rewrite (pathSymbols_known fa sym path _ Hk). reflexivity.
Qed.

Lemma resolveWithInfo_v2 fa mode tryV3 info h quote h' :
  probePathsV2 rt net fa (t_symbol info) (t_decimals info)
               (pathsV2 fa (snd (selectQuote mode))) h = (inr (Some quote), h') ->
  resolveWithInfo rt net fa mode tryV3 info h = (inr quote, h').
Proof. intros H. unfold resolveWithInfo. now rewrite (bind_ok _ _ _ _ _ H). Qed.


(** ** The V3 probe *)

Lemma readPoolPrice_run fin pool h t0 t1 tick :
  pool_token0 net h pool = Some t0 ->
  pool_token1 net (h ++ [PoolToken0 pool]) pool = Some t1 ->
  pool_slot0_tick net (h ++ [PoolToken0 pool; PoolToken1 pool]) pool = Some tick ->
  readPoolPrice rt net fin pool h
  = (inr (Number_toString rt (priceFromTick rt tick (fin === t1))),
     h ++ [PoolToken0 pool; PoolToken1 pool; PoolSlot0 pool]).
Proof.
  intros H0 H1 H2.
  unfold readPoolPrice, bind, token0, token1, slot0.
  rewrite Promise_all3_await, H0, H1, H2. reflexivity.
Qed.

Lemma probeFeeTier_total fin fout fee h :
  exists r h', probeFeeTier rt net fin fout fee h = (inr r, h').
Proof.
  unfold probeFeeTier. apply try_catch_total.
  intros e h0. now exists None, h0.
Qed.

Lemma probeFeeTiers_total fin fout fees :
  forall h, exists r h', probeFeeTiers rt net fin fout fees h = (inr r, h').
Proof.
  induction fees as [|fee rest IH]; intros h; cbn [probeFeeTiers].
  - now exists None, h.
  - destruct (probeFeeTier_total fin fout fee h) as (r & h' & E).
    rewrite (bind_ok _ _ _ _ _ E). destruct r as [price|]; [|apply IH].
    now exists (Some price), h'.
Qed.

Lemma probeFeeTier_none fin fout fee h :
  factory_getPool net h fin fout fee = Some ZeroAddress
  \/ factory_getPool net h fin fout fee = None ->
  probeFeeTier rt net fin fout fee h
  = (inr None, h ++ [FactoryGetPool fin fout fee]).
Proof.
  intros [H|H]; unfold probeFeeTier, try_catch, bind, getPool, await;
    rewrite H; reflexivity.
Qed.

Lemma probeFeeTier_pool fin fout fee h poolAddress pool t0 t1 tick :
  factory_getPool net h fin fout fee = Some poolAddress ->
  poolAddress <> ZeroAddress ->
  formatAddress poolAddress = Some pool ->
  let h1 := h ++ [FactoryGetPool fin fout fee] in
  pool_token0 net h1 pool = Some t0 ->
  pool_token1 net (h1 ++ [PoolToken0 pool]) pool = Some t1 ->
  pool_slot0_tick net (h1 ++ [PoolToken0 pool; PoolToken1 pool]) pool = Some tick ->
  probeFeeTier rt net fin fout fee h
  = (inr (Some (Number_toString rt (priceFromTick rt tick (fin === t1)))),
     h1 ++ [PoolToken0 pool; PoolToken1 pool; PoolSlot0 pool]).
Proof.
  intros Hg Hz Hf h1 H0 H1 H2.
  unfold probeFeeTier, try_catch.
  unfold bind at 1. unfold getPool, await. rewrite Hg. fold h1.
  apply String.eqb_neq in Hz. rewrite Hz.
  unfold bind at 1. rewrite Hf. cbn [orThrow ret].
  now rewrite (bind_ok _ _ _ _ _ (readPoolPrice_run fin pool h1 t0 t1 tick H0 H1 H2)).
Qed.

Lemma getKnownPoolAddress_none tokenA tokenB h :
  formatAddress tokenA = Some tokenA -> formatAddress tokenB = Some tokenB ->
  getKnownPoolAddress tokenA tokenB h = (inr None, h).
Proof.
  intros Ha Hb. unfold getKnownPoolAddress, bind, orThrow. rewrite Ha, Hb.
  cbn [ret]. destruct (_ || _); reflexivity.
Qed.

Lemma tryGetPriceV3_canonical tokenIn tokenOut h :
  formatAddress tokenIn = Some tokenIn -> formatAddress tokenOut = Some tokenOut ->
  tryGetPriceV3 rt net tokenIn tokenOut h
  = probeFeeTiers rt net tokenIn tokenOut feeTiers h.
Proof.
  intros Hi Ho. unfold tryGetPriceV3, try_catch.
  unfold bind at 1. rewrite Hi. cbn [orThrow ret].
  unfold bind at 1. rewrite Ho. cbn [orThrow ret].
  rewrite (bind_ok _ _ _ _ _ (getKnownPoolAddress_none tokenIn tokenOut h Hi Ho)).
  unfold bind at 1. cbn [ret].
  destruct (probeFeeTiers_total tokenIn tokenOut feeTiers h) as (r & h' & E).
  now rewrite E.
Qed.

Lemma probeFeeTiers_zero fin fout fee rest h :
  factory_getPool net h fin fout fee = Some ZeroAddress ->
  probeFeeTiers rt net fin fout (fee :: rest) h
  = probeFeeTiers rt net fin fout rest (h ++ [FactoryGetPool fin fout fee]).
Proof.
  intros Hz. cbn [probeFeeTiers].
  now rewrite (bind_ok _ _ _ _ _ (probeFeeTier_none fin fout fee h (or_introl Hz))).
Qed.

Lemma probeFeeTiers_pool fin fout fee rest h poolAddress pool t0 t1 tick :
  factory_getPool net h fin fout fee = Some poolAddress ->
  poolAddress <> ZeroAddress ->
  formatAddress poolAddress = Some pool ->
  let h1 := h ++ [FactoryGetPool fin fout fee] in
  pool_token0 net h1 pool = Some t0 ->
  pool_token1 net (h1 ++ [PoolToken0 pool]) pool = Some t1 ->
  pool_slot0_tick net (h1 ++ [PoolToken0 pool; PoolToken1 pool]) pool = Some tick ->
  probeFeeTiers rt net fin fout (fee :: rest) h
  = (inr (Some (Number_toString rt (priceFromTick rt tick (fin === t1)))),
     h1 ++ [PoolToken0 pool; PoolToken1 pool; PoolSlot0 pool]).
Proof.
  intros Hg Hz Hf h1 H0 H1 H2. cbn [probeFeeTiers].
  now rewrite (bind_ok _ _ _ _ _
                 (probeFeeTier_pool fin fout fee h poolAddress pool
                    t0 t1 tick Hg Hz Hf H0 H1 H2)).
Qed.


(** ** Every function of the program only appends to the history *)

Lemma grows_fetchAPI url : Grows (fetchAPI rt net url).
Proof.
  intros h. exists [HttpsGet url REQUEST_TIMEOUT_MS]. unfold fetchAPI.
  destruct (https_get net h url) as [| |status body]; try reflexivity.
  destruct (negb (status =? 200)); [reflexivity|].
  destruct (JSON_parse rt body); reflexivity.
Qed.

Lemma grows_getTokenInfo a : Grows (getTokenInfo net a).
Proof. unfold getTokenInfo, symbol, name, decimals. grows. Qed.

Lemma grows_readPoolPrice fin pool : Grows (readPoolPrice rt net fin pool).
Proof. unfold readPoolPrice, token0, token1, slot0. grows. Qed.

Lemma grows_probeFeeTier fin fout fee : Grows (probeFeeTier rt net fin fout fee).
Proof.
  pose proof grows_readPoolPrice.
  unfold probeFeeTier, getPool. grows.
Qed.

Lemma grows_probeFeeTiers fin fout fees : Grows (probeFeeTiers rt net fin fout fees).
Proof.
  pose proof grows_probeFeeTier.
  induction fees as [|fee rest IH]; cbn [probeFeeTiers]; grows.
Qed.

Lemma grows_tryGetPriceV3 a b : Grows (tryGetPriceV3 rt net a b).
Proof.
  pose proof grows_readPoolPrice. pose proof grows_probeFeeTiers.
  unfold tryGetPriceV3, getKnownPoolAddress. grows.
Qed.

Lemma grows_getPriceDexScreener a sym mode : Grows (getPriceDexScreener rt net a sym mode).
Proof.
  pose proof grows_fetchAPI.
  unfold getPriceDexScreener. grows.
Qed.

Lemma grows_checkPathLiquidityV2 path dec : Grows (checkPathLiquidityV2 rt net path dec).
Proof. unfold checkPathLiquidityV2, getAmountsOut. grows. Qed.

Lemma grows_pathSymbol fa sym addr : Grows (pathSymbol net fa sym addr).
Proof. pose proof grows_getTokenInfo. unfold pathSymbol. grows. Qed.

Lemma grows_quotePathV2 fa sym dec path : Grows (quotePathV2 rt net fa sym dec path).
Proof.
  pose proof grows_pathSymbol. unfold quotePathV2, getAmountsOut. grows.
Qed.

Lemma grows_probePathsV2 fa sym dec paths : Grows (probePathsV2 rt net fa sym dec paths).
Proof.
  pose proof grows_checkPathLiquidityV2. pose proof grows_quotePathV2.
  induction paths as [|p rest IH]; cbn [probePathsV2]; grows.
Qed.

Lemma grows_stageV3 fa sym mode tryV3 : Grows (stageV3 rt net fa sym mode tryV3).
Proof.
  pose proof grows_tryGetPriceV3. unfold stageV3, resolvePriceV3. grows.
Qed.

Lemma grows_stageDexScreener fa sym mode : Grows (stageDexScreener rt net fa sym mode).
Proof. pose proof grows_getPriceDexScreener. unfold stageDexScreener. grows. Qed.

(** ** The general case of [getTokenPrice] *)

Lemma getTokenPrice_general tokenAddress fa mode tryV3 h :
  formatAddress tokenAddress = Some fa ->
  (fa === WBNB) = false ->
  (fa === USDT) && (JS.toLowerCase mode === "bnb") = false ->
  getTokenPrice rt net tokenAddress mode tryV3 h
  = try_catch (resolveToken rt net fa mode tryV3) (fun _ => ret Unresolved) h.
Proof.
  intros Ha Hw Hu. unfold getTokenPrice.
  rewrite (try_catch_bind_ok _ _ _ h fa h) by (now rewrite Ha).
  now rewrite Hw, Hu.
Qed.

(** ** Metadata *)

Lemma getTokenInfo_degrades tokenAddress fa h :
  formatAddress tokenAddress = Some fa ->
  erc20_symbol net h fa = None
  \/ erc20_name net (h ++ [TokenSymbol fa]) fa = None
  \/ erc20_decimals net (h ++ [TokenSymbol fa; TokenName fa]) fa = None ->
  getTokenInfo net tokenAddress h = (inr UNKNOWN_TOKEN, h ++ metadataCalls fa).
Proof.
  intros Ha Hfail.
  unfold getTokenInfo, try_catch. unfold bind at 1. rewrite Ha. cbn [orThrow ret].
  unfold bind, symbol, name, decimals. rewrite Promise_all3_await.
  unfold metadataCalls.
  destruct (erc20_symbol net h fa) as [s|];
    destruct (erc20_name net (h ++ [TokenSymbol fa]) fa) as [n|];
    destruct (erc20_decimals net (h ++ [TokenSymbol fa; TokenName fa]) fa) as [d|];
    try reflexivity.
  destruct Hfail as [H|[H|H]]; discriminate.
Qed.

(** C7.  If one of the reads [symbol()], [name()], [decimals()] is
    rejected, [getTokenInfo] returns exactly
    [{symbol: "UNKNOWN", name: "Unknown Token", decimals: 18}] and throws
    nothing; [getTokenPrice] then goes on and returns a record, and the
    call it issues next is the router quote of the direct pair for
    [parseUnits("1", 18)]. *)
Theorem metadata_failure_degrades tokenAddress fa mode tryV3 amountIn h :
  formatAddress tokenAddress = Some fa ->
  formatAddress fa = Some fa ->
  erc20_symbol net h fa = None
  \/ erc20_name net (h ++ [TokenSymbol fa]) fa = None
  \/ erc20_decimals net (h ++ [TokenSymbol fa; TokenName fa]) fa = None ->
  parseUnits rt "1" 18 = Some amountIn ->
  getTokenInfo net tokenAddress h
  = (inr (mkInfo "UNKNOWN" "Unknown Token" 18), h ++ metadataCalls fa)
  /\ ((fa === WBNB) = false ->
      (fa === USDT) && (JS.toLowerCase mode === "bnb") = false ->
      exists quote rest,
        getTokenPrice rt net tokenAddress mode tryV3 h
        = (inr quote,
           h ++ metadataCalls fa
             ++ RouterGetAmountsOut amountIn [fa; snd (selectQuote mode)] :: rest)).
Proof.
  intros Ha Hfa Hfail Hp. split; [now apply getTokenInfo_degrades|].
  intros Hw Hu.
  rewrite (getTokenPrice_general tokenAddress fa mode tryV3 h Ha Hw Hu).
  unfold resolveToken.
  rewrite (try_catch_bind_ok _ _ _ _ _ _ (getTokenInfo_degrades fa fa h Hfa Hfail)).
  unfold resolveWithInfo, pathsV2. cbn [t_symbol t_decimals UNKNOWN_TOKEN probePathsV2].
  rewrite try_catch_bind_assoc.
  rewrite (try_catch_bind_ok _ _ _ _ _ _
             (checkPathLiquidityV2_run _ 18 amountIn _ Hp)).
  match goal with
  | |- exists quote rest, try_catch ?m ?handler ?h0 = _ =>
      assert (Hg : Grows (try_catch m handler))
        by (pose proof grows_quotePathV2; pose proof grows_probePathsV2;
            pose proof grows_stageV3; pose proof grows_stageDexScreener;
            pose proof grows_checkPathLiquidityV2;
            grows);
      destruct (Hg h0) as [t Ht];
      destruct (try_catch_total m handler h0) as (q & h1 & E);
        [intros e h2; now exists Unresolved, h2|]
  end.
  rewrite E in Ht |- *. cbn in Ht. subst h1.
  exists q, t. now rewrite <- !app_assoc.
Qed.

(** ** Tick to price *)


(** ** The quote selector *)


(** ** [Array.prototype.sort] with the liquidity comparator *)

Lemma compareLiquidity_le a b :
  Qle_bool (compareLiquidity a b) 0 = true <-> byLiquidity a b.
Proof.
  unfold compareLiquidity, byLiquidity. rewrite Qle_bool_iff.
  split; intros H.
  - apply Qle_minus_iff in H. apply Qle_minus_iff.
    setoid_replace (liquidityUsd a + - liquidityUsd b)%Q
      with (0 + - (liquidityUsd b - liquidityUsd a))%Q by ring. exact H.
  - apply Qle_minus_iff. apply Qle_minus_iff in H.
    setoid_replace (0 + - (liquidityUsd b - liquidityUsd a))%Q
      with (liquidityUsd a + - liquidityUsd b)%Q by ring. exact H.
Qed.

Lemma sort_insert_perm a l :
  Permutation (a :: l) (sort_insert compareLiquidity a l).
Proof.
  induction l as [|b rest IH]; cbn [sort_insert]; [reflexivity|].
  destruct (Qle_bool (compareLiquidity a b) 0); [reflexivity|].
  rewrite perm_swap. now apply perm_skip.
Qed.

Lemma Array_sort_perm l : Permutation l (Array_sort compareLiquidity l).
Proof.
  induction l as [|a rest IH]; cbn; [reflexivity|].
  rewrite <- sort_insert_perm. now apply perm_skip.
Qed.

Lemma byLiquidity_trans a b c : byLiquidity a b -> byLiquidity b c -> byLiquidity a c.
Proof. unfold byLiquidity. intros H1 H2. now apply Qle_trans with (liquidityUsd b). Qed.

Lemma sort_insert_sorted a l :
  StronglySorted byLiquidity l ->
  StronglySorted byLiquidity (sort_insert compareLiquidity a l).
Proof.
  induction l as [|b rest IH]; intros Hs; cbn [sort_insert].
  - constructor; constructor.
  - destruct (Qle_bool (compareLiquidity a b) 0) eqn:E.
    + apply compareLiquidity_le in E. constructor; [exact Hs|].
      constructor; [exact E|].
      apply StronglySorted_inv in Hs as [_ Hall].
      eapply Forall_impl; [|exact Hall]. intros c Hc.
      now apply byLiquidity_trans with b.
    + assert (Hba : byLiquidity b a).
      { unfold byLiquidity. destruct (Qlt_le_dec (liquidityUsd a) (liquidityUsd b)) as [Hlt|Hle].
        - now apply Qlt_le_weak.
        - apply compareLiquidity_le in Hle. congruence. }
      apply StronglySorted_inv in Hs as [Hs Hall].
      constructor; [now apply IH|].
      apply (Permutation_Forall (sort_insert_perm a rest)).
      now constructor.
Qed.

Lemma Array_sort_sorted l : StronglySorted byLiquidity (Array_sort compareLiquidity l).
Proof.
  induction l as [|a rest IH]; cbn; [constructor|]. now apply sort_insert_sorted.
Qed.

(** The record the program takes: first of the sorted array, of greatest
    liquidity among all. *)
Lemma Array_sort_best first others :
  exists bestPair rest,
    Array_sort compareLiquidity (first :: others) = bestPair :: rest
    /\ In bestPair (first :: others)
    /\ (forall p, In p (first :: others) -> (liquidityUsd p <= liquidityUsd bestPair)%Q).
Proof.
  pose proof (Array_sort_perm (first :: others)) as Hperm.
  pose proof (Array_sort_sorted (first :: others)) as Hsorted.
  destruct (Array_sort compareLiquidity (first :: others)) as [|bestPair rest].
  - apply Permutation_sym, Permutation_nil in Hperm. discriminate.
  - exists bestPair, rest. split; [reflexivity|]. split.
    + apply (Permutation_in _ (Permutation_sym Hperm)). now left.
    + intros p Hp. apply (Permutation_in _ Hperm) in Hp.
      apply StronglySorted_inv in Hsorted as [_ Hall].
      destruct Hp as [<-|Hp]; [apply Qle_refl|].
      rewrite Forall_forall in Hall. now apply Hall.
Qed.

(** ** The aggregator *)

Lemma fetchAPI_ok url h body data :
  https_get net h url = HttpResponse 200 body ->
  JSON_parse rt body = Some data ->
  fetchAPI rt net url h = (inr data, h ++ [HttpsGet url REQUEST_TIMEOUT_MS]).
Proof. intros Hg Hp. unfold fetchAPI. rewrite Hg. cbn. now rewrite Hp. Qed.

(** The four rejections of [fetchAPI]: a network error, the 5000 ms
    timeout, a status other than 200, a body that does not parse. *)
Lemma fetchAPI_rejects url h :
  https_get net h url = HttpError
  \/ https_get net h url = HttpTimeout
  \/ (exists status body,
        https_get net h url = HttpResponse status body
        /\ (status <> 200 \/ JSON_parse rt body = None)) ->
  fetchAPI rt net url h = (inl RequestFailed, h ++ [HttpsGet url REQUEST_TIMEOUT_MS]).
Proof.
  unfold fetchAPI. intros [H|[H|(status & body & H & Hbad)]]; rewrite H;
    try reflexivity.
  destruct (Z.eqb_spec status 200) as [->|Hne]; cbn [negb].
  - destruct Hbad as [Hs|Hp]; [congruence|now rewrite Hp].
  - reflexivity.
Qed.

Lemma getPriceDexScreener_not_found tokenAddress fa sym mode h :
  formatAddress tokenAddress = Some fa ->
  let url := (DEXSCREENER_URL ++ fa)%string in
  https_get net h url = HttpError
  \/ https_get net h url = HttpTimeout
  \/ (exists status body,
        https_get net h url = HttpResponse status body
        /\ (status <> 200 \/ JSON_parse rt body = None
            \/ JSON_parse rt body = Some None
            \/ JSON_parse rt body = Some (Some (mkBody None))
            \/ JSON_parse rt body = Some (Some (mkBody (Some []))))) ->
  getPriceDexScreener rt net tokenAddress sym mode h
  = (inr None, h ++ [HttpsGet url REQUEST_TIMEOUT_MS]).
Proof.
  intros Ha url Hcases. unfold getPriceDexScreener.
  rewrite (try_catch_bind_ok _ _ _ h fa h) by (now rewrite Ha). fold url.
  assert (Hrej : fetchAPI rt net url h
                 = (inl RequestFailed, h ++ [HttpsGet url REQUEST_TIMEOUT_MS]) ->
                 forall k,
                   try_catch (bind (fetchAPI rt net url) k)
                             (fun _ => ret (@None string)) h
                   = (inr None, h ++ [HttpsGet url REQUEST_TIMEOUT_MS])).
  { intros Hr k. unfold try_catch, bind. now rewrite Hr. }
  destruct Hcases as [H|[H|(status & body & H & Hbad)]].
  - apply Hrej, fetchAPI_rejects. now left.
  - apply Hrej, fetchAPI_rejects. right. now left.
  - destruct Hbad as [Hs|[Hp|Hp]].
    + apply Hrej, fetchAPI_rejects. right. right. exists status, body. auto.
    + apply Hrej, fetchAPI_rejects. right. right. exists status, body. auto.
    + destruct (Z.eqb_spec status 200) as [->|Hne].
      * destruct Hp as [Hp|[Hp|Hp]];
          rewrite (try_catch_bind_ok _ _ _ _ _ _ (fetchAPI_ok url h body _ H Hp));
          reflexivity.
      * apply Hrej, fetchAPI_rejects. right. right. exists status, body. auto.
Qed.

(** On a non-empty answer the pair picked is the first of the sorted
    array, of greatest liquidity among all, and the result is read off
    that pair alone. *)
Lemma getPriceDexScreener_selects tokenAddress fa sym mode h body first others :
  formatAddress tokenAddress = Some fa ->
  let url := (DEXSCREENER_URL ++ fa)%string in
  https_get net h url = HttpResponse 200 body ->
  JSON_parse rt body = Some (Some (mkBody (Some (first :: others)))) ->
  exists bestPair rest,
    Array_sort compareLiquidity (first :: others) = bestPair :: rest
    /\ In bestPair (first :: others)
    /\ (forall p, In p (first :: others) ->
          (liquidityUsd p <= liquidityUsd bestPair)%Q)
    /\ getPriceDexScreener rt net tokenAddress sym mode h
       = (inr (dexOutcome mode bestPair), h ++ [HttpsGet url REQUEST_TIMEOUT_MS]).
Proof.
  intros Ha url Hg Hp.
  destruct (Array_sort_best first others) as (bestPair & rest & Hs & Hin & Hmax).
  exists bestPair, rest. repeat (split; [assumption|]).
  unfold getPriceDexScreener.
  rewrite (try_catch_bind_ok _ _ _ h fa h) by (now rewrite Ha). fold url.
  rewrite (try_catch_bind_ok _ _ _ _ _ _ (fetchAPI_ok url h body _ Hg Hp)).
  rewrite Hs. unfold dexOutcome, try_catch.
  destruct (JS.toLowerCase mode === "bnb").
  - destruct (truthy (priceNative bestPair)); [|reflexivity].
    destruct (quoteToken bestPair); reflexivity.
  - destruct (JS.toLowerCase mode === "usdt"); [|reflexivity].
    destruct (truthy (priceUsd bestPair)); reflexivity.
Qed.

(** C9, where the code departs from it.  When the pair of greatest
    liquidity carries a native price and no [quoteToken], the native mode
    returns [null]: the log line written before the [return] reads
    [bestPair.quoteToken.symbol], the [TypeError] lands in the [catch], and
    the price is lost. *)
Theorem dexscreener_native_price_needs_quoteToken
  tokenAddress fa sym mode h body first others bestPair rest :
  formatAddress tokenAddress = Some fa ->
  let url := (DEXSCREENER_URL ++ fa)%string in
  https_get net h url = HttpResponse 200 body ->
  JSON_parse rt body = Some (Some (mkBody (Some (first :: others)))) ->
  Array_sort compareLiquidity (first :: others) = bestPair :: rest ->
  (JS.toLowerCase mode === "bnb") = true ->
  truthy (priceNative bestPair) = true ->
  quoteToken bestPair = None ->
  getPriceDexScreener rt net tokenAddress sym mode h
  = (inr None, h ++ [HttpsGet url REQUEST_TIMEOUT_MS]).
Proof.
  intros Ha url Hg Hp Hs Hm Hn Hq.
  destruct (getPriceDexScreener_selects tokenAddress fa sym mode h body
              first others Ha Hg Hp) as (best' & rest' & Hs' & _ & _ & E).
  rewrite Hs in Hs'. injection Hs' as <- <-.
  rewrite E. unfold dexOutcome. now rewrite Hm, Hn, Hq.
Qed.

(** ** When nothing answers *)

Section Exhausted.

Hypothesis no_v2_liquidity :
  forall h amountIn path, router_getAmountsOut net h amountIn path = None.

Hypothesis no_v3_pool :
  forall h tokenA tokenB fee,
    factory_getPool net h tokenA tokenB fee = Some ZeroAddress
    \/ factory_getPool net h tokenA tokenB fee = None.

Hypothesis aggregator_empty :
  forall h url, exists body,
    https_get net h url = HttpResponse 200 body
    /\ JSON_parse rt body = Some (Some (mkBody (Some []))).

Lemma post_getAmountsOut amountIn path (P : list Z -> Prop) :
  Post (getAmountsOut net amountIn path) P.
Proof.
  apply post_await. intros h a E. rewrite no_v2_liquidity in E. discriminate.
Qed.

Lemma post_checkPathLiquidityV2 path dec :
  Post (checkPathLiquidityV2 rt net path dec) (fun b => b = false).
Proof.
  unfold checkPathLiquidityV2. repeat post_step; [|reflexivity].
  eapply post_weaken; [apply post_getAmountsOut with (P := fun _ => False)|].
  intros ? [].
Qed.

Lemma post_probePathsV2 fa sym dec paths :
  Post (probePathsV2 rt net fa sym dec paths) (fun r => r = None).
Proof.
  induction paths as [|p rest IH]; cbn [probePathsV2]; [now apply post_ret|].
  apply post_bind. eapply post_weaken; [apply post_checkPathLiquidityV2|].
  intros b ->. exact IH.
Qed.

Lemma post_probeFeeTier fin fout fee :
  Post (probeFeeTier rt net fin fout fee) (fun r => r = None).
Proof.
  unfold probeFeeTier. apply post_try_catch; [|intros e; now apply post_ret].
  apply post_bind. unfold getPool. apply post_await. intros h pool E.
  destruct (no_v3_pool h fin fout fee) as [H|H]; rewrite H in E; [|discriminate].
  injection E as <-. cbn. now apply post_ret.
Qed.

Lemma post_probeFeeTiers fin fout fees :
  Post (probeFeeTiers rt net fin fout fees) (fun r => r = None).
Proof.
  induction fees as [|fee rest IH]; cbn [probeFeeTiers]; [now apply post_ret|].
  apply post_bind. eapply post_weaken; [apply post_probeFeeTier|].
  intros r ->. exact IH.
Qed.

Lemma post_getKnownPoolAddress a b :
  Post (getKnownPoolAddress a b) (fun r => r = None).
Proof. unfold getKnownPoolAddress. repeat post_step; reflexivity. Qed.

Lemma post_tryGetPriceV3 a b :
  Post (tryGetPriceV3 rt net a b) (fun r => r = None).
Proof.
  unfold tryGetPriceV3. apply post_try_catch; [|intros e; now apply post_ret].
  do 2 (apply post_bind; apply post_orThrow; intros ? _).
  apply post_bind. eapply post_weaken; [apply post_getKnownPoolAddress|].
  intros r ->. apply post_bind. apply post_ret. apply post_probeFeeTiers.
Qed.

Lemma post_resolvePriceV3 fa mode :
  Post (resolvePriceV3 rt net fa mode) (fun r => r = None).
Proof.
  unfold resolvePriceV3.
  destruct (JS.toLowerCase mode === "usdt"); [|apply post_tryGetPriceV3].
  apply post_bind. eapply post_weaken; [apply post_tryGetPriceV3|].
  intros r ->. cbn [truthy negb].
  apply post_bind. eapply post_weaken; [apply post_tryGetPriceV3|].
  intros r ->. now apply post_ret.
Qed.

Lemma post_stageV3 fa sym mode tryV3 :
  Post (stageV3 rt net fa sym mode tryV3) (fun r => r = None).
Proof.
  unfold stageV3. destruct tryV3; [|now apply post_ret].
  apply post_try_catch; [|intros e; now apply post_ret].
  apply post_bind. eapply post_weaken; [apply post_resolvePriceV3|].
  intros r ->. cbn [truthy]. now apply post_ret.
Qed.

Lemma post_fetchAPI url :
  Post (fetchAPI rt net url) (fun data => data = Some (mkBody (Some []))).
Proof.
  intros h. unfold fetchAPI.
  destruct (aggregator_empty h url) as (body & -> & Hparse).
  cbn. now rewrite Hparse.
Qed.

Lemma post_getPriceDexScreener a sym mode :
  Post (getPriceDexScreener rt net a sym mode) (fun r => r = None).
Proof.
  unfold getPriceDexScreener.
  apply post_try_catch; [|intros e; now apply post_ret].
  apply post_bind; apply post_orThrow; intros fa _.
  apply post_bind. eapply post_weaken; [apply post_fetchAPI|].
  intros data ->. now apply post_ret.
Qed.

Lemma post_stageDexScreener fa sym mode :
  Post (stageDexScreener rt net fa sym mode) (fun q => q = Unresolved).
Proof.
  unfold stageDexScreener.
  apply post_bind. eapply post_weaken; [apply post_getPriceDexScreener|].
  intros r ->. cbn [truthy]. now apply post_ret.
Qed.

Lemma post_quoteDirectPair a b sa sb (P : PriceQuote -> Prop) :
  Post (quoteDirectPair rt net a b sa sb) P.
Proof.
  unfold quoteDirectPair. apply post_bind; apply post_orThrow; intros amt _.
  apply post_bind. eapply post_weaken; [apply post_getAmountsOut with (P := fun _ => False)|].
  intros ? [].
Qed.

Lemma post_resolveToken fa mode tryV3 :
  Post (resolveToken rt net fa mode tryV3) (fun q => q = Unresolved).
Proof.
  unfold resolveToken, resolveWithInfo.
  apply post_bind. intros h. destruct (fst (getTokenInfo net fa h)); [exact I|].
  apply post_bind. eapply post_weaken; [apply post_probePathsV2|].
  intros r ->. apply post_bind. eapply post_weaken; [apply post_stageV3|].
  intros r ->. apply post_stageDexScreener.
Qed.

(** C6.  When the router rejects every quote, the factory knows no pool
    and the aggregator answers with an empty list of pairs, the resolution
    of any token other than the identity case returns the record
    [{price: null, version: null, path: null}]; it does not throw. *)
Theorem exhausted_tiers_yield_unresolved tokenAddress mode tryV3 h :
  (formatAddress tokenAddress = Some WBNB -> (JS.toLowerCase mode === "usdt") = true) ->
  exists h', getTokenPrice rt net tokenAddress mode tryV3 h = (inr Unresolved, h').
Proof.
  intros Hid.
  assert (HP : Post (getTokenPrice rt net tokenAddress mode tryV3)
                    (fun q => q = Unresolved)).
  { unfold getTokenPrice.
    apply post_try_catch; [|intros e; now apply post_ret].
    apply post_bind; apply post_orThrow; intros fa Hfa.
    destruct (fa === WBNB) eqn:Hw.
    - apply String.eqb_eq in Hw. subst fa. rewrite (Hid Hfa).
      apply post_quoteDirectPair.
    - destruct (_ && _); [apply post_quoteDirectPair|apply post_resolveToken]. }
  destruct (post_total _ _ h HP (getTokenPrice_total tokenAddress mode tryV3 h))
    as (q & h' & E & ->).
  now exists h'.
Qed.

End Exhausted.

End Facts.

(* ================================================================== *)
(** * The theorems at concrete inputs                                  *)
(* ================================================================== *)

Lemma constants_load :
  map formatAddress
      [PANCAKE_ROUTER_V2; PANCAKE_V3_FACTORY; WBNB; USDT; BUSD; USDC; UGO]
  = map Some
      [PANCAKE_ROUTER_V2; PANCAKE_V3_FACTORY; WBNB; USDT; BUSD; USDC; UGO].
Proof. vm_compute. reflexivity. Qed.

Lemma CAKE_normalizes : formatAddress CAKE = Some Sample.CAKE_TOKEN.
Proof. vm_compute. reflexivity. Qed.

Lemma CAKE_TOKEN_canonical : formatAddress Sample.CAKE_TOKEN = Some Sample.CAKE_TOKEN.
Proof. vm_compute. reflexivity. Qed.

Lemma POOL_500_normalizes : formatAddress Sample.POOL_500_RAW = Some Sample.POOL_500.
Proof. vm_compute. reflexivity. Qed.

(** C1: a malformed address on a silent network. *)
Lemma getTokenPrice_absorbs_invalid_address_witness :
  getTokenPrice (Sample.runtime None) Sample.silent "0x1234" "bnb" true []
  = (inr Unresolved, []).
Proof.
  exact (proj1 (getTokenPrice_absorbs_invalid_address
                  (Sample.runtime None) Sample.silent "0x1234" "bnb" true []
                  ltac:(vm_compute; reflexivity))).
Defined.

(** C1, as stated, fails: the malformed address does not come back to the
    caller as an [InvalidAddress] error; the caller gets the record. *)
Lemma invalid_address_is_not_propagated :
  formatAddress "0x1234" = None
  /\ getTokenPrice (Sample.runtime None) Sample.silent "0x1234" "bnb" true []
     = (inr Unresolved, [])
  /\ fst (getTokenPrice (Sample.runtime None) Sample.silent "0x1234" "bnb" true [])
     <> inl InvalidAddress.
Proof.
  split; [vm_compute; reflexivity|]. split; [vm_compute; reflexivity|].
  vm_compute. discriminate.
Qed.

(** C4: WBNB in lower case, mode ["BNB"]. *)
Lemma native_in_native_is_identity_witness :
  getTokenPrice (Sample.runtime None) Sample.silent
                "0xbb4cdb9cbd36b01bd1cbaebf2de08d9173bc095c" "BNB" true []
  = (inr (mkQuote (Some "1") (Some "n/a") (Some ["WBNB"])), []).
Proof.
  exact (native_in_native_is_identity
           (Sample.runtime None) Sample.silent
           "0xbb4cdb9cbd36b01bd1cbaebf2de08d9173bc095c" "BNB" true []
           ltac:(vm_compute; reflexivity) ltac:(vm_compute; reflexivity)).
Defined.


(** Liquidity on the first and on the third candidate: the first one is
    quoted. *)
Example greedy_v2_selection :
  let unit := 1000000000000000000 in
  getTokenPrice (Sample.runtime None) Sample.direct_and_busd_market CAKE "usdt" true []
  = (inr (mkQuote (Some "2.0") (Some "v2") (Some ["Cake"; "USDT"])),
     metadataCalls Sample.CAKE_TOKEN
       ++ [RouterGetAmountsOut unit [Sample.CAKE_TOKEN; USDT];
           RouterGetAmountsOut unit [Sample.CAKE_TOKEN; USDT]]).
Proof. vm_compute. reflexivity. Qed.




(** C6: CAKE in USDT with nothing on chain and an empty list of pairs. *)
Lemma exhausted_tiers_yield_unresolved_witness :
  exists h',
    getTokenPrice (Sample.runtime (Sample.answer_of [])) Sample.aggregator_only
                  CAKE "usdt" true []
    = (inr Unresolved, h').
Proof.
  apply exhausted_tiers_yield_unresolved.
  - intros h amountIn path. reflexivity.
  - intros h tokenA tokenB fee. left. reflexivity.
  - intros h url. exists "(body)". split; reflexivity.
  - intros H. rewrite CAKE_normalizes in H. discriminate H.
Defined.

(** C7: a token without [decimals()]. *)
Lemma metadata_failure_degrades_witness :
  let rt := Sample.runtime None in
  let net := Sample.no_decimals_market in
  let fa := Sample.CAKE_TOKEN in
  getTokenInfo net CAKE [] = (inr (mkInfo "UNKNOWN" "Unknown Token" 18), metadataCalls fa)
  /\ exists quote rest,
       getTokenPrice rt net CAKE "bnb" true []
       = (inr quote,
          metadataCalls fa
            ++ RouterGetAmountsOut 1000000000000000000 [fa; WBNB] :: rest).
Proof.
  intros rt net fa.
  destruct (metadata_failure_degrades rt net CAKE fa "bnb" true
              1000000000000000000 [] CAKE_normalizes CAKE_TOKEN_canonical
              (or_intror (or_intror eq_refl)) ltac:(vm_compute; reflexivity))
    as [Hinfo Hprice].
  split; [exact Hinfo|]. apply Hprice; vm_compute; reflexivity.
Defined.

(** C9: the pair of greater liquidity has a native price and no
    [quoteToken]. *)
Lemma dexscreener_native_price_needs_quoteToken_witness :
  let rt := Sample.runtime (Sample.answer_of [Sample.shallow_pair; Sample.deep_pair]) in
  getPriceDexScreener rt Sample.aggregator_only CAKE "Cake" "bnb" []
  = (inr None,
     [HttpsGet (DEXSCREENER_URL ++ Sample.CAKE_TOKEN)%string REQUEST_TIMEOUT_MS]).
Proof.
  intros rt.
  exact (dexscreener_native_price_needs_quoteToken rt Sample.aggregator_only
           CAKE Sample.CAKE_TOKEN "Cake" "bnb" [] "(body)"
           Sample.shallow_pair [Sample.deep_pair] Sample.deep_pair
           [Sample.shallow_pair]
           CAKE_normalizes eq_refl eq_refl ltac:(vm_compute; reflexivity)
           eq_refl eq_refl eq_refl).
Defined.

(** The same answer in the stable mode, and the native mode once the pair
    of greater liquidity has its [quoteToken]. *)
Example dexscreener_other_paths :
  getPriceDexScreener
    (Sample.runtime (Sample.answer_of [Sample.shallow_pair; Sample.deep_pair]))
    Sample.aggregator_only CAKE "Cake" "usdt" []
  = (inr (Some "300"),
     [HttpsGet (DEXSCREENER_URL ++ Sample.CAKE_TOKEN)%string REQUEST_TIMEOUT_MS])
  /\ getPriceDexScreener
       (Sample.runtime (Sample.answer_of [Sample.shallow_pair]))
       Sample.aggregator_only CAKE "Cake" "bnb" []
     = (inr (Some "0.4"),
        [HttpsGet (DEXSCREENER_URL ++ Sample.CAKE_TOKEN)%string REQUEST_TIMEOUT_MS]).
Proof. split; vm_compute; reflexivity. Qed.


(* ================================================================== *)
(** * The shape of a normalised address                             *)
(* ================================================================== *)

Module AddressShape.

Import JS Ethers AddressFacts.

Transparent formatAddress.

Lemma toLowerCase_0x (cs : list ascii) :
  toLowerCase (String "0" (String "x" (join cs)))
  = String "0" (String "x" (join (map char_toLowerCase cs))).
Proof.
  unfold toLowerCase. cbn [chars list_ascii_of_string].
  change (list_ascii_of_string (join cs)) with (chars (join cs)).
  now rewrite chars_join.
Qed.

Lemma hex_body_with0x (x : string) (body : list ascii) :
  hex_body x = Some body -> hex_body (with0x x) = Some body.
Proof.
  intros H. destruct (hex_body_spec _ _ H) as (E & L & F).
  rewrite E. now apply hex_body_0x.
Qed.

Lemma with0x_idem (x : string) : with0x (with0x x) = with0x x.
Proof.
  unfold with0x. destruct (startsWith "0x" x) eqn:E; [now rewrite E|reflexivity].
Qed.

(** X1.  For an input of the hexadecimal shape that [formatAddress]
    accepts, the result is ["0x"] followed by 40 hexadecimal characters,
    it spells the same 20 bytes as the input (the two agree up to the case
    of the letters), it is a fixed point of [formatAddress], and the
    ["0x"] prefix of the input is optional: the input with the prefix
    added and the bare 40 characters give the same result. *)
Theorem formatAddress_keeps_the_bytes (x y : string) (body : list ascii) :
  hex_body x = Some body ->
  formatAddress x = Some y ->
  (exists cc, y = String "0" (String "x" (join cc))
              /\ List.length cc = 40%nat /\ forallb is_hex cc = true)
  /\ toLowerCase y = toLowerCase (with0x x)
  /\ formatAddress y = Some y
  /\ formatAddress (with0x x) = Some y
  /\ (mixed_case (join body) = false -> formatAddress (join body) = Some y).
Proof.
  intros Hb Hy.
  destruct (hex_body_spec _ _ Hb) as (E & L & F).
  unfold formatAddress in *.
  assert (Hc : y = canonical body).
  { rewrite (getAddress_hex _ _ Hb) in Hy.
    destruct (negb (mixed_case (with0x x)) || (canonical body === with0x x));
      congruence. }
  subst y.
  split; [|split; [|split; [|split]]].
  - destruct (canonical_fix body L) as (cc & Ec & Lc & Fc & _).
    exists cc. rewrite Fc. auto.
  - rewrite E. unfold canonical. rewrite !toLowerCase_0x.
    now rewrite checksum_case_lower, map_lower_idem.
  - now apply getAddress_canonical.
  - rewrite (getAddress_hex _ _ (hex_body_with0x _ _ Hb)), with0x_idem.
    rewrite (getAddress_hex _ _ Hb) in Hy.
    destruct (negb (mixed_case (with0x x)) || (canonical body === with0x x));
      congruence.
  - intros Hm.
    assert (Hj : hex_body (join body) = Some body).
    { unfold hex_body. rewrite chars_join.
      destruct (startsWith "0x" (join body)) eqn:S0.
      - destruct (startsWith_0x _ S0) as (rest & Er).
        assert (Hch : chars (join body) = chars (String "0" (String "x" rest)))
          by now rewrite Er.
        rewrite chars_join in Hch. rewrite Hch in F. cbn in F. discriminate.
      - now rewrite L, F. }
    rewrite (getAddress_hex _ _ Hj).
    assert (Hw : mixed_case (with0x (join body)) = false).
    { unfold with0x. destruct (startsWith "0x" (join body)); [exact Hm|].
      unfold mixed_case in *. cbn [chars list_ascii_of_string append].
      change (list_ascii_of_string (join body)) with (chars (join body)).
      cbn. exact Hm. }
    now rewrite Hw.
Qed.

Opaque formatAddress.

End AddressShape.

Lemma formatAddress_keeps_the_bytes_witness :
  let x := "BB4CDB9CBD36B01BD1CBAEBF2DE08D9173BC095C" in
  (exists cc, WBNB = String "0" (String "x" (JS.join cc))
              /\ List.length cc = 40%nat /\ forallb Ethers.is_hex cc = true)
  /\ JS.toLowerCase WBNB = JS.toLowerCase (Ethers.with0x x)
  /\ formatAddress WBNB = Some WBNB
  /\ formatAddress (Ethers.with0x x) = Some WBNB
  /\ (Ethers.mixed_case (JS.join (JS.chars x)) = false ->
      formatAddress (JS.join (JS.chars x)) = Some WBNB).
Proof.
  exact (AddressShape.formatAddress_keeps_the_bytes
           "BB4CDB9CBD36B01BD1CBAEBF2DE08D9173BC095C" WBNB
           (JS.chars "BB4CDB9CBD36B01BD1CBAEBF2DE08D9173BC095C")
           ltac:(vm_compute; reflexivity) ltac:(vm_compute; reflexivity)).
Defined.

(* ================================================================== *)
(** * Which calls a run issues, and how many                        *)
(* ================================================================== *)

Lemma emits_ret {A} allowed (a : A) : Emits allowed 0 (ret a).
Proof. intros h. exists []. cbn. rewrite app_nil_r. auto. Qed.

Lemma emits_throw {A} allowed (e : exn) : Emits allowed 0 (@throw A e).
Proof. intros h. exists []. cbn. rewrite app_nil_r. auto. Qed.

Lemma emits_orThrow {A} allowed (e : exn) (o : option A) :
  Emits allowed 0 (orThrow e o).
Proof. destruct o; [apply emits_ret|apply emits_throw]. Qed.

Lemma emits_await {A} (allowed : Call -> bool) c (answer : History -> option A) :
  allowed c = true -> Emits allowed 1 (await c answer).
Proof.
  intros Hc h. exists [c]. unfold await.
  destruct (answer h); cbn; rewrite Hc; auto.
Qed.

Lemma emits_le {A} allowed (n n' : nat) (m : M A) :
  Emits allowed n m -> (n <= n')%nat -> Emits allowed n' m.
Proof.
  intros H Hle h. destruct (H h) as (t & E & F & L).
  exists t. repeat split; auto. lia.
Qed.

Lemma emits_max_l {A} allowed (n n' : nat) (m : M A) :
  Emits allowed n m -> Emits allowed (Nat.max n n') m.
Proof. intros H. apply (emits_le _ n); [exact H|lia]. Qed.

Lemma emits_max_r {A} allowed (n n' : nat) (m : M A) :
  Emits allowed n' m -> Emits allowed (Nat.max n n') m.
Proof. intros H. apply (emits_le _ n'); [exact H|lia]. Qed.

Lemma emits_allowed {A} (allowed allowed' : Call -> bool) (n : nat) (m : M A) :
  (forall c, allowed c = true -> allowed' c = true) ->
  Emits allowed n m -> Emits allowed' n m.
Proof.
  intros Hsub H h. destruct (H h) as (t & E & F & L).
  exists t. repeat split; auto.
  rewrite forallb_forall in *. auto.
Qed.

Lemma emits_seq {A B} allowed (n1 n2 : nat) (m : M A) (next : (exn + A) -> M B)
  (both : M B) :
  Emits allowed n1 m ->
  (forall r, Emits allowed n2 (next r)) ->
  (forall h, both h = next (fst (m h)) (snd (m h))) ->
  Emits allowed (n1 + n2) both.
Proof.
  intros H1 H2 Hb h. rewrite Hb.
  destruct (H1 h) as (t1 & E1 & F1 & L1).
  destruct (H2 (fst (m h)) (snd (m h))) as (t2 & E2 & F2 & L2).
  exists (t1 ++ t2). rewrite E2, E1, app_assoc, forallb_app, F1, F2, length_app.
  repeat split; auto. lia.
Qed.

Lemma emits_bind {A B} allowed (n1 n2 : nat) (m : M A) (k : A -> M B) :
  Emits allowed n1 m -> (forall a, Emits allowed n2 (k a)) ->
  Emits allowed (n1 + n2) (bind m k).
Proof.
  intros H1 H2.
  apply (emits_seq allowed n1 n2 m
           (fun r => match r with inr a => k a | inl e => throw e end)).
  - exact H1.
  - intros [e|a]; [|apply H2].
    apply (emits_le _ 0); [apply emits_throw|lia].
  - intros h. unfold bind. now destruct (m h) as [[e|a] h'].
Qed.

Lemma emits_try_catch {A} allowed (n1 n2 : nat) (m : M A) (handler : exn -> M A) :
  Emits allowed n1 m -> (forall e, Emits allowed n2 (handler e)) ->
  Emits allowed (n1 + n2) (try_catch m handler).
Proof.
  intros H1 H2.
  apply (emits_seq allowed n1 n2 m
           (fun r => match r with inr a => ret a | inl e => handler e end)).
  - exact H1.
  - intros [e|a]; [apply H2|].
    apply (emits_le _ 0); [apply emits_ret|lia].
  - intros h. unfold try_catch. now destruct (m h) as [[e|a] h'].
Qed.

Lemma emits_Promise_all3 {A B C} allowed (n1 n2 n3 : nat)
  (a : M A) (b : M B) (c : M C) :
  Emits allowed n1 a -> Emits allowed n2 b -> Emits allowed n3 c ->
  Emits allowed (n1 + n2 + n3) (Promise_all3 a b c).
Proof.
  intros Ha Hb Hc h. unfold Promise_all3.
  destruct (Ha h) as (t1 & E1 & F1 & L1). destruct (a h) as [ra h1]. cbn in E1.
  destruct (Hb h1) as (t2 & E2 & F2 & L2). destruct (b h1) as [rb h2]. cbn in E2.
  destruct (Hc h2) as (t3 & E3 & F3 & L3). destruct (c h2) as [rc h3]. cbn in E3.
  exists (t1 ++ t2 ++ t3).
  assert (E : h3 = h ++ t1 ++ t2 ++ t3) by (subst; now rewrite <- !app_assoc).
  rewrite !forallb_app, F1, F2, F3, !length_app.
  repeat split; [|lia].
  destruct ra, rb, rc; exact E.
Qed.

Lemma emits_mapM {A B} allowed (n : nat) (f : A -> M B) (l : list A) :
  (forall a, Emits allowed n (f a)) ->
  Emits allowed (List.length l * n) (mapM f l).
Proof.
  intros H. induction l as [|a l IH]; cbn [mapM List.length].
  - apply emits_ret.
  - eapply emits_le.
    + apply emits_bind; [apply H|intros b].
      apply emits_bind; [apply IH|intros bs]. apply emits_ret.
    + lia.
Qed.

(** The bound of a computation is put together from the bounds of its
    parts: sums along a sequence, the greater of the two at a branch. *)
Ltac emits_branch n x :=
  first
    [ destruct x; [ ]
    | let a := fresh "bound" in
      let b := fresh "bound" in
      evar (a : nat); evar (b : nat);
      unify n (Nat.max a b); subst a b;
      destruct x; [apply emits_max_l|apply emits_max_r] ].

Ltac emits_step :=
  lazymatch goal with
  | |- Emits _ _ (ret _) => apply emits_ret
  | |- Emits _ _ (throw _) => apply emits_throw
  | |- Emits _ _ (orThrow _ _) => apply emits_orThrow
  | |- Emits _ _ (await _ _) => apply emits_await; reflexivity
  | |- Emits _ _ (bind _ _) => eapply emits_bind; [|intros ?]
  | |- Emits _ _ (try_catch _ _) => eapply emits_try_catch; [|intros ?]
  | |- Emits _ _ (Promise_all3 _ _ _) => eapply emits_Promise_all3
  | |- Emits _ _ (mapM _ _) => eapply emits_mapM; intros ?
  | |- Emits _ ?n (match ?x with _ => _ end) => emits_branch n x
  | |- Emits _ _ _ =>
      match goal with
      | H : context [Emits] |- _ =>
          solve [ eapply H
                | eapply emits_allowed; [|eapply H]; now intros [] ]
      end
  end.

Ltac emits := eapply emits_le; [repeat emits_step|cbn; lia].

Section Calls.

Variable rt : Runtime.
Variable net : Remote.

Lemma emits_fetchAPI url : Emits is_http_call 1 (fetchAPI rt net url).
Proof.
  intros h. exists [HttpsGet url REQUEST_TIMEOUT_MS]. unfold fetchAPI.
  destruct (https_get net h url) as [| |status body]; cbn; auto.
  destruct (negb (status =? 200)); cbn; auto.
  destruct (JSON_parse rt body); cbn; auto.
Qed.

Lemma emits_getTokenInfo a : Emits is_token_call 3 (getTokenInfo net a).
Proof. unfold getTokenInfo, symbol, name, decimals. emits. Qed.

Lemma emits_checkPathLiquidityV2 path dec :
  Emits is_router_call 1 (checkPathLiquidityV2 rt net path dec).
Proof. unfold checkPathLiquidityV2, getAmountsOut. emits. Qed.

Lemma emits_readPoolPrice fin pool :
  Emits is_v3_call 3 (readPoolPrice rt net fin pool).
Proof. unfold readPoolPrice, token0, token1, slot0. emits. Qed.

Lemma emits_probeFeeTier fin fout fee :
  Emits is_v3_call 4 (probeFeeTier rt net fin fout fee).
Proof.
  pose proof emits_readPoolPrice.
  unfold probeFeeTier, getPool. emits.
Qed.

Lemma emits_probeFeeTiers fin fout fees :
  Emits is_v3_call (4 * List.length fees) (probeFeeTiers rt net fin fout fees).
Proof.
  pose proof emits_probeFeeTier.
  induction fees as [|fee rest IH]; cbn [probeFeeTiers List.length].
  - apply emits_ret.
  - emits.
Qed.

Lemma emits_getKnownPoolAddress a b : Emits is_v3_call 0 (getKnownPoolAddress a b).
Proof. unfold getKnownPoolAddress. emits. Qed.

(** [tryGetPriceV3] written out: both addresses are normalised, twice
    (once more inside [getKnownPoolAddress]), the table of known pools has
    nothing to offer, and the fee tiers are probed. *)
Lemma tryGetPriceV3_run a b h :
  tryGetPriceV3 rt net a b h
  = match formatAddress a, formatAddress b with
    | Some fin, Some fout =>
        match formatAddress fin, formatAddress fout with
        | Some _, Some _ => probeFeeTiers rt net fin fout feeTiers h
        | _, _ => (inr None, h)
        end
    | _, _ => (inr None, h)
    end.
Proof.
  unfold tryGetPriceV3, getKnownPoolAddress, try_catch, bind, orThrow, ret, throw.
  destruct (formatAddress a) as [fin|]; [|reflexivity].
  destruct (formatAddress b) as [fout|]; [|reflexivity].
  destruct (formatAddress fin) as [fin'|]; [|reflexivity].
  destruct (formatAddress fout) as [fout'|]; [|reflexivity].
  destruct (probeFeeTiers_total rt net fin fout feeTiers h) as (r & h' & E).
  destruct (_ || _); cbn [lookup KNOWN_V3_POOLS]; cbv beta iota; rewrite E; reflexivity.
Qed.

Lemma emits_tryGetPriceV3 a b : Emits is_v3_call 16 (tryGetPriceV3 rt net a b).
Proof.
  assert (H0 : Emits is_v3_call 16 (@ret (option string) None)).
  { apply (emits_le _ 0); [apply emits_ret|lia]. }
  intros h. rewrite tryGetPriceV3_run.
  destruct (formatAddress a) as [fin|]; [|apply H0].
  destruct (formatAddress b) as [fout|]; [|apply H0].
  destruct (formatAddress fin); [|apply H0].
  destruct (formatAddress fout); [|apply H0].
  apply (emits_probeFeeTiers fin fout feeTiers).
Qed.

Lemma emits_resolvePriceV3 fa mode :
  Emits is_v3_call 48 (resolvePriceV3 rt net fa mode).
Proof. pose proof emits_tryGetPriceV3. unfold resolvePriceV3. emits. Qed.

Lemma emits_stageV3 fa sym mode tryV3 :
  Emits is_v3_call 48 (stageV3 rt net fa sym mode tryV3).
Proof. pose proof emits_resolvePriceV3. unfold stageV3. emits. Qed.

Lemma emits_getPriceDexScreener a sym mode :
  Emits is_http_call 1 (getPriceDexScreener rt net a sym mode).
Proof. pose proof emits_fetchAPI. unfold getPriceDexScreener. emits. Qed.

Lemma emits_stageDexScreener fa sym mode :
  Emits is_http_call 1 (stageDexScreener rt net fa sym mode).
Proof. pose proof emits_getPriceDexScreener. unfold stageDexScreener. emits. Qed.

Lemma emits_quotePathV2 fa sym dec path :
  forallb (known_address fa) path = true ->
  Emits is_router_call 1 (quotePathV2 rt net fa sym dec path).
Proof.
  intros Hk.
  assert (Hm : Emits is_router_call 0 (mapM (pathSymbol net fa sym) path)).
  { intros h. exists []. rewrite (pathSymbols_known net fa sym path h Hk).
    cbn. rewrite app_nil_r. auto. }
  unfold quotePathV2, getAmountsOut.
  eapply emits_le.
  - eapply emits_bind; [apply emits_orThrow|intros amountIn].
    eapply emits_bind; [apply emits_await; reflexivity|intros amounts].
    eapply emits_bind; [apply emits_orThrow|intros amount].
    eapply emits_bind; [apply Hm|intros syms]. apply emits_ret.
  - cbn. lia.
Qed.

(** The router calls of the V2 loop: one check for each path tried, and
    one more quote when a check passed. *)
Lemma probePathsV2_calls fa sym dec paths :
  Forall (fun path => forallb (known_address fa) path = true) paths ->
  forall h, exists t,
    snd (probePathsV2 rt net fa sym dec paths h) = h ++ t
    /\ forallb is_router_call t = true
    /\ (List.length t <= S (List.length paths))%nat
    /\ (fst (probePathsV2 rt net fa sym dec paths h) = inr None ->
        (List.length t <= List.length paths)%nat).
Proof.
  induction 1 as [|path rest Hk _ IH]; intros h; cbn [probePathsV2 List.length].
  - exists []. cbn. rewrite app_nil_r. auto.
  - destruct (parseUnits rt "1" dec) as [amountIn|] eqn:Hu.
    + rewrite (bind_ok _ _ _ _ _ (checkPathLiquidityV2_run rt net path dec amountIn h Hu)).
      set (h1 := h ++ [RouterGetAmountsOut amountIn path]).
      destruct (router_getAmountsOut net h amountIn path); cbv beta iota.
      * destruct (emits_le _ _ 1 _ (emits_bind _ _ _ _
                    (fun quote => ret (Some quote))
                    (emits_quotePathV2 fa sym dec path Hk)
                    (fun quote => emits_ret _ (Some quote))) ltac:(cbn; lia) h1)
          as (t & E & F & L).
        exists (RouterGetAmountsOut amountIn path :: t).
        rewrite E. unfold h1. rewrite <- app_assoc. cbn.
        split; [reflexivity|]. split; [exact F|]. split; [lia|].
        intros Hn. exfalso.
        apply (quotePathV2_not_none rt net fa sym dec path h1
                 (snd (bind (quotePathV2 rt net fa sym dec path)
                         (fun quote => ret (Some quote)) h1))).
        rewrite <- Hn. apply surjective_pairing.
      * destruct (IH h1) as (t & E & F & L & Ln).
        exists (RouterGetAmountsOut amountIn path :: t).
        rewrite E. unfold h1. rewrite <- app_assoc. cbn.
        split; [reflexivity|]. split; [exact F|]. split; [lia|].
        intros Hn. specialize (Ln Hn). lia.
    + assert (Hc : checkPathLiquidityV2 rt net path dec h = (inr false, h)).
      { unfold checkPathLiquidityV2, try_catch, bind, orThrow. now rewrite Hu. }
      rewrite (bind_ok _ _ _ _ _ Hc).
      destruct (IH h) as (t & E & F & L & Ln).
      exists t. split; [exact E|]. split; [exact F|]. split; [lia|].
      intros Hn. specialize (Ln Hn). lia.
Qed.

Lemma pathsV2_all_known fa mode :
  Forall (fun path => forallb (known_address fa) path = true)
         (pathsV2 fa (snd (selectQuote mode))).
Proof. apply Forall_forall. intros path. apply pathsV2_known. Qed.

Lemma emits_quoteDirectPair a b sa sb :
  Emits is_router_call 1 (quoteDirectPair rt net a b sa sb).
Proof. unfold quoteDirectPair, getAmountsOut. emits. Qed.

(** What follows a V2 loop that ran out: the V3 stage and the
    aggregator. *)
Lemma emits_after_V2 fa sym mode tryV3 :
  Emits (fun _ => true) 49
    (v3 <- stageV3 rt net fa sym mode tryV3 ;;
     match v3 with
     | Some quote => ret quote
     | None => stageDexScreener rt net fa sym mode
     end).
Proof.
  pose proof emits_stageV3. pose proof emits_stageDexScreener. emits.
Qed.

Lemma emits_after_V2_no_V3 fa sym mode :
  Emits (fun c => negb (is_v3_call c)) 1
    (v3 <- stageV3 rt net fa sym mode false ;;
     match v3 with
     | Some quote => ret quote
     | None => stageDexScreener rt net fa sym mode
     end).
Proof.
  pose proof emits_stageDexScreener. unfold stageV3. emits.
Qed.

Lemma emits_resolveWithInfo_from allowed (n : nat) fa mode tryV3 info :
  (forall c, is_router_call c = true -> allowed c = true) ->
  Emits allowed n
    (v3 <- stageV3 rt net fa (t_symbol info) mode tryV3 ;;
     match v3 with
     | Some quote => ret quote
     | None => stageDexScreener rt net fa (t_symbol info) mode
     end) ->
  Emits allowed (Nat.max 5 (4 + n)) (resolveWithInfo rt net fa mode tryV3 info).
Proof.
  intros Hr Hrest h. unfold resolveWithInfo. cbv zeta. unfold bind at 1.
  destruct (probePathsV2_calls fa (t_symbol info) (t_decimals info) _
              (pathsV2_all_known fa mode) h) as (t & E & F & L & Ln).
  assert (Fa : forallb allowed t = true).
  { rewrite forallb_forall in *. auto. }
  cbn [List.length pathsV2] in L, Ln.
  destruct (probePathsV2 rt net fa (t_symbol info) (t_decimals info)
              (pathsV2 fa (snd (selectQuote mode))) h) as [[e|[quote|]] h1];
    cbn [fst snd] in *.
  - exists t. repeat split; auto. lia.
  - exists t. repeat split; auto. lia.
  - destruct (Hrest h1) as (t2 & E2 & F2 & L2).
    exists (t ++ t2). rewrite E2, E, app_assoc, forallb_app, Fa, F2, length_app.
    repeat split; auto. specialize (Ln eq_refl). lia.
Qed.

Lemma emits_resolveToken fa mode tryV3 :
  Emits (fun _ => true) 56 (resolveToken rt net fa mode tryV3).
Proof.
  pose proof emits_getTokenInfo.
  pose proof (fun info => emits_resolveWithInfo_from (fun _ => true) 49 fa mode tryV3 info
                (fun _ _ => eq_refl) (emits_after_V2 fa (t_symbol info) mode tryV3)).
  unfold resolveToken. emits.
Qed.

Lemma emits_resolveToken_no_V3 fa mode :
  Emits (fun c => negb (is_v3_call c)) 8 (resolveToken rt net fa mode false).
Proof.
  pose proof emits_getTokenInfo.
  assert (Hr : forall c, is_router_call c = true -> negb (is_v3_call c) = true)
    by now intros [].
  pose proof (fun info => emits_resolveWithInfo_from _ 1 fa mode false info
                Hr (emits_after_V2_no_V3 fa (t_symbol info) mode)).
  unfold resolveToken. emits.
Qed.

Lemma emits_getTokenPrice tokenAddress mode tryV3 :
  Emits (fun _ => true) 56 (getTokenPrice rt net tokenAddress mode tryV3).
Proof.
  pose proof emits_quoteDirectPair. pose proof emits_resolveToken.
  unfold getTokenPrice. emits.
Qed.

Lemma emits_getTokenPrice_no_V3 tokenAddress mode :
  Emits (fun c => negb (is_v3_call c)) 8 (getTokenPrice rt net tokenAddress mode false).
Proof.
  pose proof emits_quoteDirectPair. pose proof emits_resolveToken_no_V3.
  unfold getTokenPrice. emits.
Qed.

(** X2.  [tryGetPriceV3] never throws, and the table of known pools
    plays no part in it.  Both addresses are normalised, and once more
    inside [getKnownPoolAddress]; when one of the four normalisations is
    refused the result is [null] without a single read, and otherwise the
    result is that of the fee tiers, for the pair UGO and WBNB as for any
    other.  The reads go to the V3 factory and to pools only, and are 16
    at most: four fee tiers, each one lookup and three pool reads. *)
Theorem tryGetPriceV3_is_contained tokenIn tokenOut h :
  tryGetPriceV3 rt net tokenIn tokenOut h
  = match formatAddress tokenIn, formatAddress tokenOut with
    | Some fin, Some fout =>
        match formatAddress fin, formatAddress fout with
        | Some _, Some _ => probeFeeTiers rt net fin fout feeTiers h
        | _, _ => (inr None, h)
        end
    | _, _ => (inr None, h)
    end
  /\ (exists price h', tryGetPriceV3 rt net tokenIn tokenOut h = (inr price, h'))
  /\ Emits is_v3_call 16 (tryGetPriceV3 rt net tokenIn tokenOut).
Proof.
  split; [apply tryGetPriceV3_run|]. split; [|apply emits_tryGetPriceV3].
  rewrite tryGetPriceV3_run.
  destruct (formatAddress tokenIn) as [fin|]; [|eauto].
  destruct (formatAddress tokenOut) as [fout|]; [|eauto].
  destruct (formatAddress fin); [|eauto].
  destruct (formatAddress fout); [|eauto].
  apply probeFeeTiers_total.
Qed.

End Calls.

(* ================================================================== *)
(** * Requests, metadata and the direct pairs                       *)
(* ================================================================== *)

Section Parts.

Variable rt : Runtime.
Variable net : Remote.

(** ** [fetchAPI] *)

Lemma fetchAPI_trace url h :
  snd (fetchAPI rt net url h) = h ++ [HttpsGet url REQUEST_TIMEOUT_MS].
Proof.
  unfold fetchAPI.
  destruct (https_get net h url) as [| |status body]; try reflexivity.
  destruct (negb (status =? 200)); [reflexivity|].
  now destruct (JSON_parse rt body).
Qed.

(** X3.  [fetchAPI] issues exactly one request, with the 5000 ms
    timeout.  It resolves, with the parsed body, exactly when the answer
    has status 200 and a body that [JSON.parse] accepts; an error, a
    timeout, another status and a body that does not parse all reject. *)
Theorem fetchAPI_resolves_iff url h :
  snd (fetchAPI rt net url h) = h ++ [HttpsGet url 5000]
  /\ (forall data,
        fst (fetchAPI rt net url h) = inr data
        <-> exists body,
              https_get net h url = HttpResponse 200 body
              /\ JSON_parse rt body = Some data)
  /\ (forall e, fst (fetchAPI rt net url h) = inl e -> e = RequestFailed).
Proof.
  unfold fetchAPI, REQUEST_TIMEOUT_MS.
  destruct (https_get net h url) as [| |status body].
  - split; [reflexivity|]. split.
    + intros data. split; [discriminate|]. intros (b & Hb & _). discriminate.
    + cbn. congruence.
  - split; [reflexivity|]. split.
    + intros data. split; [discriminate|]. intros (b & Hb & _). discriminate.
    + cbn. congruence.
  - destruct (Z.eqb_spec status 200) as [->|Hne]; cbn [negb].
    + destruct (JSON_parse rt body) as [data0|] eqn:Hp.
      * split; [reflexivity|]. split.
        -- intros data. cbn. split.
           ++ intros [= <-]. now exists body.
           ++ intros (b & [= <-] & Hb). congruence.
        -- cbn. discriminate.
      * split; [reflexivity|]. split.
        -- intros data. cbn. split; [discriminate|].
           intros (b & [= <-] & Hb). congruence.
        -- cbn. congruence.
    + split; [reflexivity|]. split.
      * intros data. cbn. split; [discriminate|].
        intros (b & [= E _] & _). contradiction.
      * cbn. congruence.
Qed.

(** ** [getTokenInfo] *)

Lemma getTokenInfo_run tokenAddress fa h :
  formatAddress tokenAddress = Some fa ->
  getTokenInfo net tokenAddress h
  = (inr (match erc20_symbol net h fa,
                erc20_name net (h ++ [TokenSymbol fa]) fa,
                erc20_decimals net (h ++ [TokenSymbol fa; TokenName fa]) fa with
          | Some sym, Some nm, Some dec => mkInfo sym nm dec
          | _, _, _ => UNKNOWN_TOKEN
          end),
     h ++ metadataCalls fa).
Proof.
  intros Ha.
  unfold getTokenInfo, try_catch. unfold bind at 1. rewrite Ha. cbn [orThrow ret].
  unfold bind, symbol, name, decimals. rewrite Promise_all3_await.
  unfold metadataCalls.
  destruct (erc20_symbol net h fa) as [s|];
    destruct (erc20_name net (h ++ [TokenSymbol fa]) fa) as [n|];
    destruct (erc20_decimals net (h ++ [TokenSymbol fa; TokenName fa]) fa) as [d|];
    reflexivity.
Qed.

Lemma getTokenInfo_refused tokenAddress h :
  formatAddress tokenAddress = None ->
  getTokenInfo net tokenAddress h = (inr UNKNOWN_TOKEN, h).
Proof.
  intros Ha. unfold getTokenInfo, try_catch. unfold bind at 1.
  now rewrite Ha.
Qed.

(** X4.  [getTokenInfo] never throws.  On an address [formatAddress]
    refuses it returns the placeholder without a read.  Otherwise it
    issues [symbol()], [name()] and [decimals()] on the normalised
    address, all three whatever the answers, and returns the three
    answers when all came back; one rejection discards the other two
    answers as well. *)
Theorem getTokenInfo_all_or_nothing tokenAddress h :
  match formatAddress tokenAddress with
  | None => getTokenInfo net tokenAddress h = (inr UNKNOWN_TOKEN, h)
  | Some fa =>
      getTokenInfo net tokenAddress h
      = (inr (match erc20_symbol net h fa,
                    erc20_name net (h ++ [TokenSymbol fa]) fa,
                    erc20_decimals net (h ++ [TokenSymbol fa; TokenName fa]) fa with
              | Some sym, Some nm, Some dec => mkInfo sym nm dec
              | _, _, _ => UNKNOWN_TOKEN
              end),
         h ++ [TokenSymbol fa; TokenName fa; TokenDecimals fa])
  end.
Proof.
  destruct (formatAddress tokenAddress) as [fa|] eqn:Ha.
  - now apply getTokenInfo_run.
  - now apply getTokenInfo_refused.
Qed.

Lemma getTokenInfo_total tokenAddress h :
  exists info h', getTokenInfo net tokenAddress h = (inr info, h').
Proof.
  destruct (formatAddress tokenAddress) as [fa|] eqn:Ha.
  - rewrite (getTokenInfo_run _ _ _ Ha). eauto.
  - rewrite (getTokenInfo_refused _ _ Ha). eauto.
Qed.

(** ** The special pairs of [getTokenPrice] *)

Lemma quoteDirectPair_run a b sa sb amountIn h :
  parseUnits rt "1" 18 = Some amountIn ->
  try_catch (quoteDirectPair rt net a b sa sb) (fun _ => ret Unresolved) h
  = (inr (match router_getAmountsOut net h amountIn [a; b] with
          | Some amounts =>
              match nth_error amounts 1 with
              | Some amount =>
                  mkQuote (Some (formatUnits rt amount 18)) (Some "v2")
                          (Some [sa; sb])
              | None => Unresolved
              end
          | None => Unresolved
          end),
     h ++ [RouterGetAmountsOut amountIn [a; b]]).
Proof.
  intros Hu.
  unfold quoteDirectPair, try_catch, bind, orThrow, getAmountsOut, await.
  rewrite Hu. cbn [ret].
  destruct (router_getAmountsOut net h amountIn [a; b]) as [amounts|]; [|reflexivity].
  destruct (nth_error amounts 1); reflexivity.
Qed.

(** X5.  WBNB priced in USDT and USDT priced in BNB are answered by one
    router quote of the direct pair, for one unit of 18 decimals, with no
    metadata read and no other call.  The price is the second amount
    printed with 18 decimals; a rejected quote, or an answer without a
    second amount, gives the empty record. *)
Theorem direct_pairs_cost_one_quote tokenAddress mode tryV3 amountIn h :
  parseUnits rt "1" 18 = Some amountIn ->
  (formatAddress tokenAddress = Some WBNB ->
   (JS.toLowerCase mode === "usdt") = true ->
   getTokenPrice rt net tokenAddress mode tryV3 h
   = (inr (match router_getAmountsOut net h amountIn [WBNB; USDT] with
           | Some amounts =>
               match nth_error amounts 1 with
               | Some amount =>
                   mkQuote (Some (formatUnits rt amount 18)) (Some "v2")
                           (Some ["WBNB"; "USDT"])
               | None => Unresolved
               end
           | None => Unresolved
           end),
      h ++ [RouterGetAmountsOut amountIn [WBNB; USDT]]))
  /\ (formatAddress tokenAddress = Some USDT ->
      (JS.toLowerCase mode === "bnb") = true ->
      getTokenPrice rt net tokenAddress mode tryV3 h
      = (inr (match router_getAmountsOut net h amountIn [USDT; WBNB] with
              | Some amounts =>
                  match nth_error amounts 1 with
                  | Some amount =>
                      mkQuote (Some (formatUnits rt amount 18)) (Some "v2")
                              (Some ["USDT"; "WBNB"])
                  | None => Unresolved
                  end
              | None => Unresolved
              end),
         h ++ [RouterGetAmountsOut amountIn [USDT; WBNB]])).
Proof.
  intros Hu. split; intros Ha Hm; unfold getTokenPrice;
    rewrite (try_catch_bind_ok _ _ _ h _ h) by (now rewrite Ha).
  - change (WBNB === WBNB) with true. cbv iota. rewrite Hm.
    now apply quoteDirectPair_run.
  - change (USDT === WBNB) with false. change (USDT === USDT) with true.
    rewrite Hm. cbn [andb]. cbv iota.
    now apply quoteDirectPair_run.
Qed.

End Parts.

Lemma direct_pairs_cost_one_quote_witness :
  let unit := 1000000000000000000 in
  getTokenPrice (Sample.runtime None) Sample.direct_and_busd_market
                "0xbb4cdb9cbd36b01bd1cbaebf2de08d9173bc095c" "USDT" true []
  = (inr (mkQuote (Some "2.0") (Some "v2") (Some ["WBNB"; "USDT"])),
     [RouterGetAmountsOut unit [WBNB; USDT]]).
Proof.
  refine (eq_trans
            (proj1 (direct_pairs_cost_one_quote
                      (Sample.runtime None) Sample.direct_and_busd_market
                      "0xbb4cdb9cbd36b01bd1cbaebf2de08d9173bc095c" "USDT" true
                      1000000000000000000 []
                      ltac:(vm_compute; reflexivity))
                   ltac:(vm_compute; reflexivity) ltac:(vm_compute; reflexivity))
            _).
  vm_compute. reflexivity.
Defined.

(* ================================================================== *)
(** * The stages of [getTokenPrice]                                 *)
(* ================================================================== *)

Section Stages.

Variable rt : Runtime.
Variable net : Remote.

(** Whatever [resolveToken] throws, [getTokenPrice] turns into the empty
    record. *)
Lemma getTokenPrice_absorbs tokenAddress fa mode tryV3 h :
  formatAddress tokenAddress = Some fa ->
  (fa === WBNB) = false ->
  (fa === USDT) && (JS.toLowerCase mode === "bnb") = false ->
  getTokenPrice rt net tokenAddress mode tryV3 h
  = match resolveToken rt net fa mode tryV3 h with
    | (inr quote, h') => (inr quote, h')
    | (inl _, h') => (inr Unresolved, h')
    end.
Proof.
  intros Ha Hw Hu.
  rewrite (getTokenPrice_general rt net tokenAddress fa mode tryV3 h Ha Hw Hu).
  unfold try_catch.
  now destruct (resolveToken rt net fa mode tryV3 h) as [[e|quote] h'].
Qed.

Lemma resolveToken_run fa mode tryV3 info h h1 :
  getTokenInfo net fa h = (inr info, h1) ->
  resolveToken rt net fa mode tryV3 h = resolveWithInfo rt net fa mode tryV3 info h1.
Proof. intros Hi. unfold resolveToken. now rewrite (bind_ok _ _ _ _ _ Hi). Qed.

(** The first call after the metadata is the liquidity check of the
    direct pair. *)
Lemma resolveWithInfo_starts fa mode tryV3 info amountIn h :
  parseUnits rt "1" (t_decimals info) = Some amountIn ->
  exists rest,
    snd (resolveWithInfo rt net fa mode tryV3 info h)
    = h ++ RouterGetAmountsOut amountIn [fa; snd (selectQuote mode)] :: rest.
Proof.
  intros Hu. unfold resolveWithInfo, pathsV2. cbv zeta. cbn [probePathsV2].
  unfold bind at 1. unfold bind at 1.
  rewrite (checkPathLiquidityV2_run rt net _ _ amountIn h Hu).
  match goal with
  | |- exists rest, snd (match ?m ?h0 with _ => _ end) = _ =>
      assert (Hg : Grows m)
        by (pose proof (grows_quotePathV2 rt net);
            pose proof (grows_probePathsV2 rt net);
            pose proof (grows_checkPathLiquidityV2 rt net);
            grows);
      destruct (Hg h0) as [t Ht];
      destruct (m h0) as [[e|[quote|]] h1] eqn:E; cbn [snd] in Ht; subst h1
  end.
  - exists t. cbn [snd]. now rewrite <- app_assoc.
  - exists t. cbn [snd ret]. now rewrite <- app_assoc.
  - match goal with
    | |- exists rest, snd (?m ?h0) = _ =>
        assert (Hg2 : Grows m)
          by (pose proof (grows_stageV3 rt net);
              pose proof (grows_stageDexScreener rt net);
              grows);
        destruct (Hg2 h0) as [t2 Ht2]; rewrite Ht2
    end.
    exists (t ++ t2). now rewrite <- !app_assoc.
Qed.

(** X6.  The USDT shortcut needs the mode to be ["bnb"].  USDT priced in
    USDT, or under any other mode, is resolved like any token: its
    metadata is read and the router is asked for the path from USDT to
    the quote token, which for the mode ["usdt"] is the path
    [[USDT, USDT]]. *)
Theorem stablecoin_shortcut_needs_bnb_mode tokenAddress mode tryV3 info amountIn h h1 :
  formatAddress tokenAddress = Some USDT ->
  (JS.toLowerCase mode === "bnb") = false ->
  getTokenInfo net USDT h = (inr info, h1) ->
  parseUnits rt "1" (t_decimals info) = Some amountIn ->
  exists quote rest,
    getTokenPrice rt net tokenAddress mode tryV3 h
    = (inr quote,
       h1 ++ RouterGetAmountsOut amountIn
               [USDT; if JS.toLowerCase mode === "usdt" then USDT else WBNB]
          :: rest).
Proof.
  intros Ha Hm Hi Hu.
  rewrite (getTokenPrice_absorbs tokenAddress USDT mode tryV3 h Ha eq_refl)
    by (now rewrite Hm, andb_false_r).
  rewrite (resolveToken_run USDT mode tryV3 info h h1 Hi).
  destruct (resolveWithInfo_starts USDT mode tryV3 info amountIn h1 Hu) as [rest Hr].
  replace (snd (selectQuote mode))
    with (if JS.toLowerCase mode === "usdt" then USDT else WBNB) in Hr
    by (unfold selectQuote; now destruct (JS.toLowerCase mode === "usdt")).
  destruct (resolveWithInfo rt net USDT mode tryV3 info h1) as [[e|quote] h2];
    cbn [snd] in Hr; subst h2; eauto.
Qed.

(** X7.  A quote that fails after its liquidity check passed ends the
    search.  When the check of a path is answered and the quote of the
    same path that follows is rejected, or comes back too short,
    [getTokenPrice] returns the empty record at once: the paths after it,
    V3 and the aggregator are not consulted. *)
Theorem failed_quote_ends_the_search
  tokenAddress fa mode tryV3 info amountIn h h1 i path :
  formatAddress tokenAddress = Some fa ->
  (fa === WBNB) = false ->
  (fa === USDT) && (JS.toLowerCase mode === "bnb") = false ->
  getTokenInfo net fa h = (inr info, h1) ->
  parseUnits rt "1" (t_decimals info) = Some amountIn ->
  nth_error (pathsV2 fa (snd (selectQuote mode))) i = Some path ->
  (forall j p, (j < i)%nat ->
     nth_error (pathsV2 fa (snd (selectQuote mode))) j = Some p ->
     router_getAmountsOut net
       (h1 ++ v2calls amountIn (firstn j (pathsV2 fa (snd (selectQuote mode)))))
       amountIn p = None) ->
  router_getAmountsOut net
    (h1 ++ v2calls amountIn (firstn i (pathsV2 fa (snd (selectQuote mode)))))
    amountIn path <> None ->
  match router_getAmountsOut net
          (h1 ++ v2calls amountIn (firstn (S i) (pathsV2 fa (snd (selectQuote mode)))))
          amountIn path with
  | Some amounts => nth_error amounts (List.length path - 1) = None
  | None => True
  end ->
  getTokenPrice rt net tokenAddress mode tryV3 h
  = (inr Unresolved,
     h1 ++ v2calls amountIn (firstn (S i) (pathsV2 fa (snd (selectQuote mode))))
        ++ [RouterGetAmountsOut amountIn path]).
Proof.
  intros Ha Hw Hs Hi Hu Hn Hearly Hcheck Hquote.
  rewrite (getTokenPrice_absorbs tokenAddress fa mode tryV3 h Ha Hw Hs).
  rewrite (resolveToken_run fa mode tryV3 info h h1 Hi).
  unfold resolveWithInfo. cbv zeta. unfold bind at 1.
  rewrite (probePathsV2_first_match rt net fa (t_symbol info) (t_decimals info)
             amountIn _ Hu h1 i path Hn Hearly Hcheck).
  rewrite (quotePathV2_run rt net fa (t_symbol info) (t_decimals info) amountIn path _ Hu
             (pathsV2_known fa mode path (nth_error_In _ _ Hn))).
  unfold v2Outcome. rewrite <- app_assoc.
  set (hq := h1 ++ v2calls amountIn (firstn (S i) (pathsV2 fa (snd (selectQuote mode))))) in *.
  destruct (router_getAmountsOut net hq amountIn path) as [amounts|]; [|reflexivity].
  now rewrite Hquote.
Qed.

(** X8.  The V3 price in USDT through WBNB.  When the direct V3 probe
    against USDT finds nothing and the probe against WBNB finds a price,
    WBNB is probed against USDT: a price there makes the result the
    floating-point product of the two prices read back with [parseFloat],
    reported with the path [[symbol, "USDT"]]; nothing there leaves the V3
    stage without a price. *)
Theorem v3_price_through_WBNB fa sym mode direct inBNB second h h1 h2 h3 :
  (JS.toLowerCase mode === "usdt") = true ->
  tryGetPriceV3 rt net fa USDT h = (inr direct, h1) ->
  truthy direct = false ->
  tryGetPriceV3 rt net fa WBNB h1 = (inr (Some inBNB), h2) ->
  JS.truthy inBNB = true ->
  tryGetPriceV3 rt net WBNB USDT h2 = (inr second, h3) ->
  (forall inUSDT, second = Some inUSDT -> JS.truthy inUSDT = true ->
     let product := Number_toString rt (PrimFloat.mul (parseFloat rt inBNB)
                                                       (parseFloat rt inUSDT)) in
     resolvePriceV3 rt net fa mode h = (inr (Some product), h3)
     /\ (JS.truthy product = true ->
         stageV3 rt net fa sym mode true h
         = (inr (Some (mkQuote (Some product) (Some "v3") (Some [sym; "USDT"]))), h3)))
  /\ (truthy second = false ->
      resolvePriceV3 rt net fa mode h = (inr direct, h3)
      /\ stageV3 rt net fa sym mode true h = (inr None, h3)).
Proof.
  intros Hm H1 Hd H2 Hb H3.
  assert (Hr : resolvePriceV3 rt net fa mode h
               = (inr (match second with
                       | Some inUSDT =>
                           if JS.truthy inUSDT
                           then Some (Number_toString rt
                                        (PrimFloat.mul (parseFloat rt inBNB)
                                                       (parseFloat rt inUSDT)))
                           else direct
                       | None => direct
                       end), h3)).
  { unfold resolvePriceV3. rewrite Hm.
    rewrite (bind_ok _ _ _ _ _ H1). rewrite Hd. cbn [negb].
    rewrite (bind_ok _ _ _ _ _ H2). rewrite Hb.
    rewrite (bind_ok _ _ _ _ _ H3).
    destruct second as [inUSDT|]; [|reflexivity].
    destruct (JS.truthy inUSDT); reflexivity. }
  split.
  - intros inUSDT -> Hu product.
    rewrite Hu in Hr. split; [exact Hr|]. intros Hp.
    unfold stageV3. rewrite (try_catch_bind_ok _ _ _ _ _ _ Hr).
    fold product. cbn [truthy]. rewrite Hp, Hm. reflexivity.
  - intros Hs.
    assert (Hr' : resolvePriceV3 rt net fa mode h = (inr direct, h3)).
    { rewrite Hr. destruct second as [inUSDT|]; [|reflexivity].
      cbn [truthy] in Hs. now rewrite Hs. }
    split; [exact Hr'|].
    unfold stageV3. rewrite (try_catch_bind_ok _ _ _ _ _ _ Hr').
    now rewrite Hd.
Qed.

End Stages.

Lemma stablecoin_shortcut_needs_bnb_mode_witness :
  exists quote rest,
    getTokenPrice (Sample.runtime None) Sample.direct_and_busd_market
                  USDT "usdt" true []
    = (inr quote,
       metadataCalls USDT
         ++ RouterGetAmountsOut 1000000000000000000 [USDT; USDT] :: rest).
Proof.
  exact (stablecoin_shortcut_needs_bnb_mode
           (Sample.runtime None) Sample.direct_and_busd_market
           USDT "usdt" true (mkInfo "Cake" "PancakeSwap Token" 18)
           1000000000000000000 [] (metadataCalls USDT)
           ltac:(vm_compute; reflexivity) ltac:(vm_compute; reflexivity)
           ltac:(vm_compute; reflexivity) ltac:(vm_compute; reflexivity)).
Defined.

Lemma failed_quote_ends_the_search_witness :
  getTokenPrice (Sample.runtime None) Scenario.flaky_router CAKE "bnb" true []
  = (inr Unresolved,
     metadataCalls Sample.CAKE_TOKEN
       ++ [RouterGetAmountsOut 1000000000000000000 [Sample.CAKE_TOKEN; WBNB];
           RouterGetAmountsOut 1000000000000000000 [Sample.CAKE_TOKEN; WBNB]]).
Proof.
  refine (eq_trans
            (failed_quote_ends_the_search
               (Sample.runtime None) Scenario.flaky_router CAKE Sample.CAKE_TOKEN
               "bnb" true (mkInfo "Cake" "PancakeSwap Token" 18)
               1000000000000000000 [] (metadataCalls Sample.CAKE_TOKEN)
               0%nat [Sample.CAKE_TOKEN; WBNB]
               ltac:(vm_compute; reflexivity) ltac:(vm_compute; reflexivity)
               ltac:(vm_compute; reflexivity) ltac:(vm_compute; reflexivity)
               ltac:(vm_compute; reflexivity) ltac:(vm_compute; reflexivity)
               _ _ _) _).
  - intros j p Hj. lia.
  - vm_compute. discriminate.
  - vm_compute. exact I.
  - vm_compute. reflexivity.
Defined.

Lemma v3_price_through_WBNB_witness :
  let rt := Sample.runtime None in
  resolvePriceV3 rt Scenario.hop_market Sample.CAKE_TOKEN "usdt" []
  = (inr (Some "1"),
     map (FactoryGetPool Sample.CAKE_TOKEN USDT) feeTiers
       ++ [FactoryGetPool Sample.CAKE_TOKEN WBNB 100;
           FactoryGetPool Sample.CAKE_TOKEN WBNB 500;
           PoolToken0 Sample.POOL_500; PoolToken1 Sample.POOL_500;
           PoolSlot0 Sample.POOL_500;
           FactoryGetPool WBNB USDT 100; FactoryGetPool WBNB USDT 500;
           PoolToken0 Sample.POOL_500; PoolToken1 Sample.POOL_500;
           PoolSlot0 Sample.POOL_500]).
Proof.
  refine (eq_trans
            (proj1 (proj1 (v3_price_through_WBNB
                      (Sample.runtime None) Scenario.hop_market
                      Sample.CAKE_TOKEN "Cake" "usdt" None "1" (Some "1") []
                      (map (FactoryGetPool Sample.CAKE_TOKEN USDT) feeTiers)
                      (map (FactoryGetPool Sample.CAKE_TOKEN USDT) feeTiers
                         ++ [FactoryGetPool Sample.CAKE_TOKEN WBNB 100;
                             FactoryGetPool Sample.CAKE_TOKEN WBNB 500;
                             PoolToken0 Sample.POOL_500; PoolToken1 Sample.POOL_500;
                             PoolSlot0 Sample.POOL_500])
                      _
                      ltac:(vm_compute; reflexivity) ltac:(vm_compute; reflexivity)
                      ltac:(vm_compute; reflexivity) ltac:(vm_compute; reflexivity)
                      ltac:(vm_compute; reflexivity) ltac:(vm_compute; reflexivity))
                    "1" eq_refl ltac:(vm_compute; reflexivity))) _).
  vm_compute. reflexivity.
Defined.

(* ================================================================== *)
(** * The aggregator                                                *)
(* ================================================================== *)

(** [sort] is stable, so the head of the sorted array is the earliest of
    the pairs of greatest liquidity. *)
Lemma Array_sort_deepest_first :
  forall others first,
  exists bestPair rest,
    Array_sort compareLiquidity (first :: others) = bestPair :: rest
    /\ deepest_first (first :: others) bestPair.
Proof.
  induction others as [|b l IH]; intros a.
  - exists a, []. split; [reflexivity|].
    exists [], []. repeat split; intros p [].
  - destruct (IH b) as (best & rest & Hs & before & after & Hl & Hb & Ha).
    change (Array_sort compareLiquidity (a :: b :: l))
      with (sort_insert compareLiquidity a (Array_sort compareLiquidity (b :: l))).
    rewrite Hs. cbn [sort_insert].
    destruct (Qle_bool (compareLiquidity a best) 0) eqn:E.
    + apply compareLiquidity_le in E. unfold byLiquidity in E.
      exists a, (best :: rest). split; [reflexivity|].
      exists [], (b :: l). split; [reflexivity|]. split; [intros p []|].
      intros p Hp. rewrite Hl in Hp. apply in_app_or in Hp.
      apply Qle_trans with (liquidityUsd best); [|exact E].
      destruct Hp as [Hp|[<-|Hp]].
      * apply Qlt_le_weak. now apply Hb.
      * apply Qle_refl.
      * now apply Ha.
    + assert (Hlt : (liquidityUsd a < liquidityUsd best)%Q).
      { apply Qnot_le_lt. intros Hle.
        assert (Hc : Qle_bool (compareLiquidity a best) 0 = true)
          by now apply compareLiquidity_le.
        congruence. }
      exists best, (sort_insert compareLiquidity a rest). split; [reflexivity|].
      exists (a :: before), after. split; [now rewrite Hl|]. split; [|exact Ha].
      intros p [<-|Hp]; [exact Hlt|now apply Hb].
Qed.

Lemma post_any {A} (m : M A) : Post m (fun _ => True).
Proof. intros h. now destruct (fst (m h)). Qed.

Section Aggregator.

Variable rt : Runtime.
Variable net : Remote.

(** X9.  The pair the aggregator's answer is read from is the earliest
    of the pairs of greatest liquidity: every pair before it in the
    answer has strictly less, every pair after it has no more.  The price
    returned is read off that pair alone. *)
Theorem dexscreener_picks_the_deepest_pair
  tokenAddress fa sym mode h body first others :
  formatAddress tokenAddress = Some fa ->
  https_get net h (DEXSCREENER_URL ++ fa)%string = HttpResponse 200 body ->
  JSON_parse rt body = Some (Some (mkBody (Some (first :: others)))) ->
  exists bestPair,
    deepest_first (first :: others) bestPair
    /\ getPriceDexScreener rt net tokenAddress sym mode h
       = (inr (dexOutcome mode bestPair),
          h ++ [HttpsGet (DEXSCREENER_URL ++ fa)%string REQUEST_TIMEOUT_MS]).
Proof.
  intros Ha Hg Hp.
  destruct (Array_sort_deepest_first others first) as (bestPair & rest & Hs & Hd).
  destruct (getPriceDexScreener_selects rt net tokenAddress fa sym mode h body
              first others Ha Hg Hp) as (best' & rest' & Hs' & _ & _ & E).
  rewrite Hs in Hs'. injection Hs' as <- <-.
  now exists bestPair.
Qed.

(** X10.  The aggregator is the last resort, end to end.  When the router
    rejects the check of each of the four paths and the V3 stage finds
    nothing, the aggregator is asked about the normalised address; what
    the deepest pair of its answer gives for the mode is returned as it
    is, with the version ["dexscreener"] and the path
    [[symbol, "USDT"]] or [[symbol, "WBNB"]], and the empty record is
    returned when it gives nothing. *)
Theorem aggregator_is_the_last_resort
  tokenAddress fa mode tryV3 info amountIn body first others h h1 h3 :
  formatAddress tokenAddress = Some fa ->
  formatAddress fa = Some fa ->
  (fa === WBNB) = false ->
  (fa === USDT) && (JS.toLowerCase mode === "bnb") = false ->
  getTokenInfo net fa h = (inr info, h1) ->
  parseUnits rt "1" (t_decimals info) = Some amountIn ->
  (forall j p,
     nth_error (pathsV2 fa (snd (selectQuote mode))) j = Some p ->
     router_getAmountsOut net
       (h1 ++ v2calls amountIn (firstn j (pathsV2 fa (snd (selectQuote mode)))))
       amountIn p = None) ->
  stageV3 rt net fa (t_symbol info) mode tryV3
          (h1 ++ v2calls amountIn (pathsV2 fa (snd (selectQuote mode))))
  = (inr None, h3) ->
  https_get net h3 (DEXSCREENER_URL ++ fa)%string = HttpResponse 200 body ->
  JSON_parse rt body = Some (Some (mkBody (Some (first :: others)))) ->
  exists bestPair,
    deepest_first (first :: others) bestPair
    /\ getTokenPrice rt net tokenAddress mode tryV3 h
       = (inr (if truthy (dexOutcome mode bestPair)
               then mkQuote (dexOutcome mode bestPair) (Some "dexscreener")
                            (Some [t_symbol info; quoteLabel mode])
               else Unresolved),
          h3 ++ [HttpsGet (DEXSCREENER_URL ++ fa)%string REQUEST_TIMEOUT_MS]).
Proof.
  intros Ha Hfa Hw Hs Hi Hu Hv2 Hv3 Hg Hp.
  destruct (Array_sort_deepest_first others first) as (bestPair & rest & Hsort & Hd).
  destruct (getPriceDexScreener_selects rt net fa fa (t_symbol info) mode h3 body
              first others Hfa Hg Hp) as (best' & rest' & Hs' & _ & _ & E).
  rewrite Hsort in Hs'. injection Hs' as <- <-.
  exists bestPair. split; [exact Hd|].
  rewrite (getTokenPrice_absorbs rt net tokenAddress fa mode tryV3 h Ha Hw Hs).
  rewrite (resolveToken_run rt net fa mode tryV3 info h h1 Hi).
  unfold resolveWithInfo. cbv zeta.
  assert (Hnone : probePathsV2 rt net fa (t_symbol info) (t_decimals info)
                    (pathsV2 fa (snd (selectQuote mode))) h1
                  = (inr None,
                     h1 ++ v2calls amountIn (pathsV2 fa (snd (selectQuote mode))))).
  { apply (probePathsV2_not_found rt net fa (t_symbol info) (t_decimals info)
             amountIn _ Hu). split; [exact Hv2|reflexivity]. }
  rewrite (bind_ok _ _ _ _ _ Hnone). cbv beta iota.
  rewrite (bind_ok _ _ _ _ _ Hv3). cbv beta iota.
  unfold stageDexScreener. rewrite (bind_ok _ _ _ _ _ E). cbv beta.
  unfold quoteLabel.
  destruct (truthy (dexOutcome mode bestPair)); reflexivity.
Qed.

(** The one request of [getPriceDexScreener]. *)
Lemma getPriceDexScreener_trace a sym mode h :
  snd (getPriceDexScreener rt net a sym mode h)
  = match formatAddress a with
    | Some fa => h ++ [HttpsGet (DEXSCREENER_URL ++ fa)%string REQUEST_TIMEOUT_MS]
    | None => h
    end.
Proof.
  unfold getPriceDexScreener, try_catch. unfold bind at 1.
  destruct (formatAddress a) as [fa|]; [|reflexivity]. cbn [orThrow ret].
  unfold bind at 1.
  pose proof (fetchAPI_trace rt net (DEXSCREENER_URL ++ fa)%string h) as Hsnd.
  destruct (fetchAPI rt net (DEXSCREENER_URL ++ fa)%string h) as [[e|data] h1].
  - cbn in Hsnd. now subst h1.
  - cbn in Hsnd. subst h1.
    destruct data as [[[[|first others]|]]|]; try reflexivity.
    destruct (Array_sort compareLiquidity (first :: others)); [reflexivity|].
    destruct (JS.toLowerCase mode === "bnb").
    + destruct (truthy (priceNative p)); [|reflexivity].
      unfold bind. now destruct (quoteToken p).
    + destruct (JS.toLowerCase mode === "usdt"); [|reflexivity].
      now destruct (truthy (priceUsd p)).
Qed.

End Aggregator.

Lemma dexscreener_picks_the_deepest_pair_witness :
  exists bestPair,
    deepest_first [Scenario.thin; Scenario.deep_early; Scenario.deep_late] bestPair
    /\ getPriceDexScreener
         (Sample.runtime (Sample.answer_of
                            [Scenario.thin; Scenario.deep_early; Scenario.deep_late]))
         (Scenario.aggregator 200) CAKE "Cake" "usdt" []
       = (inr (dexOutcome "usdt" bestPair),
          [] ++ [HttpsGet (DEXSCREENER_URL ++ Sample.CAKE_TOKEN)%string
                          REQUEST_TIMEOUT_MS]).
Proof.
  exact (dexscreener_picks_the_deepest_pair
           (Sample.runtime (Sample.answer_of
                              [Scenario.thin; Scenario.deep_early; Scenario.deep_late]))
           (Scenario.aggregator 200) CAKE Sample.CAKE_TOKEN "Cake" "usdt" []
           "(body)" Scenario.thin [Scenario.deep_early; Scenario.deep_late]
           ltac:(vm_compute; reflexivity) ltac:(vm_compute; reflexivity)
           ltac:(vm_compute; reflexivity)).
Defined.

(** The earlier of the two deepest pairs is the one read. *)
Example ties_go_to_the_earlier_pair :
  getPriceDexScreener
    (Sample.runtime (Sample.answer_of
                       [Scenario.thin; Scenario.deep_early; Scenario.deep_late]))
    (Scenario.aggregator 200) CAKE "Cake" "usdt" []
  = (inr (priceUsd Scenario.deep_early),
     [HttpsGet (DEXSCREENER_URL ++ Sample.CAKE_TOKEN)%string REQUEST_TIMEOUT_MS]).
Proof. vm_compute. reflexivity. Qed.

Lemma aggregator_is_the_last_resort_witness :
  let pairs := [Scenario.thin; Scenario.deep_early; Scenario.deep_late] in
  let fa := Sample.CAKE_TOKEN in
  let amountIn := 1000000000000000000 in
  let h3 := metadataCalls fa ++ v2calls amountIn (pathsV2 fa USDT)
            ++ map (FactoryGetPool fa USDT) feeTiers
            ++ map (FactoryGetPool fa WBNB) feeTiers in
  exists bestPair,
    deepest_first pairs bestPair
    /\ getTokenPrice (Sample.runtime (Sample.answer_of pairs))
                     (Scenario.aggregator 200) CAKE "usdt" true []
       = (inr (if truthy (dexOutcome "usdt" bestPair)
               then mkQuote (dexOutcome "usdt" bestPair) (Some "dexscreener")
                            (Some [t_symbol (mkInfo "Cake" "PancakeSwap Token" 18);
                                   quoteLabel "usdt"])
               else Unresolved),
          h3 ++ [HttpsGet (DEXSCREENER_URL ++ fa)%string REQUEST_TIMEOUT_MS]).
Proof.
  refine (aggregator_is_the_last_resort
            (Sample.runtime (Sample.answer_of
                               [Scenario.thin; Scenario.deep_early; Scenario.deep_late]))
            (Scenario.aggregator 200) CAKE Sample.CAKE_TOKEN "usdt" true
            (mkInfo "Cake" "PancakeSwap Token" 18) 1000000000000000000
            "(body)" Scenario.thin [Scenario.deep_early; Scenario.deep_late]
            [] (metadataCalls Sample.CAKE_TOKEN) _
            ltac:(vm_compute; reflexivity) ltac:(vm_compute; reflexivity)
            ltac:(vm_compute; reflexivity) ltac:(vm_compute; reflexivity)
            ltac:(vm_compute; reflexivity) ltac:(vm_compute; reflexivity)
            _ ltac:(vm_compute; reflexivity) ltac:(vm_compute; reflexivity)
            ltac:(vm_compute; reflexivity)).
  intros j p _. reflexivity.
Defined.

(* ================================================================== *)
(** * The order of the sources                                      *)
(* ================================================================== *)

Lemma chain_of_emits {A} tails allowed (n : nat) (m : M A) :
  (forall c, allowed c = true -> on_chain c = true) ->
  Emits allowed n m -> ChainThen tails m.
Proof.
  intros Hsub H h. destruct (H h) as (t & E & F & _).
  exists t, []. rewrite app_nil_r. repeat split; auto.
  rewrite forallb_forall in *. auto.
Qed.

Lemma chain_bind {A B} tails allowed (n : nat) (m : M A) (k : A -> M B) :
  (forall c, allowed c = true -> on_chain c = true) ->
  Emits allowed n m -> (forall a, ChainThen tails (k a)) ->
  ChainThen tails (bind m k).
Proof.
  intros Hsub H Hk h. unfold bind.
  destruct (H h) as (t & E & F & _).
  assert (Fc : forallb on_chain t = true) by (rewrite forallb_forall in *; auto).
  destruct (m h) as [[e|a] h1]; cbn [snd] in E; subst h1.
  - exists t, []. rewrite app_nil_r. auto.
  - destruct (Hk a (h ++ t)) as (chain & tail & E2 & F2 & T).
    exists (t ++ chain), tail. rewrite E2, forallb_app, Fc, F2, <- !app_assoc. auto.
Qed.

Lemma chain_try_ret {A} tails (m : M A) (a : A) :
  ChainThen tails m -> ChainThen tails (try_catch m (fun _ => ret a)).
Proof.
  intros H h. unfold try_catch. destruct (H h) as (chain & tail & E & F & T).
  exists chain, tail. now destruct (m h) as [[e|x] h1].
Qed.

Lemma chain_weaken {A} (tails tails' : History -> Prop) (m : M A) :
  (forall t, tails t -> tails' t) -> ChainThen tails m -> ChainThen tails' m.
Proof.
  intros Hsub H h. destruct (H h) as (chain & tail & E & F & [T|T]).
  - exists chain, tail. auto.
  - exists chain, tail. auto.
Qed.

Lemma token_on_chain c : is_token_call c = true -> on_chain c = true.
Proof. now destruct c. Qed.

Lemma router_on_chain c : is_router_call c = true -> on_chain c = true.
Proof. now destruct c. Qed.

Lemma v3_on_chain c : is_v3_call c = true -> on_chain c = true.
Proof. now destruct c. Qed.

Section Order.

Variable rt : Runtime.
Variable net : Remote.

Lemma emits_probePathsV2 fa sym dec mode :
  Emits is_router_call 5
    (probePathsV2 rt net fa sym dec (pathsV2 fa (snd (selectQuote mode)))).
Proof.
  intros h.
  destruct (probePathsV2_calls rt net fa sym dec _ (pathsV2_all_known fa mode) h)
    as (t & E & F & L & _).
  exists t. auto.
Qed.

Lemma chain_stageDexScreener fa sym mode :
  ChainThen (fun tail => exists fa', formatAddress fa = Some fa'
               /\ tail = [HttpsGet (DEXSCREENER_URL ++ fa')%string REQUEST_TIMEOUT_MS])
            (stageDexScreener rt net fa sym mode).
Proof.
  intros h. unfold stageDexScreener, bind.
  pose proof (getPriceDexScreener_trace rt net fa sym mode h) as Ht.
  destruct (getPriceDexScreener rt net fa sym mode h) as [[e|r] h1]; cbn [snd] in Ht.
  - destruct (formatAddress fa) as [fa'|] eqn:Hf; subst h1.
    + exists [], [HttpsGet (DEXSCREENER_URL ++ fa')%string REQUEST_TIMEOUT_MS].
      split; [reflexivity|]. split; [reflexivity|]. right. now exists fa'.
    + exists [], []. rewrite app_nil_r. auto.
  - assert (Hs : forall q : PriceQuote,
              snd ((if truthy r then ret q else ret Unresolved) h1) = h1)
      by (intros q; now destruct (truthy r)).
    rewrite Hs.
    destruct (formatAddress fa) as [fa'|] eqn:Hf; subst h1.
    + exists [], [HttpsGet (DEXSCREENER_URL ++ fa')%string REQUEST_TIMEOUT_MS].
      split; [reflexivity|]. split; [reflexivity|]. right. now exists fa'.
    + exists [], []. rewrite app_nil_r. auto.
Qed.

Lemma chain_resolveToken fa mode tryV3 :
  ChainThen (fun tail => exists fa', formatAddress fa = Some fa'
               /\ tail = [HttpsGet (DEXSCREENER_URL ++ fa')%string REQUEST_TIMEOUT_MS])
            (resolveToken rt net fa mode tryV3).
Proof.
  unfold resolveToken, resolveWithInfo.
  apply (chain_bind _ _ _ _ _ token_on_chain (emits_getTokenInfo net fa)).
  intros info. cbv zeta.
  apply (chain_bind _ _ _ _ _ router_on_chain
           (emits_probePathsV2 fa (t_symbol info) (t_decimals info) mode)).
  intros [quote|].
  - apply (chain_of_emits _ (fun _ => false) 0); [discriminate|apply emits_ret].
  - apply (chain_bind _ _ _ _ _ v3_on_chain
             (emits_stageV3 rt net fa (t_symbol info) mode tryV3)).
    intros [quote|].
    + apply (chain_of_emits _ (fun _ => false) 0); [discriminate|apply emits_ret].
    + apply chain_stageDexScreener.
Qed.

(** X11.  The aggregator is asked last and at most once.  The calls of
    one [getTokenPrice] are reads of contracts, followed by nothing more or
    by one HTTPS request, which goes to the DexScreener address of the
    normalised token with the 5000 ms timeout. *)
Theorem the_aggregator_is_asked_last tokenAddress mode tryV3 :
  ChainThen (aggregator_request tokenAddress)
            (getTokenPrice rt net tokenAddress mode tryV3).
Proof.
  unfold getTokenPrice. apply chain_try_ret.
  intros h. unfold bind.
  destruct (formatAddress tokenAddress) as [fa|] eqn:Ha; cbn [orThrow ret throw].
  - assert (Hd : forall a b sa sb,
              ChainThen (aggregator_request tokenAddress)
                        (quoteDirectPair rt net a b sa sb)).
    { intros a b sa sb.
      apply (chain_of_emits _ _ _ _ router_on_chain
               (emits_quoteDirectPair rt net a b sa sb)). }
    destruct (fa === WBNB).
    + destruct (JS.toLowerCase mode === "usdt"); [apply Hd|].
      exists [], []. rewrite app_nil_r. auto.
    + destruct ((fa === USDT) && (JS.toLowerCase mode === "bnb")); [apply Hd|].
      apply (chain_weaken _ _ _ (fun t '(ex_intro _ fa' (conj Hf Ht)) =>
                                   ex_intro _ fa (ex_intro _ fa' (conj Ha (conj Hf Ht))))
               (chain_resolveToken fa mode tryV3)).
  - exists [], []. rewrite app_nil_r. auto.
Qed.

End Order.

(* ================================================================== *)
(** * The shape of the record                                       *)
(* ================================================================== *)

Ltac post_skip x :=
  apply post_bind; eapply post_weaken; [apply post_any|intros x _].

Section Shape.

Variable rt : Runtime.
Variable net : Remote.
Variable mode : string.

Lemma shaped_v2 price path :
  empty_or_filled mode (mkQuote (Some price) (Some "v2") (Some path)).
Proof.
  right. exists price, "v2", path. split; [reflexivity|].
  unfold versions_of. destruct (_ || _); cbn; auto.
Qed.

Lemma shaped_v3 price path :
  empty_or_filled mode (mkQuote (Some price) (Some "v3") (Some path)).
Proof.
  right. exists price, "v3", path. split; [reflexivity|].
  unfold versions_of. destruct (_ || _); cbn; auto.
Qed.

Lemma shape_quoteDirectPair a b sa sb :
  Post (quoteDirectPair rt net a b sa sb) (empty_or_filled mode).
Proof.
  unfold quoteDirectPair.
  apply post_bind, post_orThrow; intros amountIn _.
  post_skip amounts. apply post_bind, post_orThrow; intros amount _.
  apply post_ret, shaped_v2.
Qed.

Lemma shape_probePathsV2 fa sym dec paths :
  Post (probePathsV2 rt net fa sym dec paths)
       (fun r => forall q, r = Some q -> empty_or_filled mode q).
Proof.
  induction paths as [|path rest IH]; cbn [probePathsV2].
  - apply post_ret. discriminate.
  - post_skip hasLiquidity. destruct hasLiquidity; [|exact IH].
    unfold quotePathV2.
    apply post_bind, post_bind, post_orThrow; intros amountIn _.
    post_skip amounts. apply post_bind, post_orThrow; intros amount _.
    post_skip pathSymbols. apply post_ret, post_ret.
    intros q [= <-]. apply shaped_v2.
Qed.

Lemma shape_stageV3 fa sym tryV3 :
  Post (stageV3 rt net fa sym mode tryV3)
       (fun r => forall q, r = Some q -> empty_or_filled mode q).
Proof.
  unfold stageV3. destruct tryV3; [|apply post_ret; discriminate].
  apply post_try_catch; [|intros e; apply post_ret; discriminate].
  post_skip priceV3. destruct priceV3 as [price|]; cbn [truthy].
  - destruct (JS.truthy price); apply post_ret; [|discriminate].
    intros q [= <-]. apply shaped_v3.
  - apply post_ret. discriminate.
Qed.

(** Under a mode that is neither ["bnb"] nor ["usdt"] the aggregator
    stage has nothing to return, whatever the answer. *)
Lemma shape_getPriceDexScreener a sym :
  Post (getPriceDexScreener rt net a sym mode)
       (fun r => (JS.toLowerCase mode === "bnb") || (JS.toLowerCase mode === "usdt") = false ->
                 r = None).
Proof.
  unfold getPriceDexScreener.
  apply post_try_catch; [|intros e; now apply post_ret].
  apply post_bind, post_orThrow; intros fa _. cbv zeta.
  post_skip data.
  destruct data as [[[[|first others]|]]|]; try now apply post_ret.
  destruct (Array_sort compareLiquidity (first :: others)) as [|bestPair rest];
    [apply post_throw|].
  destruct (JS.toLowerCase mode === "bnb"); cbn [orb].
  - destruct (truthy (priceNative bestPair)); [|now apply post_ret].
    apply post_bind, post_orThrow; intros ? _. apply post_ret. discriminate.
  - destruct (JS.toLowerCase mode === "usdt"); [|now apply post_ret].
    destruct (truthy (priceUsd bestPair)); apply post_ret; [discriminate|reflexivity].
Qed.

Lemma shape_stageDexScreener fa sym :
  Post (stageDexScreener rt net fa sym mode) (empty_or_filled mode).
Proof.
  unfold stageDexScreener. apply post_bind.
  eapply post_weaken; [apply shape_getPriceDexScreener|].
  intros r Hr. destruct r as [price|]; cbn [truthy]; [|apply post_ret; now left].
  destruct (JS.truthy price); apply post_ret; [|now left].
  right. exists price, "dexscreener". eexists. split; [reflexivity|].
  unfold versions_of.
  destruct ((JS.toLowerCase mode === "bnb") || (JS.toLowerCase mode === "usdt")).
  - cbn. auto.
  - specialize (Hr eq_refl). discriminate.
Qed.

Lemma shape_getTokenPrice tokenAddress tryV3 :
  Post (getTokenPrice rt net tokenAddress mode tryV3) (empty_or_filled mode).
Proof.
  unfold getTokenPrice.
  apply post_try_catch; [|intros e; apply post_ret; now left].
  apply post_bind, post_orThrow; intros fa _.
  destruct (fa === WBNB).
  - destruct (JS.toLowerCase mode === "usdt"); [apply shape_quoteDirectPair|].
    apply post_ret. right. exists "1", "n/a", ["WBNB"]. split; [reflexivity|].
    unfold versions_of. destruct (_ || _); cbn; auto.
  - destruct (_ && _); [apply shape_quoteDirectPair|].
    unfold resolveToken, resolveWithInfo. post_skip info. cbv zeta.
    apply post_bind. eapply post_weaken; [apply shape_probePathsV2|].
    intros [quote|] Hq; [apply post_ret; now apply Hq|].
    apply post_bind. eapply post_weaken; [apply shape_stageV3|].
    intros [quote|] Hq3; [apply post_ret; now apply Hq3|].
    apply shape_stageDexScreener.
Qed.

(** X12.  What [getTokenPrice] returns is a record whose three fields are
    all [null], or a record none of whose fields is [null] and whose
    version is one of ["n/a"], ["v2"], ["v3"] and ["dexscreener"].  Under
    a mode that is neither ["bnb"] nor ["usdt"] in any case of letters the
    version is never ["dexscreener"]: such a mode is priced in WBNB by the
    router and by V3, and the aggregator stage has nothing to return for
    it. *)
Theorem the_record_is_empty_or_filled tokenAddress tryV3 h :
  exists quote h',
    getTokenPrice rt net tokenAddress mode tryV3 h = (inr quote, h')
    /\ (quote = Unresolved \/ filled (versions_of mode) quote)
    /\ ((JS.toLowerCase mode === "bnb") = false ->
        (JS.toLowerCase mode === "usdt") = false ->
        q_version quote <> Some "dexscreener").
Proof.
  destruct (post_total _ _ h (shape_getTokenPrice tokenAddress tryV3)
              (getTokenPrice_total rt net tokenAddress mode tryV3 h))
    as (quote & h' & E & Hs).
  exists quote, h'. split; [exact E|]. split; [exact Hs|].
  intros Hb Hu. destruct Hs as [->|(price & version & path & -> & Hin)].
  - discriminate.
  - unfold versions_of in Hin. rewrite Hb, Hu in Hin. cbn in Hin.
    cbn [q_version]. intros [= ->].
    destruct Hin as [H|[H|[H|[]]]]; discriminate.
Qed.

End Shape.

(* ================================================================== *)
(** * The mode                                                      *)
(* ================================================================== *)

Lemma toLowerCase_idem (s : string) :
  JS.toLowerCase (JS.toLowerCase s) = JS.toLowerCase s.
Proof.
  unfold JS.toLowerCase.
  now rewrite AddressFacts.chars_join, AddressFacts.map_lower_idem.
Qed.

Section Mode.

Variable rt : Runtime.
Variable net : Remote.

(** X13.  The mode counts up to the case of its letters only: two modes
    with the same lower-case form give the same run of [getTokenPrice],
    call for call, and so does a mode and its lower-case form. *)
Theorem mode_is_case_insensitive tokenAddress mode mode' tryV3 h :
  JS.toLowerCase mode = JS.toLowerCase mode' ->
  getTokenPrice rt net tokenAddress mode tryV3 h
  = getTokenPrice rt net tokenAddress mode' tryV3 h
  /\ getTokenPrice rt net tokenAddress (JS.toLowerCase mode) tryV3 h
     = getTokenPrice rt net tokenAddress mode tryV3 h.
Proof.
  assert (Hgen : forall m m', JS.toLowerCase m = JS.toLowerCase m' ->
            getTokenPrice rt net tokenAddress m tryV3
            = getTokenPrice rt net tokenAddress m' tryV3).
  { intros m m' H.
    unfold getTokenPrice, resolveToken, resolveWithInfo, selectQuote, stageV3,
      resolvePriceV3, stageDexScreener, getPriceDexScreener.
    now rewrite H. }
  intros H. split.
  - now rewrite (Hgen mode mode' H).
  - now rewrite (Hgen (JS.toLowerCase mode) mode (toLowerCase_idem mode)).
Qed.

Lemma getPriceDexScreener_total a sym mode h :
  exists price h', getPriceDexScreener rt net a sym mode h = (inr price, h').
Proof.
  unfold getPriceDexScreener. apply try_catch_total.
  intros e h0. now exists None, h0.
Qed.

(** X14.  [getPriceDexScreener] never throws.  It sends one request, to
    the DexScreener address of the normalised token, and none when
    [formatAddress] refuses the address; it returns [null] on a refused
    address, and under every mode that is neither ["bnb"] nor ["usdt"]
    whatever the aggregator answers. *)
Theorem getPriceDexScreener_is_contained tokenAddress sym mode h :
  exists price,
    getPriceDexScreener rt net tokenAddress sym mode h
    = (inr price,
       match formatAddress tokenAddress with
       | Some fa => h ++ [HttpsGet (DEXSCREENER_URL ++ fa)%string REQUEST_TIMEOUT_MS]
       | None => h
       end)
    /\ (formatAddress tokenAddress = None -> price = None)
    /\ ((JS.toLowerCase mode === "bnb") = false ->
        (JS.toLowerCase mode === "usdt") = false ->
        price = None).
Proof.
  pose proof (getPriceDexScreener_trace rt net tokenAddress sym mode h) as Ht.
  pose proof (shape_getPriceDexScreener rt net mode tokenAddress sym h) as Hm.
  assert (Hr : formatAddress tokenAddress = None ->
               fst (getPriceDexScreener rt net tokenAddress sym mode h) = inr None).
  { intros Ha. unfold getPriceDexScreener, try_catch. unfold bind at 1.
    now rewrite Ha. }
  destruct (getPriceDexScreener_total tokenAddress sym mode h) as (price & h' & E).
  rewrite E in Ht, Hm, Hr. cbn [fst snd] in Ht, Hm, Hr. subst h'.
  exists price. split; [exact E|]. split.
  - intros Ha. specialize (Hr Ha). congruence.
  - intros Hb Hu. apply Hm. now rewrite Hb, Hu.
Qed.

End Mode.

Lemma mode_is_case_insensitive_witness :
  getTokenPrice (Sample.runtime None) Sample.direct_and_busd_market CAKE "USDT" true []
  = getTokenPrice (Sample.runtime None) Sample.direct_and_busd_market CAKE "usdt" true [].
Proof.
  exact (proj1 (mode_is_case_insensitive
                  (Sample.runtime None) Sample.direct_and_busd_market
                  CAKE "USDT" "usdt" true [] eq_refl)).
Defined.

(* ================================================================== *)
(** * Path labels and fee tiers                                     *)
(* ================================================================== *)

Section Labels.

Variable rt : Runtime.
Variable net : Remote.

(** X15.  [pathSymbol] never throws, and the abbreviated address of its
    [catch] block is never the label.  One of the four tokens the program
    knows by name and the input token are labelled without a read; any
    other address is labelled with the symbol [getTokenInfo] returns for
    it, which is ["UNKNOWN"] when the reads fail. *)
Theorem pathSymbol_fallback_is_unreachable fa sym addr h :
  exists label h',
    pathSymbol net fa sym addr h = (inr label, h')
    /\ (known_address fa addr = true ->
        label = reportedSymbol sym addr /\ h' = h)
    /\ (known_address fa addr = false ->
        exists info,
          getTokenInfo net addr h = (inr info, h') /\ label = t_symbol info).
Proof.
  destruct (known_address fa addr) eqn:Hk.
  - exists (reportedSymbol sym addr), h.
    rewrite (pathSymbol_known net fa sym addr Hk).
    split; [reflexivity|]. split; [auto|discriminate].
  - destruct (getTokenInfo_total net addr h) as (info & h' & Hi).
    exists (t_symbol info), h'. split; [|split; [discriminate|eauto]].
    unfold known_address in Hk.
    repeat (apply orb_false_iff in Hk; destruct Hk as [Hk ?]).
    unfold pathSymbol.
    repeat match goal with H : (_ === _) = false |- _ => rewrite H; clear H end.
    unfold try_catch, bind. now rewrite Hi.
Qed.

(** X16.  One fee tier of [tryGetPriceV3] never throws.  It costs the
    factory lookup, and the reads [token0()], [token1()], [slot0()] of
    the pool as well exactly when the factory names a pool other than the
    zero address that [formatAddress] accepts; the three reads are issued
    together, and the tier yields a price exactly when all three are
    answered. *)
Theorem probeFeeTier_outcomes fin fout fee h :
  probeFeeTier rt net fin fout fee h
  = let h1 := h ++ [FactoryGetPool fin fout fee] in
    match factory_getPool net h fin fout fee with
    | Some poolAddress =>
        if poolAddress === ZeroAddress then (inr None, h1)
        else
          match formatAddress poolAddress with
          | Some pool =>
              (inr (match pool_token0 net h1 pool,
                          pool_token1 net (h1 ++ [PoolToken0 pool]) pool,
                          pool_slot0_tick net (h1 ++ [PoolToken0 pool; PoolToken1 pool]) pool with
                    | Some _, Some tok1, Some tick =>
                        Some (Number_toString rt (priceFromTick rt tick (fin === tok1)))
                    | _, _, _ => None
                    end),
               h1 ++ poolCalls pool)
          | None => (inr None, h1)
          end
    | None => (inr None, h1)
    end.
Proof.
  cbv zeta. unfold probeFeeTier, try_catch. unfold bind at 1. unfold getPool, await.
  destruct (factory_getPool net h fin fout fee) as [poolAddress|]; [|reflexivity].
  destruct (poolAddress === ZeroAddress); [reflexivity|].
  unfold bind at 1. destruct (formatAddress poolAddress) as [pool|]; [|reflexivity].
  cbn [orThrow ret]. unfold bind at 1.
  unfold readPoolPrice, token0, token1, slot0. unfold bind at 1.
  rewrite Promise_all3_await. unfold poolCalls.
  set (h1 := h ++ [FactoryGetPool fin fout fee]).
  destruct (pool_token0 net h1 pool);
    destruct (pool_token1 net (h1 ++ [PoolToken0 pool]) pool);
    destruct (pool_slot0_tick net (h1 ++ [PoolToken0 pool; PoolToken1 pool]) pool);
    reflexivity.
Qed.

End Labels.

(* ================================================================== *)
(** * The drivers                                                   *)
(* ================================================================== *)

Section DriverFacts.

Variable rt : Runtime.
Variable net : Remote.

Lemma getTokenPrice_refused tokenAddress mode tryV3 h :
  formatAddress tokenAddress = None ->
  getTokenPrice rt net tokenAddress mode tryV3 h = (inr Unresolved, h).
Proof.
  intros Ha. unfold getTokenPrice, try_catch. unfold bind at 1. now rewrite Ha.
Qed.

Lemma emits_checkPrices a : Emits (fun _ => true) 115 (checkPrices rt net a).
Proof.
  pose proof (emits_getTokenInfo net). pose proof (emits_getTokenPrice rt net).
  unfold checkPrices. emits.
Qed.

Lemma checkPrices_total a h :
  exists report h', checkPrices rt net a h = (inr report, h').
Proof.
  unfold checkPrices.
  destruct (getTokenInfo_total net a h) as (info & h1 & E1).
  rewrite (bind_ok _ _ _ _ _ E1).
  destruct (getTokenPrice_total rt net a "bnb" true h1) as (q1 & h2 & E2).
  rewrite (bind_ok _ _ _ _ _ E2).
  destruct (getTokenPrice_total rt net a "usdt" true h2) as (q2 & h3 & E3).
  rewrite (bind_ok _ _ _ _ _ E3). eexists _, _. reflexivity.
Qed.

(** X17.  [checkPrices] and [runTests] never throw, so loading the
    module leaves no rejected promise behind.  [checkPrices] issues at
    most 115 remote calls and [runTests] at most 230.  On an address
    [formatAddress] refuses, [checkPrices] returns the symbol ["UNKNOWN"]
    with both prices and both versions [null], without a single call. *)
Theorem the_drivers_never_throw tokenAddress h :
  (exists report h', checkPrices rt net tokenAddress h = (inr report, h'))
  /\ Emits (fun _ => true) 115 (checkPrices rt net tokenAddress)
  /\ (formatAddress tokenAddress = None ->
      checkPrices rt net tokenAddress h
      = (inr (mkReport "UNKNOWN" (mkSummary None None) (mkSummary None None)), h))
  /\ (exists h', runTests rt net h = (inr tt, h'))
  /\ Emits (fun _ => true) 230 (runTests rt net).
Proof.
  split; [apply checkPrices_total|]. split; [apply emits_checkPrices|].
  split; [|split].
  - intros Ha. unfold checkPrices.
    rewrite (bind_ok _ _ _ _ _ (getTokenInfo_refused net tokenAddress h Ha)).
    rewrite (bind_ok _ _ _ _ _ (getTokenPrice_refused tokenAddress "bnb" true h Ha)).
    rewrite (bind_ok _ _ _ _ _ (getTokenPrice_refused tokenAddress "usdt" true h Ha)).
    reflexivity.
  - unfold runTests.
    destruct (checkPrices_total CAKE h) as (r1 & h1 & E1).
    rewrite (bind_ok _ _ _ _ _ E1).
    destruct (checkPrices_total UGO h1) as (r2 & h2 & E2).
    rewrite (bind_ok _ _ _ _ _ E2). eexists. reflexivity.
  - pose proof emits_checkPrices. unfold runTests. emits.
Qed.

Lemma getTokenPrice_rereads tokenAddress fa mode tryV3 h :
  formatAddress tokenAddress = Some fa ->
  formatAddress fa = Some fa ->
  (fa === WBNB) = false ->
  (fa === USDT) && (JS.toLowerCase mode === "bnb") = false ->
  exists quote t,
    getTokenPrice rt net tokenAddress mode tryV3 h
    = (inr quote, h ++ metadataCalls fa ++ t).
Proof.
  intros Ha Hfa Hw Hs.
  rewrite (getTokenPrice_absorbs rt net tokenAddress fa mode tryV3 h Ha Hw Hs).
  rewrite (resolveToken_run rt net fa mode tryV3 _ h _ (getTokenInfo_run net fa fa h Hfa)).
  match goal with
  | |- context [resolveWithInfo rt net fa mode tryV3 ?info ?h1] =>
      destruct (emits_resolveWithInfo_from rt net (fun _ => true) 49 fa mode tryV3 info
                  (fun _ _ => eq_refl) (emits_after_V2 rt net fa (t_symbol info) mode tryV3) h1)
        as (t & E & _);
      destruct (resolveWithInfo rt net fa mode tryV3 info h1) as [[e|quote] h2];
      cbn [snd] in E; subst h2
  end.
  - exists Unresolved, t. now rewrite <- app_assoc.
  - exists quote, t. now rewrite <- app_assoc.
Qed.

(** X18.  [checkPrices] reads the metadata of a token three times: once
    itself, and once more in each of its two calls of [getTokenPrice],
    which keep nothing from one call to the next.  The symbol of the
    report is the one of the first read. *)
Theorem checkPrices_reads_the_metadata_three_times tokenAddress fa h :
  formatAddress tokenAddress = Some fa ->
  formatAddress fa = Some fa ->
  (fa === WBNB) = false ->
  (fa === USDT) = false ->
  exists info report t1 t2,
    getTokenInfo net tokenAddress h = (inr info, h ++ metadataCalls fa)
    /\ checkPrices rt net tokenAddress h
       = (inr report,
          h ++ metadataCalls fa
            ++ (metadataCalls fa ++ t1)
            ++ (metadataCalls fa ++ t2))
    /\ r_symbol report = t_symbol info.
Proof.
  intros Ha Hfa Hw Hu.
  pose proof (getTokenInfo_run net tokenAddress fa h Ha) as E1.
  destruct (getTokenPrice_rereads tokenAddress fa "bnb" true (h ++ metadataCalls fa)
              Ha Hfa Hw ltac:(now rewrite Hu)) as (q1 & t1 & E2).
  destruct (getTokenPrice_rereads tokenAddress fa "usdt" true
              ((h ++ metadataCalls fa) ++ metadataCalls fa ++ t1)
              Ha Hfa Hw ltac:(now rewrite Hu)) as (q2 & t2 & E3).
  eexists _, _, t1, t2. split; [exact E1|].
  unfold checkPrices.
  rewrite (bind_ok _ _ _ _ _ E1), (bind_ok _ _ _ _ _ E2), (bind_ok _ _ _ _ _ E3).
  unfold ret. split; [now rewrite <- !app_assoc|reflexivity].
Qed.

End DriverFacts.

Lemma the_drivers_never_throw_witness :
  checkPrices (Sample.runtime None) Sample.direct_and_busd_market "0x1234" []
  = (inr (mkReport "UNKNOWN" (mkSummary None None) (mkSummary None None)), []).
Proof.
  apply (proj1 (proj2 (proj2 (the_drivers_never_throw
                  (Sample.runtime None) Sample.direct_and_busd_market "0x1234" [])))).
  vm_compute. reflexivity.
Defined.

Lemma checkPrices_reads_the_metadata_three_times_witness :
  let fa := Sample.CAKE_TOKEN in
  exists info report t1 t2,
    getTokenInfo Scenario.flaky_router CAKE [] = (inr info, [] ++ metadataCalls fa)
    /\ checkPrices (Sample.runtime None) Scenario.flaky_router CAKE []
       = (inr report,
          [] ++ metadataCalls fa ++ (metadataCalls fa ++ t1) ++ (metadataCalls fa ++ t2))
    /\ r_symbol report = t_symbol info.
Proof.
  exact (checkPrices_reads_the_metadata_three_times
           (Sample.runtime None) Scenario.flaky_router CAKE Sample.CAKE_TOKEN []
           ltac:(vm_compute; reflexivity) ltac:(vm_compute; reflexivity)
           ltac:(vm_compute; reflexivity) ltac:(vm_compute; reflexivity)).
Defined.

(* ================================================================== *)
(** * The first program                                             *)
(* ================================================================== *)

Section FirstProgramFacts.

Variable rt : Runtime.
Variable net : Remote.
Variable quoter : FirstProgram.Quoter.

(** X19.  The two programs differ in [getPriceDexScreener] by the log
    line alone.  On an answer with pairs both read the same pair, the
    earliest of the deepest, and issue the same request; the first program
    returns the native price of that pair whether or not the pair carries
    [quoteToken], where the second returns [null] for a pair without it;
    in every other case the two results are the same. *)
Theorem first_program_needs_no_quoteToken
  tokenAddress fa sym mode h body first others :
  formatAddress tokenAddress = Some fa ->
  https_get net h (DEXSCREENER_URL ++ fa)%string = HttpResponse 200 body ->
  JSON_parse rt body = Some (Some (mkBody (Some (first :: others)))) ->
  exists bestPair,
    deepest_first (first :: others) bestPair
    /\ FirstProgram.getPriceDexScreener rt net tokenAddress sym mode h
       = (inr (firstOutcome mode bestPair),
          h ++ [HttpsGet (DEXSCREENER_URL ++ fa)%string REQUEST_TIMEOUT_MS])
    /\ getPriceDexScreener rt net tokenAddress sym mode h
       = (inr (dexOutcome mode bestPair),
          h ++ [HttpsGet (DEXSCREENER_URL ++ fa)%string REQUEST_TIMEOUT_MS])
    /\ (dexOutcome mode bestPair <> firstOutcome mode bestPair
        <-> (JS.toLowerCase mode === "bnb") = true
            /\ truthy (priceNative bestPair) = true
            /\ quoteToken bestPair = None).
Proof.
  intros Ha Hg Hp.
  destruct (Array_sort_deepest_first others first) as (bestPair & rest & Hs & Hd).
  destruct (getPriceDexScreener_selects rt net tokenAddress fa sym mode h body
              first others Ha Hg Hp) as (best' & rest' & Hs' & _ & _ & E).
  rewrite Hs in Hs'. injection Hs' as <- <-.
  exists bestPair. split; [exact Hd|]. split; [|split; [exact E|]].
  - unfold FirstProgram.getPriceDexScreener.
    rewrite (try_catch_bind_ok _ _ _ h fa h) by (now rewrite Ha).
    rewrite (try_catch_bind_ok _ _ _ _ _ _ (fetchAPI_ok rt net _ h body _ Hg Hp)).
    rewrite Hs. unfold firstOutcome, try_catch.
    destruct (JS.toLowerCase mode === "bnb").
    + destruct (truthy (priceNative bestPair)); reflexivity.
    + destruct (JS.toLowerCase mode === "usdt"); [|reflexivity].
      destruct (truthy (priceUsd bestPair)); reflexivity.
  - unfold dexOutcome, firstOutcome.
    destruct (JS.toLowerCase mode === "bnb").
    + destruct (truthy (priceNative bestPair)) eqn:Ht.
      * destruct (quoteToken bestPair) as [q|].
        -- split; [congruence|]. intros (_ & _ & [=]).
        -- split; [auto|]. intros _ Hn.
           destruct (priceNative bestPair); [discriminate|]. discriminate.
      * split; [congruence|]. intros (_ & [=] & _).
    + split; [congruence|]. intros ([=] & _).
Qed.

Lemma quotes_cons tokenIn tokenOut amountIn fee rest :
  quotes tokenIn tokenOut amountIn (fee :: rest)
  = FirstProgram.QuoteExactInputSingle tokenIn tokenOut fee amountIn 0
      :: quotes tokenIn tokenOut amountIn rest.
Proof. reflexivity. Qed.

Lemma quoteFeeTiers_first tokenIn tokenOut decimalsIn amountIn :
  parseUnits rt "1" decimalsIn = Some amountIn ->
  forall fees h i fee amountOut,
  nth_error fees i = Some fee ->
  (forall j f, (j < i)%nat -> nth_error fees j = Some f ->
     quoter (h ++ quotes tokenIn tokenOut amountIn (firstn j fees))
            tokenIn tokenOut f amountIn 0 = None) ->
  quoter (h ++ quotes tokenIn tokenOut amountIn (firstn i fees))
         tokenIn tokenOut fee amountIn 0 = Some amountOut ->
  FirstProgram.quoteFeeTiers rt quoter tokenIn tokenOut decimalsIn fees h
  = (Some (formatUnits rt amountOut 18),
     h ++ quotes tokenIn tokenOut amountIn (firstn (S i) fees)).
Proof.
  intros Hu. induction fees as [|fee0 rest IH]; intros h i fee amountOut Hn Hearly Hhit.
  - now destruct i.
  - cbn [FirstProgram.quoteFeeTiers]. rewrite Hu. cbv zeta.
    destruct i as [|i].
    + injection Hn as ->. cbn [firstn quotes map] in Hhit. rewrite app_nil_r in Hhit.
      rewrite Hhit. reflexivity.
    + cbn [nth_error] in Hn.
      pose proof (Hearly 0%nat fee0 ltac:(lia) eq_refl) as H0.
      cbn [firstn quotes map] in H0. rewrite app_nil_r in H0. rewrite H0.
      rewrite (IH _ i fee amountOut Hn).
      * cbn [firstn]. rewrite quotes_cons, <- app_assoc. reflexivity.
      * intros j f Hj Hf.
        specialize (Hearly (S j) f ltac:(lia) Hf).
        cbn [firstn] in Hearly. rewrite quotes_cons in Hearly.
        now rewrite <- app_assoc.
      * cbn [firstn] in Hhit. rewrite quotes_cons in Hhit.
        now rewrite <- app_assoc.
Qed.

Lemma quoteFeeTiers_none tokenIn tokenOut decimalsIn amountIn :
  parseUnits rt "1" decimalsIn = Some amountIn ->
  forall fees h h',
  FirstProgram.quoteFeeTiers rt quoter tokenIn tokenOut decimalsIn fees h = (None, h')
  <-> ((forall j f, nth_error fees j = Some f ->
          quoter (h ++ quotes tokenIn tokenOut amountIn (firstn j fees))
                 tokenIn tokenOut f amountIn 0 = None)
       /\ h' = h ++ quotes tokenIn tokenOut amountIn fees).
Proof.
  intros Hu. induction fees as [|fee0 rest IH]; intros h h'.
  - cbn. rewrite app_nil_r. split.
    + intros [= <-]. split; [|reflexivity]. intros [|j] f; discriminate.
    + intros [_ ->]. reflexivity.
  - cbn [FirstProgram.quoteFeeTiers]. rewrite Hu. cbv zeta.
    destruct (quoter h tokenIn tokenOut fee0 amountIn 0) as [amountOut|] eqn:Hq.
    + split; [discriminate|]. intros [Hall _].
      specialize (Hall 0%nat fee0 eq_refl).
      cbn [firstn quotes map] in Hall. rewrite app_nil_r in Hall. congruence.
    + rewrite IH. rewrite quotes_cons, <- app_assoc. cbn [app].
      split; intros [Hall ->]; (split; [|reflexivity]).
      * intros [|j] f Hf.
        -- injection Hf as <-. cbn [firstn quotes map]. now rewrite app_nil_r.
        -- cbn [firstn]. rewrite quotes_cons.
           specialize (Hall j f Hf). now rewrite <- app_assoc in Hall.
      * intros j f Hf. specialize (Hall (S j) f Hf).
        cbn [firstn] in Hall. rewrite quotes_cons in Hall.
        now rewrite <- app_assoc.
Qed.

Lemma quoteFeeTiers_no_scale tokenIn tokenOut decimalsIn :
  parseUnits rt "1" decimalsIn = None ->
  forall fees h,
  FirstProgram.quoteFeeTiers rt quoter tokenIn tokenOut decimalsIn fees h = (None, h).
Proof.
  intros Hu. induction fees as [|fee rest IH]; intros h; [reflexivity|].
  cbn [FirstProgram.quoteFeeTiers]. rewrite Hu. apply IH.
Qed.


End FirstProgramFacts.

Lemma first_program_needs_no_quoteToken_witness :
  let pairs := [Sample.shallow_pair; Sample.deep_pair] in
  let rt := Sample.runtime (Sample.answer_of pairs) in
  let request := [HttpsGet (DEXSCREENER_URL ++ Sample.CAKE_TOKEN)%string
                           REQUEST_TIMEOUT_MS] in
  exists bestPair,
    deepest_first pairs bestPair
    /\ FirstProgram.getPriceDexScreener rt Sample.aggregator_only CAKE "Cake" "bnb" []
       = (inr (firstOutcome "bnb" bestPair), [] ++ request)
    /\ getPriceDexScreener rt Sample.aggregator_only CAKE "Cake" "bnb" []
       = (inr (dexOutcome "bnb" bestPair), [] ++ request)
    /\ (dexOutcome "bnb" bestPair <> firstOutcome "bnb" bestPair
        <-> (JS.toLowerCase "bnb" === "bnb") = true
            /\ truthy (priceNative bestPair) = true
            /\ quoteToken bestPair = None).
Proof.
  exact (first_program_needs_no_quoteToken
           (Sample.runtime (Sample.answer_of [Sample.shallow_pair; Sample.deep_pair]))
           Sample.aggregator_only CAKE Sample.CAKE_TOKEN "Cake" "bnb" [] "(body)"
           Sample.shallow_pair [Sample.deep_pair]
           ltac:(vm_compute; reflexivity) ltac:(vm_compute; reflexivity)
           ltac:(vm_compute; reflexivity)).
Defined.

(** On the answer the second program loses, the first returns the native
    price. *)
Example first_program_keeps_the_native_price :
  let rt := Sample.runtime (Sample.answer_of [Sample.shallow_pair; Sample.deep_pair]) in
  fst (FirstProgram.getPriceDexScreener rt Sample.aggregator_only CAKE "Cake" "bnb" [])
  = inr (Some "0.5")
  /\ fst (getPriceDexScreener rt Sample.aggregator_only CAKE "Cake" "bnb" [])
     = inr None.
Proof. split; vm_compute; reflexivity. Qed.


(* ================================================================== *)
(** * The cost of a price                                           *)
(* ================================================================== *)

(** X21.  One call of [getTokenPrice] issues at most 56 remote calls:
    three metadata reads, four liquidity checks, 48 reads of the V3
    factory and its pools, one HTTPS request.  With [tryV3] false it
    issues at most eight, none of them to the V3 factory or to a pool.
    Both bounds are reached. *)
Theorem getTokenPrice_call_budget :
  (forall rt net tokenAddress mode tryV3,
     Emits (fun _ => true) 56 (getTokenPrice rt net tokenAddress mode tryV3))
  /\ (forall rt net tokenAddress mode,
        Emits (fun c => negb (is_v3_call c)) 8
              (getTokenPrice rt net tokenAddress mode false))
  /\ List.length (snd (getTokenPrice (Sample.runtime None) Scenario.busy_market
                                     CAKE "usdt" true [])) = 56%nat
  /\ List.length (snd (getTokenPrice (Sample.runtime None) (Scenario.aggregator 200)
                                     CAKE "usdt" false [])) = 8%nat.
Proof.
  split; [exact emits_getTokenPrice|]. split; [exact emits_getTokenPrice_no_V3|].
  split; vm_compute; reflexivity.
Qed.
